(** * ASO dashboard: CSV ingestion, insight aggregation and projections

    A shallow embedding of the TypeScript sources

    - [src/lib/flexible-csv-parser.ts]  (module [Flexible]),
    - [src/lib/csv-parser.ts]: the strict parser (module [Strict]), the
      analysis service (module [Analysis]) and the prediction utilities
      (module [Prediction]),
    - the metadata route handler, [generateOption] (module [Metadata]),
    - the rest of the analysis service: warnings, recommendations and
      growth projections (module [Recommendations]); the recommendation
      and ranking-growth utilities (modules [Ranking] and [Growth]); the
      metadata route with its handler [POST] (module [MetadataRoute]),

    together with the properties stated for them.

    Conventions of the embedding.

    - A JavaScript [number] is a real number ([R]); IEEE rounding and the
      non-finite values are outside the model.  [NaN] occurs only as the
      failure result of [parseFloat] and [parseInt], where it is [None].
      A statement that rounding could change is made for numbers that
      the code holds and orders without error.
    - [undefined] for an optional property is [None].
    - A string is a [string] of 8-bit characters; case conversion and
      white space are the ASCII ones, and the length is the number of
      characters: the model agrees with the code on text in ASCII.
    - An object used as a record with a known key order (a CSV row) is an
      association list in [Object.keys] order; an object used as a
      dictionary is a [gmap].  Where a name that is looked up in an
      object literal can be [constructor] or [__proto__], the member
      inherited from [Object.prototype] is part of the model.
    - [Math.random] reads an explicit random source, threaded through the
      code that draws from it. *)

From Stdlib Require Import Reals Lra Lia ZArith.
From Stdlib Require Import String Ascii List.
From Stdlib Require Import DecimalString DecimalNat.
From stdpp Require Import gmap strings list.

(** ** JavaScript strings *)

Module Js.

Definition chars (s : string) : list ascii := list_ascii_of_string s.
Definition str (l : list ascii) : string := string_of_list_ascii l.

(** The truth value of a string: only the empty string is falsy. *)
Definition truthy (s : string) : bool :=
  match s with EmptyString => false | String _ _ => true end.

Definition is_upper (c : ascii) : bool :=
  (65 <=? nat_of_ascii c) && (nat_of_ascii c <=? 90).
Definition is_digit (c : ascii) : bool :=
  (48 <=? nat_of_ascii c) && (nat_of_ascii c <=? 57).

(** [s.toLowerCase()] *)
Definition lower_char (c : ascii) : ascii :=
  if is_upper c then ascii_of_nat (nat_of_ascii c + 32) else c.
Definition toLowerCase (s : string) : string := str (lower_char <$> chars s).

(** [s.trim()]: white space is removed at both ends. *)
Fixpoint trimStart_chars (l : list ascii) : list ascii :=
  match l with
  | c :: l' => if Ascii.is_space c then trimStart_chars l' else l
  | [] => []
  end.
Definition trim (s : string) : string :=
  str (rev (trimStart_chars (rev (trimStart_chars (chars s))))).

(** [s.includes(t)] *)
Fixpoint is_prefix_of (t s : list ascii) : bool :=
  match t, s with
  | [], _ => true
  | _ :: _, [] => false
  | a :: t', b :: s' => bool_decide (a = b) && is_prefix_of t' s'
  end.
Fixpoint includes_chars (s t : list ascii) : bool :=
  is_prefix_of t s
  || match s with [] => false | _ :: s' => includes_chars s' t end.
Definition includes (s t : string) : bool := includes_chars (chars s) (chars t).

(** [s.split(/\s+/)]: the pieces between maximal runs of white space;
    a string that starts or ends with white space has an empty first
    or last piece, as in JavaScript. *)
Fixpoint split_ws_go (cur : list ascii) (in_ws : bool) (l : list ascii)
  : list string :=
  match l with
  | [] => [str (rev cur)]
  | c :: l' =>
      if Ascii.is_space c
      then (if in_ws then split_ws_go cur true l'
            else str (rev cur) :: split_ws_go [] true l')
      else split_ws_go (c :: cur) false l'
  end.
Definition split_ws (s : string) : list string :=
  split_ws_go [] false (chars s).

(** [s.split(sep)] for a one-character separator. *)
Fixpoint split_char_go (sep : ascii) (cur : list ascii) (l : list ascii)
  : list string :=
  match l with
  | [] => [str (rev cur)]
  | c :: l' =>
      if bool_decide (c = sep)
      then str (rev cur) :: split_char_go sep [] l'
      else split_char_go sep (c :: cur) l'
  end.
Definition split_char (sep : ascii) (s : string) : list string :=
  split_char_go sep [] (chars s).

(** [arr.join(sep)] *)
Fixpoint join (sep : string) (l : list string) : string :=
  match l with
  | [] => ""
  | [x] => x
  | x :: l' => x +:+ sep +:+ join sep l'
  end.

(** [`${n}`] for a natural number (a length, a row number). *)
Definition nat_to_string (n : nat) : string :=
  NilZero.string_of_uint (Nat.to_uint n).

(** [s.endsWith(t)] *)
Definition endsWith (s t : string) : bool :=
  is_prefix_of (rev (chars t)) (rev (chars s)).

(** [(s.match(/c/g) || []).length] for a character [c]. *)
Definition count_char (c : ascii) (s : string) : nat :=
  length (List.filter (fun x => bool_decide (x = c)) (chars s)).

(** [s.replace(/^["']|["']$/g, '')]: a quote at the start and a quote at
    the end are removed. *)
Definition is_quote (c : ascii) : bool :=
  bool_decide (c = "034"%char) || bool_decide (c = "'"%char).

Definition stripQuotes (s : string) : string :=
  let l :=
    match chars s with
    | c :: l' => if is_quote c then l' else c :: l'
    | [] => []
    end in
  match rev l with
  | c :: l' => if is_quote c then str (rev l') else str l
  | [] => ""
  end.

(** A function that may throw: [Throw] carries the message of the
    [Error]. *)
Inductive result (A : Type) : Type :=
| Ok (a : A)
| Throw (message : string).
Arguments Ok {A} a.
Arguments Throw {A} message.

(** *** Numbers *)

Local Open Scope R_scope.

(** [a || d] for a number that may be absent: [undefined] and [0] are
    falsy. *)
Definition or_default (a : option R) (d : R) : R :=
  match a with
  | Some x => if Req_dec_T x 0 then d else x
  | None => d
  end.

(** [a ?? d]: only [undefined] is replaced. *)
Definition nullish (a : option R) (d : R) : R :=
  match a with Some x => x | None => d end.

Definition Math_min (a b : R) : R := Rmin a b.
Definition Math_max (a b : R) : R := Rmax a b.
Definition Math_sqrt (x : R) : R := sqrt x.
(** [Math.log10], for a positive argument. *)
Definition Math_log10 (x : R) : R := ln x / ln 10.
(** [Math.pow], for a positive base. *)
Definition Math_pow (b e : R) : R := Rpower b e.
Definition Math_floor (x : R) : R := IZR (Zfloor x).
(** [Math.round] rounds half-way cases up. *)
Definition Math_round (x : R) : R := IZR (Zfloor (x + / 2)).

(** *** [parseFloat] and [parseInt]

    [parseFloat] skips leading white space and reads the longest
    prefix that is a decimal literal: an optional sign, digits with an
    optional fraction (or a fraction alone), and an exponent part when
    it is complete.  [None] is [NaN]: no such prefix.  The literal
    [Infinity], which has no real value, is not part of the model. *)

Fixpoint span_digits (l : list ascii) : list ascii * list ascii :=
  match l with
  | c :: l' =>
      if is_digit c
      then let '(ds, rest) := span_digits l' in (c :: ds, rest)
      else ([], l)
  | [] => ([], [])
  end.

Definition read_sign (l : list ascii) : bool * list ascii :=
  match l with
  | "-"%char :: l' => (true, l')
  | "+"%char :: l' => (false, l')
  | _ => (false, l)
  end.

Definition digit_value (c : ascii) : Z := Z.of_nat (nat_of_ascii c) - 48.
Definition digits_value (ds : list ascii) : Z :=
  fold_left (fun acc c => 10 * acc + digit_value c)%Z ds 0%Z.

Definition signed (negative : bool) (z : Z) : Z :=
  if negative then (- z)%Z else z.

(** The exponent announced by an exponent part at the head of [l];
    [0] when there is none or when it has no digit. *)
Definition read_exponent (l : list ascii) : Z :=
  match l with
  | c :: l' =>
      if bool_decide (c = "e"%char) || bool_decide (c = "E"%char)
      then let '(negative, l'') := read_sign l' in
           let '(ds, _) := span_digits l'' in
           match ds with
           | [] => 0%Z
           | _ => signed negative (digits_value ds)
           end
      else 0%Z
  | [] => 0%Z
  end.

(** The literal as a pair (mantissa, power of ten). *)
Definition parseDecimal (s : string) : option (Z * Z) :=
  let '(negative, l) := read_sign (trimStart_chars (chars s)) in
  let '(int_part, l1) := span_digits l in
  let '(frac_part, l2) :=
    match l1 with
    | "."%char :: l' => span_digits l'
    | _ => ([], l1)
    end in
  match int_part ++ frac_part with
  | [] => None
  | ds => Some (signed negative (digits_value ds),
                (read_exponent l2 - Z.of_nat (length frac_part))%Z)
  end.

Definition decimal_value (d : Z * Z) : R :=
  let '(m, e) := d in
  if (0 <=? e)%Z then IZR (m * 10 ^ e) else IZR m / IZR (10 ^ (- e)).

Definition parseFloat (s : string) : option R :=
  decimal_value <$> parseDecimal s.

(** [parseInt(s)] without a radix: white space, a sign, then digits in
    base 16 after [0x] or [0X] and in base 10 otherwise. *)
Definition hex_digit (c : ascii) : option Z :=
  let n := nat_of_ascii c in
  if is_digit c then Some (Z.of_nat n - 48)%Z
  else if (97 <=? n) && (n <=? 102) then Some (Z.of_nat n - 87)%Z
  else if (65 <=? n) && (n <=? 70) then Some (Z.of_nat n - 55)%Z
  else None.

Fixpoint read_hex (acc : option Z) (l : list ascii) : option Z :=
  match l with
  | c :: l' =>
      match hex_digit c with
      | Some d => read_hex (Some (16 * default 0 acc + d)%Z) l'
      | None => acc
      end
  | [] => acc
  end.

Definition parseInt_Z (s : string) : option Z :=
  let '(negative, l) := read_sign (trimStart_chars (chars s)) in
  match l with
  | "0"%char :: x :: l' =>
      if bool_decide (x = "x"%char) || bool_decide (x = "X"%char)
      then signed negative <$> read_hex None l'
      else match span_digits l with
           | ([], _) => None
           | (ds, _) => Some (signed negative (digits_value ds))
           end
  | _ =>
      match span_digits l with
      | ([], _) => None
      | (ds, _) => Some (signed negative (digits_value ds))
      end
  end.

Definition parseInt (s : string) : option R := IZR <$> parseInt_Z s.

End Js.

(** ** The data model ([KeywordData] of the flexible parser and of
    [types.ts]) *)

Module Types.

(** The keyword, the numeric properties that the code reads or writes
    by name, and a dictionary for any other property found in the CSV
    ([[key: string]: any]). *)
Record KeywordData : Type := mkKeywordData {
  keyword : string;
  volume : option R;
  difficulty : option R;
  currentRank : option R;
  relevancy : option R;
  traffic : option R;
  cpc : option R;
  maximumReach : option R;
  other : gmap string string
}.

(** [{ keyword }]: a record with the keyword alone. *)
Definition newKeywordData (kw : string) : KeywordData :=
  mkKeywordData kw None None None None None None None ∅.

End Types.

(** ** Effects: the random source and the arrays that are shared or
    updated in place

    The world holds the stream that [Math.random] reads and a heap of
    arrays of keyword records; an array reference is an index in the
    heap.  [filter] and [slice] allocate a new array, [sort] rearranges
    the array it is called on. *)

Module Runtime.
Import Js Types.
Local Open Scope R_scope.

Record World : Type := mkWorld {
  randomSource : nat -> R;
  arrays : list (list KeywordData)
}.

Definition Eff (A : Type) : Type := World -> A * World.

Definition ret {A : Type} (a : A) : Eff A := fun w => (a, w).

Definition bind {A B : Type} (c : Eff A) (k : A -> Eff B) : Eff B :=
  fun w => let '(a, w') := c w in k a w'.

Notation "'do' x <- c ; k" := (bind c (fun x => k))
  (at level 10, x name, c at level 100, k at level 200).

Fixpoint mapM {A B : Type} (f : A -> Eff B) (l : list A) : Eff (list B) :=
  match l with
  | [] => ret []
  | a :: l' => do b <- f a; do bs <- mapM f l'; ret (b :: bs)
  end.

(** [Math.random()]: the next number of the source. *)
Definition Math_random : Eff R :=
  fun w => (randomSource w 0%nat,
            mkWorld (fun n => randomSource w (S n)) (arrays w)).

Definition Array : Type := nat.

Definition array_new (l : list KeywordData) : Eff Array :=
  fun w => (length (arrays w), mkWorld (randomSource w) (arrays w ++ [l])).

Definition array_read (a : Array) : Eff (list KeywordData) :=
  fun w => (default [] (arrays w !! a), w).

Definition array_write (a : Array) (l : list KeywordData) : Eff unit :=
  fun w => (tt, mkWorld (randomSource w) (<[a := l]> (arrays w))).

(** [a.filter(p)] *)
Definition array_filter (p : KeywordData -> bool) (a : Array) : Eff Array :=
  do l <- array_read a; array_new (List.filter p l).

(** [a.sort(compare)]: a stable sort, in place; the result is [a]
    itself.  An element goes before the first element that it does not
    have to follow. *)
Fixpoint insert_sorted (compare : KeywordData -> KeywordData -> R)
    (x : KeywordData) (l : list KeywordData) : list KeywordData :=
  match l with
  | [] => [x]
  | y :: l' =>
      if Rle_dec (compare x y) 0 then x :: l
      else y :: insert_sorted compare x l'
  end.

Definition sorted (compare : KeywordData -> KeywordData -> R)
    (l : list KeywordData) : list KeywordData :=
  foldr (insert_sorted compare) [] l.

Definition array_sort (compare : KeywordData -> KeywordData -> R) (a : Array)
  : Eff Array :=
  do l <- array_read a; do _ <- array_write a (sorted compare l); ret a.

(** [a.slice(0, n)] *)
Definition array_slice (n : nat) (a : Array) : Eff Array :=
  do l <- array_read a; array_new (take n l).

End Runtime.

(** ** The flexible parser ([flexible-csv-parser.ts]) *)

Module Flexible.
Import Js Types.
Local Open Scope R_scope.

(** A row as Papa Parse delivers it with [header: true]: the cells as
    strings under the header names, in [Object.keys] order.  A key
    occurs once; [cell] reads [row[key]].  The rows of the model have
    no surplus cells: Papa Parse puts the cells of a row beyond its
    header in an array under the key [__parsed_extra], and a row with
    that array is not a [row]. *)
Definition row : Type := list (string * string).

Definition keys (r : row) : list string := fst <$> r.

Fixpoint assoc (l : list (string * string)) (key : string) : option string :=
  match l with
  | (k, v) :: l' => if bool_decide (k = key) then Some v else assoc l' key
  | [] => None
  end.

Definition cell (r : row) (key : string) : option string := assoc r key.

Record AppDetails : Type := mkAppDetails {
  appName : option string;
  appId : option string;
  store : option string;
  category : option string;
  currentInstalls : option R
}.

(** [ParsedAppData], without its [id] (two draws of [Math.random]
    rendered in base 36), which no property here reads. *)
Record ParsedAppData : Type := mkParsedAppData {
  appDetails : AppDetails;
  keywords : list KeywordData;
  missingFields : list string;
  availableFields : list string
}.

(** Map common field names to standardized format. *)
Definition fieldMap : list (string * string) :=
  [ ("app name", "appName"); ("app_name", "appName");
    ("application name", "appName");
    ("app id", "appId"); ("app_id", "appId"); ("bundle id", "appId");
    ("package name", "appId");
    ("store", "store"); ("platform", "store");
    ("category", "category");
    ("installs", "currentInstalls"); ("downloads", "currentInstalls");
    ("current installs", "currentInstalls");
    ("keyword", "keyword"); ("term", "keyword"); ("search term", "keyword");
    ("query", "keyword");
    ("volume", "volume"); ("search volume", "volume");
    ("monthly searches", "volume"); ("traffic", "volume");
    ("difficulty", "difficulty"); ("keyword difficulty", "difficulty");
    ("competition", "difficulty");
    ("rank", "currentRank"); ("current rank", "currentRank");
    ("position", "currentRank"); ("rankings", "currentRank");
    ("relevancy", "relevancy"); ("relevance", "relevancy");
    ("relevance score", "relevancy");
    ("reach", "maximumReach"); ("maximum reach", "maximumReach");
    ("potential reach", "maximumReach");
    ("cpc", "cpc"); ("cost per click", "cpc") ].

(** [fieldMap] is an object literal: besides its own entries,
    [fieldMap[name]] finds the members inherited from
    [Object.prototype].  The name looked up is in lower case, and two
    inherited names are: [constructor], the function [Object], and
    [__proto__], the object [Object.prototype].  Both are truthy and
    equal to no string; used as a property name they are converted to
    the texts given here (that of a function as V8 prints it). *)
Definition inheritedMembers : list (string * string) :=
  [ ("constructor", "function Object() { [native code] }");
    ("__proto__", "[object Object]") ].

(** [fieldMap[field.toLowerCase()] || field.toLowerCase()]; an
    inherited member is given by its text. *)
Definition standardFieldOf (field : string) : string :=
  let lowerField := toLowerCase field in
  match assoc fieldMap lowerField with
  | Some standardField => standardField
  | None => default lowerField (assoc inheritedMembers lowerField)
  end.

Definition requiredFields : list string := ["keyword"].
Definition appFields : list string :=
  ["appName"; "appId"; "store"; "category"; "currentInstalls"].
Definition numericFields : list string :=
  ["volume"; "difficulty"; "currentRank"; "relevancy"; "traffic"; "cpc";
   "maximumReach"].

(** [arr.includes(x)] for strings. *)
Definition includes_string (l : list string) (x : string) : bool :=
  bool_decide (x ∈ l).

(** [value.toString().replace(/[,%$]/g, '')] *)
Definition stripSymbols (value : string) : string :=
  str (filter (fun c => c ∉ [","; "%"; "$"]%char) (chars value)).

Definition parseNumericValue (value : string + R) : R :=
  match value with
  | inr n => n
  | inl text =>
      let cleanValue := stripSymbols text in
      let parsedValue := parseFloat cleanValue in
      match parsedValue with
      | None => 0
      | Some n => n
      end
  end.

Definition findMatchingField (r : row) (targetField : string)
  : option string :=
  (* Direct match *)
  if bool_decide (is_Some (cell r targetField)) then Some targetField
  else
    (* Match using field map *)
    match find (fun '(csvField, standardField) =>
                  bool_decide (standardField = targetField)
                  && bool_decide (is_Some (cell r csvField)))
               fieldMap with
    | Some (csvField, _) => Some csvField
    | None =>
        (* Case-insensitive match *)
        find (fun field =>
                bool_decide (toLowerCase field = toLowerCase targetField))
             (keys r)
    end.

Definition findKeywordField (r : row) : option string :=
  find (fun field =>
          let lowercaseField := toLowerCase field in
          bool_decide (lowercaseField = "keyword")
          || bool_decide (lowercaseField = "term")
          || bool_decide (lowercaseField = "search term")
          || bool_decide (lowercaseField = "query")
          || bool_decide (assoc fieldMap lowercaseField = Some "keyword"))
       (keys r).

(** The value of an app field in the first row, when the field is
    found and the value is not empty. *)
Definition appValue (firstRow : row) (field : string) : option string :=
  match findMatchingField firstRow field with
  | Some matchingField =>
      if truthy matchingField
      then match cell firstRow matchingField with
           | Some value => if truthy value then Some value else None
           | None => None
           end
      else None
  | None => None
  end.

Definition extractAppDetails (firstRow : row) : AppDetails :=
  {| appName := appValue firstRow "appName";
     appId := appValue firstRow "appId";
     store := appValue firstRow "store";
     category := appValue firstRow "category";
     currentInstalls :=
       (fun value => parseNumericValue (inl value))
         <$> appValue firstRow "currentInstalls" |}.

(** [keywordData[standardField] = n] for a numeric field. *)
Definition setNumeric (kd : KeywordData) (standardField : string) (n : R)
  : KeywordData :=
  let 'mkKeywordData kw vol dif rnk rel tra cp mre oth := kd in
  if bool_decide (standardField = "volume")
  then mkKeywordData kw (Some n) dif rnk rel tra cp mre oth
  else if bool_decide (standardField = "difficulty")
  then mkKeywordData kw vol (Some n) rnk rel tra cp mre oth
  else if bool_decide (standardField = "currentRank")
  then mkKeywordData kw vol dif (Some n) rel tra cp mre oth
  else if bool_decide (standardField = "relevancy")
  then mkKeywordData kw vol dif rnk (Some n) tra cp mre oth
  else if bool_decide (standardField = "traffic")
  then mkKeywordData kw vol dif rnk rel (Some n) cp mre oth
  else if bool_decide (standardField = "cpc")
  then mkKeywordData kw vol dif rnk rel tra (Some n) mre oth
  else if bool_decide (standardField = "maximumReach")
  then mkKeywordData kw vol dif rnk rel tra cp (Some n) oth
  else kd.

(** [keywordData[standardField] = value] for any other field. *)
Definition setOther (kd : KeywordData) (standardField value : string)
  : KeywordData :=
  let 'mkKeywordData kw vol dif rnk rel tra cp mre oth := kd in
  mkKeywordData kw vol dif rnk rel tra cp mre (<[standardField := value]> oth).

(** [keywordData[name]] for a numeric property. *)
Definition numericField (kd : KeywordData) (name : string) : option R :=
  if bool_decide (name = "volume") then volume kd
  else if bool_decide (name = "difficulty") then difficulty kd
  else if bool_decide (name = "currentRank") then currentRank kd
  else if bool_decide (name = "relevancy") then relevancy kd
  else if bool_decide (name = "traffic") then traffic kd
  else if bool_decide (name = "cpc") then cpc kd
  else if bool_decide (name = "maximumReach") then maximumReach kd
  else None.

(** The body of [Object.keys(row).forEach(field => ...)]. *)
Definition processField (kd : KeywordData) (column : string * string)
  : KeywordData :=
  let '(field, value) := column in
  let standardField := standardFieldOf field in
  (* Skip fields that are used for app details *)
  if includes_string appFields standardField
     || bool_decide (standardField = "keyword")
  then kd
  else if bool_decide (value = "") then kd
  else if includes_string numericFields standardField
  then setNumeric kd standardField (parseNumericValue (inl value))
  else setOther kd standardField value.

Definition buildKeywordData (keyword : string) (r : row) : KeywordData :=
  fold_left processField r (newKeywordData keyword).

(** The body of [data.forEach(row => ...)]; the state is the set of
    seen keywords and the array of records. *)
Definition processRow (keywordField : string)
    (state : gset string * list KeywordData) (r : row)
  : gset string * list KeywordData :=
  let '(seenKeywords, keywords) := state in
  match cell r keywordField with
  | None => state
  | Some keyword =>
      if negb (truthy keyword) || bool_decide (keyword ∈ seenKeywords)
      then state
      else ({[keyword]} ∪ seenKeywords,
            keywords ++ [buildKeywordData keyword r])
  end.

Definition processCSVResults (data : list row) : result ParsedAppData :=
  match data with
  | [] => Throw "CSV file is empty"
  | firstRow :: _ =>
      let availableFields :=
        filter (fun key => trim key ≠ "") (keys firstRow) in
      let standardizedAvailableFields := standardFieldOf <$> availableFields in
      let missingFields :=
        filter (fun field =>
                  ¬ (field ∈ standardizedAvailableFields)
                  ∧ ¬ Exists (fun f => assoc fieldMap (toLowerCase f)
                                       = Some field) availableFields)
               requiredFields in
      if includes_string missingFields "keyword"
      then Throw "CSV file must contain a keyword column"
      else
        let appDetails := extractAppDetails firstRow in
        match findKeywordField firstRow with
        | None => Throw "Could not find a keyword column in the CSV"
        | Some keywordField =>
            if negb (truthy keywordField)
            then Throw "Could not find a keyword column in the CSV"
            else
              let '(_, keywords) :=
                fold_left (processRow keywordField) data (∅, []) in
              Ok {| appDetails := appDetails;
                    keywords := keywords;
                    missingFields := missingFields;
                    availableFields := standardizedAvailableFields |}
        end
  end.

End Flexible.

(** ** The strict parser ([parseCSV] of [csv-parser.ts]) *)

Module Strict.
Import Js.
Local Open Scope R_scope.

Definition EXPECTED_HEADERS : list string :=
  [ "App Name"; "App ID"; "Store"; "Device"; "Country Code"; "Language Code";
    "Main App ID"; "Main App Name"; "Keyword"; "Keyword List"; "Starred";
    "Volume"; "Difficulty"; "Maximum Reach"; "Branded"; "Branded App ID";
    "Branded App Name"; "KEI"; "Chance"; "Relevancy Score" ].

(** The part of a [File] that the parser reads. *)
Record File : Type := mkFile {
  name : string;
  text : string
}.

(** The record built for a data row. *)
Record KeywordData : Type := mkKeywordData {
  appName : string;
  appId : string;
  keyword : string;
  store : string;
  device : string;
  countryCode : string;
  languageCode : string;
  mainAppId : string;
  mainAppName : string;
  keywordList : string;
  starred : bool;
  volume : option R;
  difficulty : R;
  maximumReach : R;
  branded : bool;
  brandedAppId : option string;
  brandedAppName : option string;
  kei : R;
  chance : R;
  relevancyScore : R
}.

Definition tab : ascii := "009"%char.
Definition comma : ascii := ","%char.
Definition lineFeed : string := String "010"%char "".

(** Remove quotes and trim whitespace ([cleanHeader], [cleanValue]). *)
Definition cleanHeader (header : string) : string := trim (stripQuotes header).
Definition cleanValue (value : string) : string := trim (stripQuotes value).

(** [a || b] for strings. *)
Definition or_string (a b : string) : string := if truthy a then a else b.

(** [a || undefined] *)
Definition or_undefined (a : string) : option string :=
  if truthy a then Some a else None.

(** Parse boolean values. *)
Definition parseBoolean (value : string) : bool :=
  bool_decide (toLowerCase value = "true")
  || bool_decide (toLowerCase value = "yes")
  || bool_decide (value = "1").

(** Parse numeric values with validation. *)
Definition parseNumber (value : string) (min max : option R) : R :=
  match parseInt value with
  | None => 0
  | Some num =>
      match min with
      | Some lo =>
          if Rlt_dec num lo then lo
          else match max with
               | Some hi => if Rlt_dec hi num then hi else num
               | None => num
               end
      | None =>
          match max with
          | Some hi => if Rlt_dec hi num then hi else num
          | None => num
          end
      end
  end.

(** [new Map(headers.map((header, index) => [header.toLowerCase(), index]))]:
    for a repeated header the last index stays. *)
Definition headerMapOf (headers : list string) : gmap string nat :=
  fold_left (fun m entry => <[entry.1 := entry.2]> m)
            (imap (fun index header => (toLowerCase header, index)) headers)
            ∅.

Definition getValue (headerMap : gmap string nat) (values : list string)
    (columnName : string) : string :=
  match headerMap !! toLowerCase columnName with
  | Some index => default "" (values !! index)
  | None => ""
  end.

(** The data phase for the line at index [i] of [nonEmptyLines]: a
    record, or the error pushed for the row. *)
Definition parseRow (separator : ascii) (headers : list string) (i : nat)
    (line : string) : KeywordData + string :=
  let headerMap := headerMapOf headers in
  let values := cleanValue <$> split_char separator line in
  (* Skip rows that don't have enough columns *)
  if negb (length values =? length headers)%nat
  then inr ("Row " +:+ nat_to_string (i + 1) +:+ ": Expected "
            +:+ nat_to_string (length headers) +:+ " columns but found "
            +:+ nat_to_string (length values))
  else
    let getValue := getValue headerMap values in
    let keywordData :=
      {| appName := getValue "App Name";
         appId := getValue "App ID";
         keyword := getValue "Keyword";
         store := if bool_decide (toLowerCase (getValue "Store") = "ios")
                  then "iOS" else "Android";
         device := or_string (getValue "Device") "all";
         countryCode := or_string (getValue "Country Code") "US";
         languageCode := or_string (getValue "Language Code") "en";
         mainAppId := or_string (getValue "Main App ID") (getValue "App ID");
         mainAppName :=
           or_string (getValue "Main App Name") (getValue "App Name");
         keywordList :=
           or_string (getValue "Keyword List") (getValue "Keyword");
         starred := parseBoolean (getValue "Starred");
         volume := if truthy (getValue "Volume")
                   then Some (parseNumber (getValue "Volume") (Some 0) None)
                   else None;
         difficulty :=
           if truthy (getValue "Difficulty")
           then parseNumber (getValue "Difficulty") (Some 0) (Some 100)
           else 0;
         maximumReach := parseNumber (getValue "Maximum Reach") (Some 0) None;
         branded := parseBoolean (getValue "Branded");
         brandedAppId := or_undefined (getValue "Branded App ID");
         brandedAppName := or_undefined (getValue "Branded App Name");
         kei := parseNumber (getValue "KEI") (Some 0) (Some 100);
         chance := parseNumber (getValue "Chance") (Some 0) (Some 100);
         relevancyScore :=
           parseNumber (getValue "Relevancy Score") (Some 0) (Some 100) |} in
    (* Validate required fields have values *)
    let missingRequiredFields :=
      (if truthy (appName keywordData) then [] else ["App Name"])
      ++ (if truthy (appId keywordData) then [] else ["App ID"])
      ++ (if truthy (keyword keywordData) then [] else ["Keyword"]) in
    if (0 <? length missingRequiredFields)%nat
    then inr ("Row " +:+ nat_to_string (i + 1) +:+ ": Missing values for: "
              +:+ join ", " missingRequiredFields)
    else inl keywordData.

(** One turn of the loop over the data rows; the state is [data] and
    [errors]. *)
Definition rowStep (separator : ascii) (headers : list string)
    (state : list KeywordData * list string) (row : nat * string)
  : list KeywordData * list string :=
  let '(data, errors) := state in
  match parseRow separator headers row.1 row.2 with
  | inl keywordData => (data ++ [keywordData], errors)
  | inr error => (data, errors ++ [error])
  end.

(** [for (let i = 1; i < nonEmptyLines.length; i++)] over the lines
    after the header. *)
Definition parseRows (separator : ascii) (headers : list string)
    (dataLines : list string) : list KeywordData * list string :=
  fold_left (rowStep separator headers)
            (imap (fun index line => (index + 1, line)%nat) dataLines)
            ([], []).

Definition same_header (a b : string) : bool :=
  bool_decide (toLowerCase a = toLowerCase b).

Definition headerErrorMessage (separator : ascii)
    (headers missingColumns extraColumns : list string) : string :=
  "There are issues with the column headers:" +:+ lineFeed +:+ lineFeed
  +:+ (if (0 <? length missingColumns)%nat
       then "Missing columns:" +:+ lineFeed
            +:+ join lineFeed ((fun col => "- " +:+ col) <$> missingColumns)
            +:+ lineFeed +:+ lineFeed
       else "")
  +:+ (if (0 <? length extraColumns)%nat
       then "Unexpected columns:" +:+ lineFeed
            +:+ join lineFeed ((fun col => "- " +:+ col) <$> extraColumns)
            +:+ lineFeed +:+ lineFeed
       else "")
  +:+ "File appears to be using "
  +:+ (if bool_decide (separator = tab) then "tabs" else "commas")
  +:+ " as separators." +:+ lineFeed
  +:+ "Found " +:+ nat_to_string (length headers) +:+ " columns: "
  +:+ join ", " headers +:+ lineFeed +:+ lineFeed
  +:+ "Please ensure:" +:+ lineFeed
  +:+ "1. The file is tab-separated" +:+ lineFeed
  +:+ "2. Column names match exactly (including capitalization)" +:+ lineFeed
  +:+ "3. There are no extra spaces or quotes in column names" +:+ lineFeed
  +:+ "4. Download and use the sample file as a template".

(** The first phase of [parseCSV], up to the validation of the headers:
    the separator, the headers and the data lines, or the error
    thrown. *)
Definition readHeader (file : File)
  : result (ascii * list string * list string) :=
  (* Validate file type *)
  if negb (endsWith (toLowerCase (name file)) ".csv")
  then Throw "Please upload a CSV file"
  else
    let lines := split_char "010"%char (text file) in
    (* Remove empty lines and trim whitespace *)
    let nonEmptyLines :=
      List.filter (fun line => (0 <? String.length (trim line))%nat) lines in
    match nonEmptyLines with
    | [] => Throw "The file is empty. Please provide a file with data."
    | [_] =>
        Throw "The file must contain a header row and at least one data row."
    | firstLine :: dataLines =>
        (* If we find more commas than tabs, use comma as separator *)
        let commaCount := count_char comma firstLine in
        let tabCount := count_char tab firstLine in
        let separator := if (tabCount <? commaCount)%nat then comma else tab in
        (* Parse and validate headers *)
        let headers := cleanHeader <$> split_char separator firstLine in
        (* Check for missing or extra columns *)
        let missingColumns :=
          List.filter (fun expected =>
                         negb (existsb (fun header => same_header header expected)
                                       headers))
                      EXPECTED_HEADERS in
        let extraColumns :=
          List.filter (fun header =>
                         negb (existsb (fun expected =>
                                          same_header expected header)
                                       EXPECTED_HEADERS))
                      headers in
        if (0 <? length missingColumns)%nat || (0 <? length extraColumns)%nat
        then Throw (headerErrorMessage separator headers missingColumns
                                       extraColumns)
        else Ok (separator, headers, dataLines)
    end.

Definition issuesMessage (errors : list string) : string :=
  "Found the following issues in your file:" +:+ lineFeed +:+ lineFeed
  +:+ join lineFeed errors
  +:+ lineFeed +:+ lineFeed
  +:+ "Please fix these issues and try uploading again.".

Definition parseCSV (file : File) : result (list KeywordData) :=
  match readHeader file with
  | Throw message => Throw message
  | Ok (separator, headers, dataLines) =>
      (* Parse data rows *)
      let '(data, errors) := parseRows separator headers dataLines in
      if (0 <? length errors)%nat then Throw (issuesMessage errors)
      else if (length data =? 0)%nat
      then Throw "No valid data rows were found in the file."
      else Ok data
  end.

End Strict.

(** ** The analysis service: growth projections *)

Module Analysis.
Import Js Types Runtime.
Local Open Scope R_scope.

Definition timeframes : list R := [1; 3; 6; 12].

(** Estimate conversion rates based on rank position. *)
Definition estimateConversionRate (rank : R) : R :=
  if Rle_dec rank 1 then 0.12
  else if Rle_dec rank 3 then 0.08
  else if Rle_dec rank 5 then 0.05
  else if Rle_dec rank 10 then 0.03
  else if Rle_dec rank 20 then 0.01
  else if Rle_dec rank 50 then 0.005
  else 0.001.

(** Estimate rank improvements over time
    ([generateGrowthProjections]). *)
Definition estimateRankImprovement (currentRank difficulty months : R) : R :=
  let difficultyFactor := 1 - difficulty / 200 in
  let rankFactor := Math_min (Math_log10 (currentRank + 10) / 2) 1 in
  let improvement := rankFactor * difficultyFactor * Math_sqrt months * 20 in
  Math_min (currentRank - 1) improvement.

(** The variant of the dashboard's projection recalculation: enhanced
    rank improvement calculation with metadata boost. *)
Definition metadataBoostFactor : R := 1.2.

Definition estimateRankImprovementBoosted
    (currentRank difficulty months : R) : R :=
  let difficultyFactor := 1 - difficulty / 200 in
  let rankFactor := Math_min (Math_log10 (currentRank + 10) / 2) 1 in
  let improvement :=
    rankFactor * difficultyFactor * Math_sqrt months * 20
    * metadataBoostFactor in
  Math_min (currentRank - 1) improvement.

(** The body of the loop over the keywords to project, for one keyword
    and one time frame; [estimate] is the rank-improvement function in
    scope at that place. *)
Section PerKeyword.
Variable estimate : R -> R -> R -> R.

Definition projectedRankBy (currentRank difficulty months : R) : R :=
  let rankImprovement := estimate currentRank difficulty months in
  Math_max 1 (currentRank - rankImprovement).

Definition projectedRankOf (k : KeywordData) (months : R) : R :=
  let difficulty := or_default (difficulty k) 50 in
  let currentRank := or_default (currentRank k) 100 in
  projectedRankBy currentRank difficulty months.

Definition monthlyDownloadsBy (k : KeywordData) (months : R) : R :=
  let volume := or_default (volume k) 100 in
  let conversionRate := estimateConversionRate (projectedRankOf k months) in
  volume * conversionRate * 30.

(** [projectedDownloads]: per time frame, the rounded total over the
    keywords to project. *)
Definition projectedDownloadsBy (keywordsToProject : list KeywordData)
  : list R :=
  map (fun months =>
         Math_round
           (fold_left (fun totalDownloads k =>
                         totalDownloads + monthlyDownloadsBy k months)
                      keywordsToProject 0))
      timeframes.
End PerKeyword.

Definition projectedRank : R -> R -> R -> R :=
  projectedRankBy estimateRankImprovement.
Definition projectedRankBoosted : R -> R -> R -> R :=
  projectedRankBy estimateRankImprovementBoosted.
Definition monthlyDownloadsBoosted : KeywordData -> R -> R :=
  monthlyDownloadsBy estimateRankImprovementBoosted.

(** *** Thematic categories

    [wordFrequency] and [categories] are object literals used as
    dictionaries.  An object literal inherits [constructor] and
    [__proto__] from [Object.prototype]: for these two words
    [wordFrequency[word] || 0] is the inherited member, not a count, the
    sum is a string, and the entry never satisfies [count >= 2].  The
    model leaves these two words uncounted, so that, as in the source,
    they are never themes. *)

Definition inheritedNames : list string := ["constructor"; "__proto__"].

(** [kw.keyword.toLowerCase().split(/\s+/)] *)
Definition keywordWords (kw : KeywordData) : list string :=
  split_ws (toLowerCase (keyword kw)).

(** [if (word.length > 3) wordFrequency[word] = (wordFrequency[word] || 0) + 1] *)
Definition countWord (wordFrequency : gmap string nat) (word : string)
  : gmap string nat :=
  if (3 <? String.length word)%nat && bool_decide (word ∉ inheritedNames)
  then <[word := (default 0 (wordFrequency !! word) + 1)%nat]> wordFrequency
  else wordFrequency.

(** Count word frequency across all keywords. *)
Definition countWords (keywords : list KeywordData) : gmap string nat :=
  fold_left (fun wordFrequency kw =>
               fold_left countWord (keywordWords kw) wordFrequency)
            keywords ∅.

(** [keywords.filter(kw => kw.keyword.toLowerCase().includes(theme.toLowerCase()))] *)
Definition themeKeywords (keywords : list KeywordData) (theme : string)
  : list KeywordData :=
  filter (fun kw => includes (toLowerCase (keyword kw)) (toLowerCase theme) = true)
         keywords.

(** The categories after [commonThemes.forEach]: one entry for every
    word with [count >= 2]. *)
Definition themeCategories (keywords : list KeywordData)
  : gmap string (list KeywordData) :=
  map_imap (fun theme count =>
              if decide (2 <= count)%nat
              then Some (themeKeywords keywords theme)
              else None)
           (countWords keywords).

(** The set [categorizedKeywords]: the keyword strings of all members of
    all categories. *)
Definition categorizedKeywords (categories : gmap string (list KeywordData))
  : gset string :=
  list_to_set (keyword <$> mjoin (snd <$> map_to_list categories)).

Definition categorizeKeywords (keywords : list KeywordData)
  : gmap string (list KeywordData) :=
  let categories := themeCategories keywords in
  let categorized := categorizedKeywords categories in
  (* Add "other" category for keywords that don't fit any theme *)
  let categories :=
    <["other" := filter (fun kw => keyword kw ∉ categorized) keywords]>
      categories in
  (* Remove categories with too few keywords *)
  filter (fun entry => ¬ (length entry.2 < 2)%nat) categories.

(** *** Keyword insights *)

Record KeywordInsights : Type := mkKeywordInsights {
  trendingKeywords : list KeywordData;
  lowCompetitionOpportunities : list KeywordData;
  highVolumeKeywords : list KeywordData;
  underperformingKeywords : list KeywordData;
  keywordCategories : gmap string (list KeywordData);
  summary : string
}.

(** The dataset as the aggregator receives it: the app details and a
    reference to the array of keyword records. *)
Record ParsedAppData : Type := mkParsedAppData {
  appDetails : Flexible.AppDetails;
  keywords : Array
}.

Definition gt (a b : R) : bool := if Rlt_dec b a then true else false.
Definition lt (a b : R) : bool := if Rlt_dec a b then true else false.

(** [`"${k.keyword}"`] *)
Definition quoted (s : string) : string :=
  String "034"%char (s +:+ String "034"%char "").

(** [`${Math.round(x)}`], in decimal digits (as JavaScript prints the
    integers below 10^21 in magnitude). *)
Definition rounded_to_string (x : R) : string :=
  NilZero.string_of_int (Z.to_int (Zfloor (x + / 2))).

(** [text.trim().replace(/\s+/g, ' ')] *)
Fixpoint collapse_ws (in_ws : bool) (l : list ascii) : list ascii :=
  match l with
  | [] => []
  | c :: l' =>
      if Ascii.is_space c
      then (if in_ws then collapse_ws true l'
            else " "%char :: collapse_ws true l')
      else c :: collapse_ws false l'
  end.

Definition normalize_ws (text : string) : string :=
  str (collapse_ws false (chars (trim text))).

Definition newline : string := String "010"%char "".

(** [(n || 1)] for a length. *)
Definition or_one (n : nat) : R := if (n =? 0)%nat then 1 else INR n.

Definition generateInsightsSummary
    (details : Flexible.AppDetails) (allKeywords : list KeywordData)
    (lowCompetitionOpportunities underperformingKeywords : list KeywordData)
  : string :=
  let appName :=
    match Flexible.appName details with
    | Some name => if truthy name then name else "Your app"
    | None => "Your app"
    end in
  let totalKeywords := length allKeywords in
  (* Calculate average metrics if available *)
  let avgVolume :=
    fold_left (fun sum k => sum + or_default (volume k) 0) allKeywords 0
    / or_one (length (List.filter (fun k => bool_decide (is_Some (volume k)))
                                  allKeywords)) in
  let avgDifficulty :=
    fold_left (fun sum k => sum + or_default (difficulty k) 0) allKeywords 0
    / or_one (length (List.filter
                        (fun k => bool_decide (is_Some (difficulty k)))
                        allKeywords)) in
  (* Generate top opportunities text *)
  let topOpportunities :=
    if (0 <? length lowCompetitionOpportunities)%nat
    then "Your top keyword opportunities are: "
         +:+ join ", " ((fun k => quoted (keyword k))
                          <$> take 3 lowCompetitionOpportunities)
         +:+ "."
    else "" in
  (* Generate underperforming keywords text *)
  let underperforming :=
    if (0 <? length underperformingKeywords)%nat
    then "You should focus on improving your ranking for: "
         +:+ join ", " ((fun k => quoted (keyword k))
                          <$> take 3 underperformingKeywords)
         +:+ "."
    else "" in
  normalize_ws
    (newline +:+ "    We analyzed " +:+ nat_to_string totalKeywords
     +:+ " keywords for " +:+ appName +:+ ". " +:+ newline
     +:+ "    The average search volume is " +:+ rounded_to_string avgVolume
     +:+ " with an average difficulty of " +:+ rounded_to_string avgDifficulty
     +:+ "/100." +:+ newline
     +:+ "    " +:+ topOpportunities +:+ newline
     +:+ "    " +:+ underperforming +:+ newline
     +:+ "    By optimizing your metadata with our recommendations, you can improve visibility and increase downloads."
     +:+ newline +:+ "  ").

(** [(a, b) => (b.volume || 0) - (a.volume || 0)] *)
Definition byVolumeDescending (a b : KeywordData) : R :=
  or_default (volume b) 0 - or_default (volume a) 0.

(** [keywords.filter(p).sort(byVolumeDescending).slice(0, 5)] *)
Definition topFive (p : KeywordData -> bool) (keywords : Array) : Eff Array :=
  do filtered <- array_filter p keywords;
  do ordered <- array_sort byVolumeDescending filtered;
  array_slice 5 ordered.

Definition isTrending (k : KeywordData) : bool :=
  match volume k with Some v => gt v 500 | None => false end.

Definition isLowCompetition (k : KeywordData) : bool :=
  match difficulty k, volume k with
  | Some d, Some v => lt d 40 && gt v 300
  | _, _ => false
  end.

Definition hasVolume (k : KeywordData) : bool :=
  bool_decide (is_Some (volume k)).

Definition isUnderperforming (k : KeywordData) : bool :=
  match volume k, currentRank k with
  | Some v, Some r => gt v 300 && gt r 50
  | _, _ => false
  end.

(** The record is returned with the contents that its arrays have on
    return. *)
Definition generateKeywordInsights (appData : ParsedAppData)
  : Eff KeywordInsights :=
  let keywords := keywords appData in
  (* Categorize keywords based on their text content *)
  do allKeywords <- array_read keywords;
  let keywordCategories := categorizeKeywords allKeywords in
  (* Find trending keywords (simplified approach without historical data) *)
  do trendingKeywords <- topFive isTrending keywords;
  (* Find low competition opportunities *)
  do lowCompetitionOpportunities <- topFive isLowCompetition keywords;
  (* Find high volume keywords *)
  do highVolumeKeywords <- topFive hasVolume keywords;
  (* Find underperforming keywords (high volume but poor ranking) *)
  do underperformingKeywords <- topFive isUnderperforming keywords;
  (* Generate a summary *)
  do allKeywords' <- array_read keywords;
  do trending <- array_read trendingKeywords;
  do low <- array_read lowCompetitionOpportunities;
  do high <- array_read highVolumeKeywords;
  do under <- array_read underperformingKeywords;
  let summary :=
    generateInsightsSummary (appDetails appData) allKeywords' low under in
  ret {| trendingKeywords := trending;
         lowCompetitionOpportunities := low;
         highVolumeKeywords := high;
         underperformingKeywords := under;
         keywordCategories := keywordCategories;
         summary := summary |}.

End Analysis.

(** ** The metadata route: [generateOption] *)

Module Metadata.

(** One iteration of the loop that fills [keywordsString]:
    [if ((keywordsString + keyword).length <= 97)
       keywordsString += (keywordsString ? ', ' : '') + keyword]. *)
Definition addKeyword (keywordsString keyword : string) : string :=
  if String.length (keywordsString +:+ keyword) <=? 97
  then keywordsString
         +:+ ((if Js.truthy keywordsString then ", " else "") +:+ keyword)
  else keywordsString.

(** [for (const keyword of shuffled) ...], from the empty string.  The
    array [shuffled] is [baseKeywords] in the order left by
    [sort(() => Math.random() - 0.5)]. *)
Definition keywordsString (shuffled : list string) : string :=
  fold_left addKeyword shuffled "".

(** [baseKeywords]: the keywords followed by one modified version of
    each, the modifier of the i-th keyword being the i-th draw. *)
Definition modifiers : list string :=
  ["pro"; "best"; "top"; "smart"; "easy"; "professional"].

Definition baseKeywords (keywords : list string) (draws : list nat)
  : list string :=
  keywords ++
  zip_with (fun keyword d => nth d modifiers "" +:+ " " +:+ keyword)
           keywords draws.

End Metadata.

(** ** The prediction utilities ([generatePredictions]) *)

Module Prediction.
Import Js Runtime.
Local Open Scope R_scope.

Module Metrics.
Record KeywordMetrics : Type := mkKeywordMetrics {
  currentRank : R;
  volume : R;
  difficulty : R
}.
End Metrics.
Import Metrics.

(** [TargetRanks]; the objects [predictedRanks] and [predictedInstalls]
    have the same four properties. *)
Record TargetRanks : Type := mkTargetRanks {
  threeMonths : R;
  sixMonths : R;
  nineMonths : R;
  twelveMonths : R
}.

Record PredictionResult : Type := mkPredictionResult {
  keyword : string;
  currentRank : R;
  predictedRanks : TargetRanks;
  predictedInstalls : TargetRanks
}.

Definition getKeywordMetrics (data : Types.KeywordData) : Eff KeywordMetrics :=
  do random1 <- Math_random;
  let defaultRank := Math_floor (random1 * 100) + 1 in
  do random2 <- Math_random;
  let defaultVolume := Math_floor (random2 * 1000) + 100 in
  do random3 <- Math_random;
  let defaultDifficulty := Math_floor (random3 * 100) in
  ret {| Metrics.currentRank := nullish (Types.currentRank data) defaultRank;
         Metrics.volume := nullish (Types.volume data) defaultVolume;
         Metrics.difficulty :=
           nullish (Types.difficulty data) defaultDifficulty |}.

Definition calculatePredictedRank (currentRank targetRank difficulty : R) : R :=
  (* Higher difficulty means slower progress towards target *)
  let progress := Math_min 1 ((100 - difficulty) / 100) in
  let rankImprovement := (currentRank - targetRank) * progress in
  Math_max 1 (Math_round (currentRank - rankImprovement)).

Definition calculatePredictedInstalls (volume currentRank predictedRank : R)
  : R :=
  let rankImprovement := currentRank - predictedRank in
  let baseMultiplier := 1.2 in
  let multiplier := Math_pow baseMultiplier (rankImprovement / 10) in
  Math_round (volume * multiplier).

(** The body of [keywordData.map(data => ...)]. *)
Definition predict (targetRanks : TargetRanks) (data : Types.KeywordData)
  : Eff PredictionResult :=
  do metrics <- getKeywordMetrics data;
  let rank := Metrics.currentRank metrics in
  let predictedRanks :=
    {| threeMonths :=
         calculatePredictedRank rank (threeMonths targetRanks)
           (Metrics.difficulty metrics);
       sixMonths :=
         calculatePredictedRank rank (sixMonths targetRanks)
           (Metrics.difficulty metrics);
       nineMonths :=
         calculatePredictedRank rank (nineMonths targetRanks)
           (Metrics.difficulty metrics);
       twelveMonths :=
         calculatePredictedRank rank (twelveMonths targetRanks)
           (Metrics.difficulty metrics) |} in
  let predictedInstalls :=
    {| threeMonths :=
         calculatePredictedInstalls (Metrics.volume metrics) rank
           (threeMonths predictedRanks);
       sixMonths :=
         calculatePredictedInstalls (Metrics.volume metrics) rank
           (sixMonths predictedRanks);
       nineMonths :=
         calculatePredictedInstalls (Metrics.volume metrics) rank
           (nineMonths predictedRanks);
       twelveMonths :=
         calculatePredictedInstalls (Metrics.volume metrics) rank
           (twelveMonths predictedRanks) |} in
  ret {| keyword := Types.keyword data;
         currentRank := rank;
         predictedRanks := predictedRanks;
         predictedInstalls := predictedInstalls |}.

(** [keywordData] is the contents of the array, which is only read. *)
Definition generatePredictions (keywordData : list Types.KeywordData)
    (targetRanks : TargetRanks) : Eff (list PredictionResult) :=
  mapM (predict targetRanks) keywordData.

End Prediction.

(** ** More of the JavaScript library: arrays of any element type *)

Module JsLib.
Import Js.
Local Open Scope R_scope.

(** [a.sort(compare)] on a fresh array: the stable sort of
    [Runtime.sorted], for any element type. *)
Fixpoint insert_by {A : Type} (compare : A -> A -> R) (x : A) (l : list A)
  : list A :=
  match l with
  | [] => [x]
  | y :: l' =>
      if Rle_dec (compare x y) 0 then x :: l
      else y :: insert_by compare x l'
  end.

Definition sort_by {A : Type} (compare : A -> A -> R) (l : list A) : list A :=
  foldr (insert_by compare) [] l.

(** [a.slice(start, end)] for [0 <= start <= end]. *)
Definition slice {A : Type} (start stop : nat) (l : list A) : list A :=
  take (stop - start) (drop start l).

(** [s.split(/,\s*/)]: the pieces between the separators, a separator
    being a comma with all the white space that follows it. *)
Fixpoint split_comma_ws_go (cur : list ascii) (after_comma : bool)
    (l : list ascii) : list string :=
  match l with
  | [] => [str (rev cur)]
  | c :: l' =>
      if after_comma && Ascii.is_space c
      then split_comma_ws_go cur true l'
      else if bool_decide (c = ","%char)
      then str (rev cur) :: split_comma_ws_go [] true l'
      else split_comma_ws_go (c :: cur) false l'
  end.

Definition split_comma_ws (s : string) : list string :=
  split_comma_ws_go [] false (chars s).

(** [a[i]] for an index that is a number: [undefined] when the index
    is negative or beyond the end. *)
Definition at_index {A : Type} (l : list A) (i : Z) : option A :=
  if (i <? 0)%Z then None else l !! Z.to_nat i.

End JsLib.

(** ** The analysis service: warnings, recommendations, projections *)

Module Recommendations.
Import Js JsLib Types Runtime Analysis.
Local Open Scope R_scope.

Record MetadataRecommendations : Type := mkMetadataRecommendations {
  title : list string;
  subtitle : list string;
  keywordField : list string;
  reasoning : string
}.



(** The truth value of an optional string: [undefined] and the empty
    string are falsy. *)
Definition present (s : option string) : bool :=
  match s with Some x => truthy x | None => false end.

Definition generateMissingDataWarnings (details : Flexible.AppDetails)
    (keywords : list KeywordData) : list string :=
  let missingKeywordData :=
    (if negb (existsb (fun k => bool_decide (is_Some (volume k))) keywords)
     then ["search volume"] else [])
    ++ (if negb (existsb (fun k => bool_decide (is_Some (difficulty k)))
                         keywords)
        then ["difficulty/competition"] else [])
    ++ (if negb (existsb (fun k => bool_decide (is_Some (currentRank k)))
                         keywords)
        then ["current rank"] else []) in
  (if negb (present (Flexible.appName details))
   then ["App name is missing. Recommendations may be less targeted."]
   else [])
  ++ (if negb (present (Flexible.appId details))
      then ["App ID is missing. We cannot verify if the app exists in the stores."]
      else [])
  ++ (if negb (present (Flexible.store details))
      then ["Store information is missing. Recommendations are based on general app store guidelines."]
      else [])
  ++ (if (length keywords =? 0)%nat
      then ["No keywords found in the data. Please ensure your CSV contains keyword information."]
      else [])
  ++ (if (0 <? length missingKeywordData)%nat
      then ["Missing " +:+ join ", " missingKeywordData
            +:+ " data for keywords. Analysis will be limited."]
      else []).

(** Helper functions to score keywords for different fields. *)
Definition scoreTitleKeyword (kw : KeywordData) : R :=
  let volume := or_default (volume kw) 0 in
  let difficulty := or_default (difficulty kw) 50 in
  let currentRank := or_default (currentRank kw) 100 in
  volume * 0.6 + (100 - difficulty) * 0.3
  + (100 - Math_min currentRank 100) * 0.1.

Definition scoreSubtitleKeyword (kw : KeywordData) : R :=
  let volume := or_default (volume kw) 0 in
  let difficulty := or_default (difficulty kw) 50 in
  volume * 0.7 + (100 - difficulty) * 0.3.

Definition scoreKeywordFieldKeyword (kw : KeywordData) : R :=
  let volume := or_default (volume kw) 0 in
  let difficulty := or_default (difficulty kw) 50 in
  volume * 0.5 + (100 - difficulty) * 0.5.

(** [(a, b) => score(b) - score(a)] *)
Definition byScoreDescending (score : KeywordData -> R) (a b : KeywordData)
  : R :=
  score b - score a.

(** [l[i]?.keyword || ''] *)
Definition keywordAt (l : list KeywordData) (i : nat) : string :=
  match l !! i with Some k => keyword k | None => "" end.

Definition generateMetadataRecommendations (details : Flexible.AppDetails)
    (keywords : list KeywordData) (insights : KeywordInsights)
  : MetadataRecommendations :=
  let appName := default "" (Flexible.appName details) in
  (* Get top keywords for each field *)
  let titleKeywords :=
    take 10 (sort_by (byScoreDescending scoreTitleKeyword) keywords) in
  let subtitleKeywords :=
    take 15 (sort_by (byScoreDescending scoreSubtitleKeyword) keywords) in
  let keywordFieldKeywords :=
    take 20 (sort_by (byScoreDescending scoreKeywordFieldKeyword) keywords) in
  (* Generate title options *)
  let titleOptions :=
    if truthy appName
    then [appName +:+ ": " +:+ keywordAt titleKeywords 0;
          keywordAt titleKeywords 0 +:+ " - " +:+ appName]
         ++ (if bool_decide (is_Some (titleKeywords !! 1%nat))
             then [appName +:+ " - " +:+ keywordAt titleKeywords 0
                   +:+ " & " +:+ keywordAt titleKeywords 1]
             else [])
    else [keywordAt titleKeywords 0 +:+ " App"]
         ++ (if bool_decide (is_Some (titleKeywords !! 1%nat))
             then [keywordAt titleKeywords 0 +:+ " & "
                   +:+ keywordAt titleKeywords 1]
             else [])
         ++ (if bool_decide (is_Some (titleKeywords !! 2%nat))
             then ["Ultimate " +:+ keywordAt titleKeywords 0 +:+ " & "
                   +:+ keywordAt titleKeywords 1 +:+ " Tool"]
             else []) in
  (* Generate subtitle options *)
  let subtitleOptions :=
    [keywordAt subtitleKeywords 0 +:+ " " +:+ keywordAt subtitleKeywords 1
     +:+ " & " +:+ keywordAt subtitleKeywords 2;
     "Best " +:+ keywordAt subtitleKeywords 0 +:+ " App for "
     +:+ keywordAt subtitleKeywords 1;
     keywordAt subtitleKeywords 0 +:+ " Made Easy | "
     +:+ keywordAt subtitleKeywords 1 +:+ " & More"] in
  (* Generate keyword field options *)
  let keywordFieldOptions :=
    [join ", " (keyword <$> slice 0 8 keywordFieldKeywords);
     join ", " (keyword <$> slice 8 16 keywordFieldKeywords);
     join ", " (keyword <$> slice 0 4 keywordFieldKeywords) +:+ ", "
     +:+ join ", " (keyword <$> slice 10 14 keywordFieldKeywords)] in
  (* Generate reasoning *)
  let reasoning :=
    normalize_ws
      (newline
       +:+ "    The title recommendations focus on high-volume, moderately competitive keywords where you already have some ranking."
       +:+ newline
       +:+ "    The subtitle includes complementary keywords with good search volume to expand your visibility."
       +:+ newline
       +:+ "    The keyword field maximizes coverage across your most valuable keyword opportunities."
       +:+ newline +:+ "  ") in
  {| title := titleOptions;
     subtitle := subtitleOptions;
     keywordField := keywordFieldOptions;
     reasoning := reasoning |}.

(** The members of the set [recommendedKeywords], as a list: the set is
    only searched ([Array.from(recommendedKeywords).some(...)]), so
    that neither the order nor the repetitions matter. *)
Definition recommendedKeywords (recommendations : MetadataRecommendations)
  : list string :=
  toLowerCase
    <$> (mjoin (split_ws <$> title recommendations)
         ++ mjoin (split_ws <$> subtitle recommendations)
         ++ mjoin (split_comma_ws <$> keywordField recommendations)).

(** [k.keyword.toLowerCase().includes(rk) || rk.includes(k.keyword.toLowerCase())]
    for some member [rk]. *)
Definition matchesSome (words : list string) (k : KeywordData) : bool :=
  existsb (fun rk => includes (toLowerCase (keyword k)) rk
                     || includes rk (toLowerCase (keyword k)))
          words.

(** The keywords that match the recommendations, or, when there is
    none, the top keywords by volume. *)
Definition keywordsToProject (keywords : list KeywordData)
    (recommendations : MetadataRecommendations) : list KeywordData :=
  let keywordsToProject :=
    List.filter (matchesSome (recommendedKeywords recommendations))
                keywords in
  if (length keywordsToProject =? 0)%nat
  then keywordsToProject
       ++ take 5 (sort_by byVolumeDescending (List.filter hasVolume keywords))
  else keywordsToProject.







End Recommendations.

(** ** The prediction utilities: recommendations and ranking growth *)

Module Ranking.
Import Js JsLib Runtime Prediction.
Local Open Scope R_scope.

Record RecommendationResult : Type := mkRecommendationResult {
  keyword : string;
  currentRank : R;
  predictedRanks : TargetRanks;
  predictedInstalls : TargetRanks;
  score : R
}.

Definition calculateRecommendationScore (volume difficulty currentRank : R)
  : R :=
  (* Normalize values to 0-1 range *)
  let normalizedVolume := Math_min (volume / 1000) 1 in
  let normalizedDifficulty := 1 - difficulty / 100 in
  let normalizedRank := 1 - Math_min currentRank 100 / 100 in
  (* Weight factors *)
  let volumeWeight := 0.4 in
  let difficultyWeight := 0.3 in
  let rankWeight := 0.3 in
  (* Calculate weighted score *)
  let score :=
    (normalizedVolume * volumeWeight
     + normalizedDifficulty * difficultyWeight
     + normalizedRank * rankWeight) * 100 in
  Math_round score.

(** The body of [keywordData.map(data => ...)] in
    [generateRecommendations]. *)
Definition recommend (data : Types.KeywordData) : Eff RecommendationResult :=
  do metrics <- getKeywordMetrics data;
  let rank := Metrics.currentRank metrics in
  (* Calculate a score based on volume, difficulty, and current rank *)
  let score :=
    calculateRecommendationScore (Metrics.volume metrics)
      (Metrics.difficulty metrics) rank in
  (* Generate optimistic predictions for recommended keywords *)
  let predictedRanks :=
    {| threeMonths := Math_max 1 (Math_round (rank * 0.7));
       sixMonths := Math_max 1 (Math_round (rank * 0.5));
       nineMonths := Math_max 1 (Math_round (rank * 0.3));
       twelveMonths := Math_max 1 (Math_round (rank * 0.2)) |} in
  let predictedInstalls :=
    {| threeMonths :=
         calculatePredictedInstalls (Metrics.volume metrics) rank
           (threeMonths predictedRanks);
       sixMonths :=
         calculatePredictedInstalls (Metrics.volume metrics) rank
           (sixMonths predictedRanks);
       nineMonths :=
         calculatePredictedInstalls (Metrics.volume metrics) rank
           (nineMonths predictedRanks);
       twelveMonths :=
         calculatePredictedInstalls (Metrics.volume metrics) rank
           (twelveMonths predictedRanks) |} in
  ret {| keyword := Types.keyword data;
         currentRank := rank;
         predictedRanks := predictedRanks;
         predictedInstalls := predictedInstalls;
         score := score |}.

(** [(a, b) => b.score - a.score] *)
Definition byScore (a b : RecommendationResult) : R := score b - score a.

(** [keywordData.map(...).sort(...)]: the array that is sorted is the
    new array made by [map]. *)
Definition generateRecommendations (keywordData : list Types.KeywordData)
  : Eff (list RecommendationResult) :=
  do results <- mapM recommend keywordData;
  ret (sort_by byScore results).

End Ranking.

(** ** The prediction utilities: [predictRankingGrowth] *)

Module Growth.
Import Js Prediction.
Local Open Scope R_scope.

(** The record that [predictRankingGrowth] receives, with the
    properties that it reads, all of them numbers.  (With a property
    missing every predicted number is [NaN], which is outside the
    model.) *)
Module Input.
Record KeywordData : Type := mkKeywordData {
  keyword : string;
  difficulty : R;
  volume : R;
  relevancyScore : R;
  chance : R
}.
End Input.

Record PredictionResult : Type := mkPredictionResult {
  keyword : string;
  currentRank : R;
  difficulty : R;
  predictedRanks : TargetRanks;
  predictedInstallImpact : TargetRanks
}.

(** Estimate install impact based on rank improvement and volume. *)
Definition calculateInstallImpact (keyword : Input.KeywordData)
    (oldRank newRank : R) : R :=
  if Req_dec_T oldRank newRank then 0
  else
    let oldVisibility :=
      if Rle_dec oldRank 10 then 0.5 - (oldRank - 1) * 0.05
      else 0.1 / oldRank in
    let newVisibility :=
      if Rle_dec newRank 10 then 0.5 - (newRank - 1) * 0.05
      else 0.1 / newRank in
    let visibilityIncrease := newVisibility - oldVisibility in
    Math_round (visibilityIncrease * Input.volume keyword * 100).

(** Combined factor for growth prediction. *)
Definition growthFactor (keyword : Input.KeywordData) : R :=
  let difficultyFactor := 1 - Input.difficulty keyword / 100 in
  let volumeFactor := Math_min (Input.volume keyword / 100) 1 in
  let relevancyFactor := Input.relevancyScore keyword / 100 in
  let chanceFactor := Input.chance keyword / 100 in
  let baseGrowthRate := 0.2 in
  baseGrowthRate * difficultyFactor
  * (volumeFactor * 0.5 + relevancyFactor * 0.3 + chanceFactor * 0.2).

(** [currentRank] is [None] when the argument is left out: the
    default is 100. *)
Definition predictRankingGrowth (keyword : Input.KeywordData)
    (currentRank : option R) : PredictionResult :=
  let currentRank := nullish currentRank 100 in
  let growthFactor := growthFactor keyword in
  (* Predicted ranks over time (lower is better) *)
  let threeMonthRank :=
    Math_max 1 (Math_round (currentRank * (1 - growthFactor))) in
  let sixMonthRank :=
    Math_max 1 (Math_round (threeMonthRank * (1 - growthFactor))) in
  let nineMonthRank :=
    Math_max 1 (Math_round (sixMonthRank * (1 - growthFactor))) in
  let twelveMonthRank :=
    Math_max 1 (Math_round (nineMonthRank * (1 - growthFactor))) in
  {| keyword := Input.keyword keyword;
     currentRank := currentRank;
     difficulty := Input.difficulty keyword;
     predictedRanks :=
       {| threeMonths := threeMonthRank;
          sixMonths := sixMonthRank;
          nineMonths := nineMonthRank;
          twelveMonths := twelveMonthRank |};
     predictedInstallImpact :=
       {| threeMonths := calculateInstallImpact keyword currentRank
                           threeMonthRank;
          sixMonths := calculateInstallImpact keyword currentRank
                         sixMonthRank;
          nineMonths := calculateInstallImpact keyword currentRank
                          nineMonthRank;
          twelveMonths := calculateInstallImpact keyword currentRank
                            twelveMonthRank |} |}.

End Growth.


(** ** The metadata route: [POST] and [generateMetadataOptions] *)

Module MetadataRoute.
Import Js JsLib Runtime Metadata.
Local Open Scope R_scope.

Record MetadataOption : Type := mkMetadataOption {
  title : string;
  subtitle : string;
  keywords : string
}.

Definition is_lower (c : ascii) : bool :=
  (97 <=? nat_of_ascii c)%nat && (nat_of_ascii c <=? 122)%nat.

(** [s.charAt(0).toUpperCase() + s.slice(1)] *)
Definition upper_char (c : ascii) : ascii :=
  if is_lower c then ascii_of_nat (nat_of_ascii c - 32) else c.

Definition capitalize (s : string) : string :=
  match s with
  | String c rest => String (upper_char c) rest
  | EmptyString => EmptyString
  end.

(** [s.slice(0, n)] for a string. *)
Definition string_slice (n : nat) (s : string) : string :=
  str (take n (chars s)).

Definition titlePatterns : list (string -> string) :=
  [ (fun kw => "Easy " +:+ kw +:+ " - Track Your Progress");
    (fun kw => kw +:+ " Pro - Smart Tracking & Analysis");
    (fun kw => "Ultimate " +:+ kw +:+ " Assistant & Tracker");
    (fun kw => kw +:+ " Master - Professional Tools");
    (fun kw => "Smart " +:+ kw +:+ " - Your Personal Guide") ].

Definition subtitlePatterns : list (string -> string) :=
  [ (fun kw => "Boost your " +:+ kw +:+ " results with AI-powered insights");
    (fun kw => "Professional " +:+ kw +:+ " tools for better performance");
    (fun kw => "Smart " +:+ kw +:+ " tracking & personalized recommendations");
    (fun kw => "Advanced " +:+ kw +:+ " analytics for professionals");
    (fun kw => "The ultimate " +:+ kw +:+ " companion for success") ].

(** [patterns[seed % patterns.length]] *)
Definition patternFor (patterns : list (string -> string)) (seed : nat)
  : string -> string :=
  nth (seed mod length patterns) patterns (fun kw => kw).

(** [Math.floor(Math.random() * n)] *)
Definition randomIndex (n : nat) : Eff Z :=
  do r <- Math_random; ret (Zfloor (r * INR n)).

(** [`${modifiers[Math.floor(Math.random() * modifiers.length)]} ${keyword}`];
    a modifier that is [undefined] is printed as such. *)
Definition modified (keyword : string) : Eff string :=
  do i <- randomIndex (length modifiers);
  ret (default "undefined" (at_index modifiers i) +:+ " " +:+ keyword).

(** The answer of the route: its status and its body, which holds
    either the options, or a text under [error], or the message of an
    error that was caught. *)
Inductive Body : Type :=
| SuggestionBody (suggestion : list MetadataOption)
| ErrorBody (error : string)
| CaughtErrorBody.

Record Response : Type := mkResponse {
  status : nat;
  body : Body
}.

Section Shuffle.

(** [baseKeywords.sort(() => Math.random() - 0.5)]: the arrangement
    that the sort of the engine leaves, and the numbers that it draws,
    are those of [shuffle]. *)
Variable shuffle : list string -> Eff (list string).

(** [None]: [mainKeyword] is [undefined] and the call throws a
    [TypeError]. *)
Definition generateOption (keywords : list string) (seed : nat)
  : Eff (option MetadataOption) :=
  (* Select main keyword and patterns *)
  do i <- randomIndex (length keywords);
  match at_index keywords i with
  | None => ret None
  | Some mainKeyword =>
      let titlePattern := patternFor titlePatterns seed in
      let subtitlePattern := patternFor subtitlePatterns seed in
      (* Generate title and subtitle *)
      let title := string_slice 30 (titlePattern (capitalize mainKeyword)) in
      let subtitle :=
        string_slice 30 (subtitlePattern (toLowerCase mainKeyword)) in
      (* Add modified versions of keywords *)
      do modifiedKeywords <- mapM modified keywords;
      let baseKeywords := keywords ++ modifiedKeywords in
      (* Shuffle and limit to 100 characters *)
      do shuffled <- shuffle baseKeywords;
      ret (Some {| title := title;
                   subtitle := subtitle;
                   keywords := keywordsString shuffled |})
  end.

(** Include "sahsah" and "sahseh" in the keywords. *)
Definition allKeywords (keywords : list string) : list string :=
  keywords
  ++ (if bool_decide ("sahsah" ∈ keywords) then [] else ["sahsah"])
  ++ (if bool_decide ("sahseh" ∈ keywords) then [] else ["sahseh"]).

(** [Array(3).fill(null).map((_, index) => generateOption(allKeywords, index + 1))] *)
Definition generateMetadataOptions (keywords : list string)
  : Eff (option (list MetadataOption)) :=
  let allKeywords := allKeywords keywords in
  do option1 <- generateOption allKeywords 1;
  match option1 with
  | None => ret None
  | Some option1 =>
      do option2 <- generateOption allKeywords 2;
      match option2 with
      | None => ret None
      | Some option2 =>
          do option3 <- generateOption allKeywords 3;
          match option3 with
          | None => ret None
          | Some option3 => ret (Some [option1; option2; option3])
          end
      end
  end.

(** The handler [POST], from the [keywords] of the request body on.
    [None] is a value that is missing, falsy or not an array; an array
    is one of strings (the handler does not look at its elements).  A
    call of [generateMetadataOptions] that throws is answered with the
    status 500. *)
Definition POST (keywords : option (list string)) : Eff Response :=
  match keywords with
  | None | Some [] =>
      ret (mkResponse 400 (ErrorBody "Invalid keywords in request body"))
  | Some keywords =>
      (* Generate metadata options *)
      do options <- generateMetadataOptions keywords;
      match options with
      | Some options => ret (mkResponse 200 (SuggestionBody options))
      | None => ret (mkResponse 500 CaughtErrorBody)
      end
  end.

End Shuffle.

End MetadataRoute.

(** * Terms of the statements and sample inputs *)

Section FlexibleTerms.
Import Js Types Flexible.
Local Open Scope R_scope.

(** The rows that the loop keeps, with their keywords: the rows whose
    keyword is present, not empty, and neither in [seen] nor in an
    earlier row. *)
Fixpoint keptRows (keywordField : string) (seen : gset string)
    (data : list row) : list (string * row) :=
  match data with
  | [] => []
  | r :: data' =>
      match cell r keywordField with
      | Some kw =>
          if negb (truthy kw) || bool_decide (kw ∈ seen)
          then keptRows keywordField seen data'
          else (kw, r) :: keptRows keywordField ({[kw]} ∪ seen) data'
      | None => keptRows keywordField seen data'
      end
  end.

Definition sample_rows : list row :=
  [ [("Keyword", "fitness tracker"); ("Volume", "1,200"); ("Difficulty", "35")];
    [("Keyword", "yoga"); ("Volume", "n/a"); ("Difficulty", "$3.5%")];
    [("Keyword", ""); ("Volume", "7"); ("Difficulty", "1")];
    [("Keyword", "fitness tracker"); ("Volume", "9"); ("Difficulty", "2")] ].

Definition sample_parsed : ParsedAppData :=
  {| appDetails := mkAppDetails None None None None None;
     keywords :=
       [ mkKeywordData "fitness tracker" (Some 1200%R) (Some 35%R)
           None None None None None ∅;
         mkKeywordData "yoga" (Some 0%R) (Some 3.5%R)
           None None None None None ∅ ];
     missingFields := [];
     availableFields := ["keyword"; "volume"; "difficulty"] |}.

(** The coercion of a cell of a numeric column: the text without
    [,], [%] and [$], read by [parseFloat]; [0] when that is [NaN]. *)
Definition coerced (value : string) : R :=
  match parseFloat (stripSymbols value) with
  | Some n => n
  | None => 0
  end.

(** The non-empty cells of a row whose header stands for the canonical
    field [name], in column order. *)
Definition cellsFor (name : string) (r : row) : list string :=
  snd <$> filter (fun column => standardFieldOf column.1 = name
                                ∧ column.2 ≠ "") r.

End FlexibleTerms.

Section StrictTerms.
Import Js Strict.

(** The outcome of every data row, in order. *)
Definition rowResults (separator : ascii) (headers dataLines : list string)
  : list (KeywordData + string) :=
  imap (fun index line => parseRow separator headers (index + 1) line)
       dataLines.

Definition records (results : list (KeywordData + string))
  : list KeywordData :=
  omap (fun r => match r with inl k => Some k | inr _ => None end) results.

Definition rowErrors (results : list (KeywordData + string)) : list string :=
  omap (fun r => match r with inl _ => None | inr e => Some e end) results.

(** A data row is valid when it has as many cells as there are headers
    and its App Name, App ID and Keyword cells are not empty. *)
Definition validRow (separator : ascii) (headers : list string)
    (line : string) : Prop :=
  let values := cleanValue <$> split_char separator line in
  let cellOf := getValue (headerMapOf headers) values in
  length values = length headers
  ∧ cellOf "App Name" <> ""
  ∧ cellOf "App ID" <> ""
  ∧ cellOf "Keyword" <> "".

Definition sample_header : string := join "," EXPECTED_HEADERS.

Definition sample_valid_row : string :=
  "Fit App,com.fit,ios,iphone,US,en,,,fitness tracker,,yes,1200,35,5000,no,,,40,60,80".

(** A file with a valid data row followed by a row of two cells. *)
Definition sample_file : File :=
  mkFile "keywords.csv"
         (join lineFeed [sample_header; sample_valid_row; "too,few"]).

End StrictTerms.

Section CategoryTerms.
Import Js Types Analysis.

(** All the words of all the keywords, in order. *)
Definition allWords (keywords : list KeywordData) : list string :=
  mjoin (keywordWords <$> keywords).

Definition occurrences (w : string) (ws : list string) : nat :=
  length (filter (w =.) ws).

(** A word that the frequency count takes: longer than 3 characters
    and not a name that the dictionary inherits. *)
Definition countable (w : string) : Prop :=
  3 < String.length w ∧ w ∉ inheritedNames.

(** What the code computes: the words with a count of at least 2, the
    keywords that contain such a word and those that contain none. *)
Definition counted (keywords : list KeywordData) (w : string) : Prop :=
  countable w ∧ 2 <= occurrences w (allWords keywords).

Definition containsCounted (keywords : list KeywordData) (kd : KeywordData)
  : Prop :=
  Exists (fun w => counted keywords w
                   ∧ includes (toLowerCase (keyword kd)) (toLowerCase w) = true)
         (allWords keywords).

Definition withoutCounted (keywords : list KeywordData) : list KeywordData :=
  filter (fun kd => ¬ containsCounted keywords kd) keywords.

(** The keywords of the dataset that have the token [w]. *)
Definition keywordsWith (keywords : list KeywordData) (w : string)
  : list KeywordData :=
  filter (fun kd => w ∈ keywordWords kd) keywords.

(** A theme: a token longer than 3 characters that at least 2 keywords
    of the dataset share. *)
Definition isTheme (keywords : list KeywordData) (w : string) : Prop :=
  3 < String.length w ∧ 2 <= length (keywordsWith keywords w).

(** A keyword matches a theme when it contains it, case-insensitively.
    A theme is a token of some keyword, so the themes are looked for
    among the words of the dataset. *)
Definition matchesTheme (keywords : list KeywordData) (kd : KeywordData)
  : Prop :=
  Exists (fun w => isTheme keywords w
                   ∧ includes (toLowerCase (keyword kd)) (toLowerCase w) = true)
         (allWords keywords).

Definition unmatched (keywords : list KeywordData) : list KeywordData :=
  filter (fun kd => ¬ matchesTheme keywords kd) keywords.

(** The keywords on which the count of the code is the count of the
    keywords that share a token: text in ASCII, no token longer than 3
    characters twice in one keyword, and no token that is the name of a
    member that the dictionary inherits. *)
Definition asciiText (s : string) : Prop :=
  Forall (fun c => nat_of_ascii c < 128) (chars s).

Definition plainKeyword (kd : KeywordData) : Prop :=
  asciiText (keyword kd)
  ∧ NoDup (filter (fun w => 3 < String.length w) (keywordWords kd))
  ∧ Forall (fun w => w ∉ inheritedNames) (keywordWords kd).

Definition sample_keywords : list KeywordData :=
  newKeywordData <$> ["fitness tracker"; "Fitness app"; "yoga"].

End CategoryTerms.

Section InsightTerms.
Import Js Types Runtime Analysis.

(** The first five of the selected records, by descending volume. *)
Definition top (p : KeywordData -> bool) (l : list KeywordData)
  : list KeywordData :=
  take 5 (sorted byVolumeDescending (List.filter p l)).

(** The insights as a function of the app details and of the contents
    of the keyword array. *)
Definition insightsOf (details : Flexible.AppDetails) (l : list KeywordData)
  : KeywordInsights :=
  {| trendingKeywords := top isTrending l;
     lowCompetitionOpportunities := top isLowCompetition l;
     highVolumeKeywords := top hasVolume l;
     underperformingKeywords := top isUnderperforming l;
     keywordCategories := categorizeKeywords l;
     summary :=
       generateInsightsSummary details l
         (top isLowCompetition l) (top isUnderperforming l) |}.

Definition sample_dataset : list KeywordData :=
  [ mkKeywordData "fitness tracker" (Some 1200%R) (Some 35%R) (Some 60%R)
      None None None None ∅;
    mkKeywordData "yoga" None None None None None None None ∅ ].

Definition sample_appData : ParsedAppData :=
  mkParsedAppData (Flexible.mkAppDetails None None None None None) 0.

Definition sample_world_1 : World :=
  mkWorld (fun _ => 0%R) [sample_dataset].

Definition sample_world_2 : World :=
  mkWorld (fun _ => (/ 2)%R) [sample_dataset; []].

End InsightTerms.

Section PredictionTerms.
Import Js Types Runtime Prediction.
Local Open Scope R_scope.

(** A record with the three metrics that [getKeywordMetrics] reads. *)
Definition complete (data : KeywordData) : Prop :=
  is_Some (Types.currentRank data)
  ∧ is_Some (Types.volume data)
  ∧ is_Some (Types.difficulty data).

(** A world whose random source always yields [x]. *)
Definition constantWorld (x : R) : World := mkWorld (fun _ => x) [].

Definition allRanks (r : R) : TargetRanks := mkTargetRanks r r r r.

Definition unrankedKeyword : KeywordData :=
  mkKeywordData "fitness tracker" (Some 100) (Some 50) None
    None None None None ∅.
Definition unmeasuredKeyword : KeywordData :=
  mkKeywordData "fitness tracker" None (Some 50) (Some 10)
    None None None None ∅.
Definition measuredKeyword : KeywordData :=
  mkKeywordData "fitness tracker" (Some 100) (Some 50) (Some 21)
    None None None None ∅.
Definition unratedKeyword : KeywordData :=
  mkKeywordData "fitness tracker" (Some 100) None (Some 21)
    None None None None ∅.

(** Two runs on the same record whose results differ in the given
    part. *)
Definition differOn (data : KeywordData) (targetRanks : TargetRanks)
    (w1 w2 : World) (part : PredictionResult -> TargetRanks) : Prop :=
  exists p1 p2,
    fst (generatePredictions [data] targetRanks w1) = [p1]
    /\ fst (generatePredictions [data] targetRanks w2) = [p2]
    /\ part p1 <> part p2.

End PredictionTerms.

Section FlexibleRecordTerms.
Import Js Types Flexible.

(** The canonical names that never go to the dictionary of extra
    properties: the app fields, the keyword and the numeric fields. *)
Definition reservedField (name : string) : bool :=
  includes_string appFields name
  || bool_decide (name = "keyword")
  || includes_string numericFields name.

(** The lower-case names under which the field map finds an inherited
    member. *)
Definition inherited : list string := fst <$> inheritedMembers.

(** Rows with a column that stands for no known field, and one whose
    header is the name of an inherited member. *)
Definition sample_noted_rows : list row :=
  [ [("Keyword", "yoga"); ("Notes", "Seasonal"); ("Constructor", "x")];
    [("Keyword", "pilates"); ("Notes", ""); ("Constructor", "")] ].

Definition sample_noted : ParsedAppData :=
  {| appDetails := mkAppDetails None None None None None;
     keywords :=
       [ mkKeywordData "yoga" None None None None None None None
           (<["notes" := "Seasonal"]>
              (<["function Object() { [native code] }" := "x"]> ∅));
         newKeywordData "pilates" ];
     missingFields := [];
     availableFields :=
       ["keyword"; "notes"; "function Object() { [native code] }"] |}.



End FlexibleRecordTerms.

Section StrictRecordTerms.
Import Js Strict.
Local Open Scope R_scope.

Definition isInteger (x : R) : Prop := exists z : Z, x = IZR z.

(** A percentage: an integer from 0 to 100. *)
Definition isPercentage (x : R) : Prop := isInteger x /\ 0 <= x <= 100.

(** A count: an integer that is not negative. *)
Definition isCount (x : R) : Prop := isInteger x /\ 0 <= x.

(** What holds of every record that the strict parser builds. *)
Definition wellFormed (k : KeywordData) : Prop :=
  (appName k <> "" /\ appId k <> "" /\ keyword k <> "")
  /\ (store k = "iOS" \/ store k = "Android")
  /\ (device k <> "" /\ countryCode k <> "" /\ languageCode k <> "")
  /\ (mainAppId k <> "" /\ mainAppName k <> "" /\ keywordList k <> "")
  /\ (forall v, volume k = Some v -> isCount v)
  /\ isPercentage (difficulty k)
  /\ isCount (maximumReach k)
  /\ (isPercentage (kei k) /\ isPercentage (chance k)
      /\ isPercentage (relevancyScore k))
  /\ (brandedAppId k <> Some "" /\ brandedAppName k <> Some "").

(** The position of the column that [getValue] reads for a name: the
    last header equal to the name up to case. *)
Definition lastColumn (headers : list string) (columnName : string)
    (index : nat) : Prop :=
  (exists header, headers !! index = Some header
                  /\ toLowerCase header = toLowerCase columnName)
  /\ forall j header, (index < j)%nat -> headers !! j = Some header ->
        toLowerCase header <> toLowerCase columnName.

(** A file with the expected header and one valid data row. *)
Definition sample_good_file : File :=
  mkFile "keywords.csv" (join lineFeed [sample_header; sample_valid_row]).

End StrictRecordTerms.

Section SortTerms.
Import Js JsLib.
Local Open Scope R_scope.

(** A list in descending order of a key: the key of every element is
    at least the key of every later element. *)
Fixpoint descendingBy {A : Type} (key : A -> R) (l : list A) : Prop :=
  match l with
  | [] => True
  | x :: l' => Forall (fun y => key y <= key x) l' /\ descendingBy key l'
  end.

(** The elements with a given key. *)
Definition withKey {A : Type} (key : A -> R) (k : R) (l : list A) : list A :=
  List.filter (fun a => if Req_dec_T (key a) k then true else false) l.

End SortTerms.

Section InsightListTerms.
Import Js JsLib Types Analysis.
Local Open Scope R_scope.

(** The key of the sort of the insight lists: [k.volume || 0]. *)
Definition volumeKey (k : KeywordData) : R := or_default (volume k) 0.

(** [selected] is a choice of the five records of largest volume among
    the records of the dataset that satisfy [p]: it has five records,
    or all of them when there are fewer; it is in descending order of
    volume; no record left out has a larger volume than a selected one;
    and among the records of the same volume the selected ones are the
    first of the dataset. *)
Definition topFiveOf (p : KeywordData -> bool)
    (dataset selected : list KeywordData) : Prop :=
  length selected = Nat.min 5 (length (List.filter p dataset))
  /\ (forall k, k ∈ selected -> p k = true /\ k ∈ dataset)
  /\ descendingBy volumeKey selected
  /\ (exists rest,
        selected ++ rest ≡ₚ List.filter p dataset
        /\ forall x y, x ∈ selected -> y ∈ rest ->
             volumeKey y <= volumeKey x)
  /\ (forall v,
        withKey volumeKey v selected
          `prefix_of` withKey volumeKey v (List.filter p dataset)).

End InsightListTerms.

Section ProjectionTerms.
Import Js Types Analysis.
Local Open Scope R_scope.

(** The metrics that the projection uses for a record, after the
    defaults: a volume that is not negative, a rank of at least 1 and a
    difficulty from 0 to 100. *)
Definition plausible (k : KeywordData) : Prop :=
  0 <= or_default (volume k) 100
  /\ 1 <= or_default (currentRank k) 100
  /\ 0 <= or_default (difficulty k) 50 <= 100.

Fixpoint nondecreasing (l : list R) : Prop :=
  match l with
  | x :: l' =>
      match l' with
      | y :: _ => x <= y /\ nondecreasing l'
      | [] => True
      end
  | [] => True
  end.

Definition sample_plausible : list KeywordData :=
  [ mkKeywordData "fitness tracker" (Some 1200) (Some 35) (Some 60)
      None None None None ∅;
    mkKeywordData "yoga" None None None None None None None ∅ ].

End ProjectionTerms.

Section RecommendationTerms.
Import Js JsLib Types Analysis Recommendations.
Local Open Scope R_scope.

(** The record with every zero among volume, difficulty and current
    rank replaced by an absent value. *)
Definition zeroAsMissing (k : KeywordData) : KeywordData :=
  let absentIfZero (x : option R) : option R :=
    match x with
    | Some v => if Req_dec_T v 0 then None else Some v
    | None => None
    end in
  mkKeywordData (keyword k) (absentIfZero (volume k))
                (absentIfZero (difficulty k)) (absentIfZero (currentRank k))
                (relevancy k) (traffic k) (cpc k) (maximumReach k) (other k).


(** A whole number of at most a billion in absolute value, for a
    metric that is present.  The scores of records with such metrics
    are multiples of a tenth: scores that differ are too far apart for
    the rounding of the floating-point arithmetic to reorder them. *)
Definition wholeNumber (x : option R) : Prop :=
  forall v, x = Some v -> (exists z : Z, v = IZR z) /\ Rabs v <= 1000000000.

Definition wholeMetrics (k : KeywordData) : Prop :=
  wholeNumber (volume k)
  /\ wholeNumber (difficulty k)
  /\ wholeNumber (currentRank k).

Definition sample_details : Flexible.AppDetails :=
  Flexible.mkAppDetails (Some "Fit App") (Some "com.fit") (Some "iOS")
                        None None.

End RecommendationTerms.

Section RankingTerms.
Import Js JsLib Types Runtime Prediction.
Local Open Scope R_scope.

(** A random source as [Math.random] is specified: every number is at
    least 0 and less than 1. *)
Definition unitSource (w : World) : Prop :=
  forall n, 0 <= randomSource w n < 1.

(** A rank: an integer of at least 1. *)
Definition isRank (x : R) : Prop := (exists z : Z, x = IZR z) /\ 1 <= x.

(** An integer between two bounds. *)
Definition integerBetween (lo hi x : R) : Prop :=
  (exists z : Z, x = IZR z) /\ lo <= x <= hi.

(** The metrics of a record, those that are present: a volume that is
    not negative, a difficulty from 0 to 100 and a rank that is not
    negative. *)
Definition sensible (data : KeywordData) : Prop :=
  (forall v, Types.volume data = Some v -> 0 <= v)
  /\ (forall d, Types.difficulty data = Some d -> 0 <= d <= 100)
  /\ (forall r, Types.currentRank data = Some r -> 0 <= r).

(** The world after [n] draws from the random source. *)
Definition afterDraws (n : nat) (w : World) : World :=
  mkWorld (fun i => randomSource w (n + i)%nat) (arrays w).

(** A record with metrics in the ranges of the strict format. *)
Definition ratedKeyword (k : Growth.Input.KeywordData) : Prop :=
  0 <= Growth.Input.difficulty k <= 100
  /\ 0 <= Growth.Input.volume k
  /\ 0 <= Growth.Input.relevancyScore k <= 100
  /\ 0 <= Growth.Input.chance k <= 100.

Definition ordered (ranks : TargetRanks) : Prop :=
  1 <= twelveMonths ranks
  /\ twelveMonths ranks <= nineMonths ranks
  /\ nineMonths ranks <= sixMonths ranks
  /\ sixMonths ranks <= threeMonths ranks.

Definition sample_rated : Growth.Input.KeywordData :=
  Growth.Input.mkKeywordData "fitness tracker" 35 1200 80 60.

End RankingTerms.

Section MetadataTerms.
Import Js JsLib Runtime Metadata MetadataRoute.
Local Open Scope R_scope.

(** The limits of the store: 30 characters for the title and for the
    subtitle, 100 for the keyword field. *)
Definition withinLimits (o : MetadataOption) : Prop :=
  (String.length (title o) <= 30)%nat
  /\ (String.length (subtitle o) <= 30)%nat
  /\ (String.length (keywords o) <= 100)%nat.

(** The option is built around a main keyword taken from the list. *)
Definition builtAround (keywords : list string) (seed : nat)
    (o : MetadataOption) : Prop :=
  exists mainKeyword,
    mainKeyword ∈ keywords
    /\ title o
       = string_slice 30 (patternFor titlePatterns seed
                            (capitalize mainKeyword))
    /\ subtitle o
       = string_slice 30 (patternFor subtitlePatterns seed
                            (toLowerCase mainKeyword)).

(** A shuffle that leaves the list as it is and draws nothing. *)
Definition noShuffle (l : list string) : Eff (list string) := ret l.

End MetadataTerms.

Section SummaryTerms.
Import Js.

(** Every white-space character of the list is a space, and is
    followed by a character that is not white space. *)
Fixpoint singleSpaced (l : list ascii) : Prop :=
  match l with
  | a :: l' =>
      (Ascii.is_space a = true ->
       a = " "%char
       /\ match l' with
          | b :: _ => Ascii.is_space b = false
          | [] => False
          end)
      /\ singleSpaced l'
  | [] => True
  end.

Definition startsClean (l : list ascii) : Prop :=
  match l with
  | a :: _ => Ascii.is_space a = false
  | [] => True
  end.

(** A text on one line: words separated by single spaces, with no
    white space at either end. *)
Definition singleLine (s : string) : Prop :=
  singleSpaced (chars s) /\ startsClean (chars s).

End SummaryTerms.

(** * Properties *)

Section JsStrings.
Import Js.

Lemma chars_str l : chars (str l) = l.
Proof. apply list_ascii_of_string_of_list_ascii. Qed.

Lemma str_chars s : str (chars s) = s.
Proof. apply string_of_list_ascii_of_string. Qed.

Lemma length_append (s t : string) :
  String.length (s +:+ t) = String.length s + String.length t.
Proof. induction s as [|c s IH]; simpl; [reflexivity | now rewrite IH]. Qed.

Lemma truthy_nonempty (s : string) : truthy s = true <-> s <> "".
Proof. destruct s; simpl; split; congruence. Qed.

End JsStrings.


Section KeywordField.
Import Metadata.

Lemma addKeyword_length (ks kw : string) :
  String.length ks <= 99 -> String.length (addKeyword ks kw) <= 99.
Proof.
  intros Hks. unfold addKeyword.
  destruct (Nat.leb_spec (String.length (ks +:+ kw)) 97) as [Hle|Hgt];
    [|exact Hks].
  rewrite length_append in Hle. rewrite !length_append.
  destruct ks; simpl in *; lia.
Qed.

Lemma fold_addKeyword_length (l : list string) (ks : string) :
  String.length ks <= 99 ->
  String.length (fold_left addKeyword l ks) <= 99.
Proof.
  revert ks. induction l as [|kw l IH]; intros ks Hks; simpl.
  - exact Hks.
  - apply IH, addKeyword_length, Hks.
Qed.

(** C7. Whatever the keywords and however they are ordered, the
    assembled keyword field has at most 100 characters (at most 99, in
    fact); a keyword is appended exactly when the running string
    followed by that keyword has at most 97 characters, and it is then
    preceded by [", "] unless the field is still empty. *)
Theorem keywordsString_at_most_100 (shuffled : list string) :
  String.length (keywordsString shuffled) <= 100
  /\ (forall ks kw : string,
        (String.length (ks +:+ kw) <= 97 ->
         addKeyword ks kw
         = ks +:+ (if Js.truthy ks then ", " else "") +:+ kw)
        /\ (97 < String.length (ks +:+ kw) -> addKeyword ks kw = ks)).
Proof.
  split.
  - pose proof (fold_addKeyword_length shuffled "") as H.
    unfold keywordsString. simpl in H. lia.
  - intros ks kw. unfold addKeyword. split; intros H.
    + apply Nat.leb_le in H. now rewrite H.
    + apply Nat.leb_gt in H. now rewrite H.
Qed.

End KeywordField.

(** ** The projection engine *)

Section Projection.
Import Js Types Analysis.
Local Open Scope R_scope.

Lemma ln_10_pos : 0 < ln 10.
Proof. rewrite <- ln_1. apply ln_increasing; lra. Qed.

Lemma Math_log10_pos (x : R) : 1 < x -> 0 < Math_log10 x.
Proof.
  intros Hx. unfold Math_log10. apply Rdiv_lt_0_compat.
  - rewrite <- ln_1. apply ln_increasing; lra.
  - exact ln_10_pos.
Qed.

Lemma rankFactor_pos (currentRank : R) :
  1 <= currentRank ->
  0 < Math_min (Math_log10 (currentRank + 10) / 2) 1 <= 1.
Proof.
  intros H. pose proof (Math_log10_pos (currentRank + 10)) as Hl.
  unfold Math_min. split.
  - apply Rmin_glb_lt; lra.
  - apply Rmin_r.
Qed.

Lemma Math_sqrt_pos (months : R) : 0 < months -> 0 < Math_sqrt months.
Proof. apply sqrt_lt_R0. Qed.

(** The clamped improvement lies between [0] and [currentRank - 1]
    whenever the raw improvement is not negative. *)
Lemma clamp_bounds (currentRank improvement : R) :
  1 <= currentRank -> 0 <= improvement ->
  1 <= Math_max 1 (currentRank - Math_min (currentRank - 1) improvement)
    <= currentRank.
Proof.
  intros Hr Hi. unfold Math_max, Math_min. split.
  - apply Rmax_l.
  - apply Rmax_lub; [exact Hr|].
    pose proof (Rmin_glb (currentRank - 1) improvement 0) as H. lra.
Qed.

Lemma improvement_nonneg (rankFactor difficulty root boost : R) :
  0 < rankFactor -> 0 <= difficulty <= 100 -> 0 < root -> 0 < boost ->
  0 <= rankFactor * (1 - difficulty / 200) * root * 20 * boost.
Proof.
  intros Hf Hd Hs Hb.
  assert (0 < 1 - difficulty / 200) by lra.
  repeat apply Rmult_le_pos; lra.
Qed.

(** C3. Under the rank-improvement model, for a current rank of at
    least 1, a difficulty between 0 and 100 and a positive number of
    months, the projected rank is at least 1 and at most the current
    rank; this holds for the projection of the analysis service and
    for the variant with the metadata boost. *)
Theorem projectedRank_bounds (currentRank difficulty months : R) :
  1 <= currentRank -> 0 <= difficulty <= 100 -> 0 < months ->
  1 <= projectedRank currentRank difficulty months <= currentRank
  /\ 1 <= projectedRankBoosted currentRank difficulty months <= currentRank.
Proof.
  intros Hr Hd Hm.
  pose proof (rankFactor_pos currentRank Hr) as [Hf _].
  pose proof (Math_sqrt_pos months Hm) as Hs.
  unfold projectedRank, projectedRankBoosted, projectedRankBy,
    estimateRankImprovement, estimateRankImprovementBoosted. cbv zeta.
  split; apply clamp_bounds; try exact Hr.
  - replace (_ * 20) with
      (Math_min (Math_log10 (currentRank + 10) / 2) 1
       * (1 - difficulty / 200) * Math_sqrt months * 20 * 1) by lra.
    apply improvement_nonneg; lra.
  - apply improvement_nonneg; unfold metadataBoostFactor; lra.
Qed.

Lemma projectedRank_bounds_witness :
  (1 <= 50 /\ 0 <= 30 <= 100 /\ 0 < 6)
  /\ 1 <= projectedRank 50 30 6 <= 50
  /\ 1 <= projectedRankBoosted 50 30 6 <= 50.
Proof. split; [lra | apply (projectedRank_bounds 50 30 6); lra]. Defined.

(** *** Numeric bounds for the worked scenario *)

(** Bounds on a decimal logarithm from a comparison of integer
    powers: [10^k < a^n] gives [k/n < log10 a], and conversely. *)
Lemma Math_log10_lower (a : Z) (n k : nat) :
  (0 < a)%Z -> (0 < n)%nat -> (10 ^ Z.of_nat k < a ^ Z.of_nat n)%Z ->
  INR k / INR n < Math_log10 (IZR a).
Proof.
  intros Ha Hn Hlt.
  assert (0 < IZR a) as Hpos by now apply IZR_lt.
  assert (0 < INR n) as Hn' by now apply lt_0_INR.
  apply IZR_lt in Hlt. rewrite <- !pow_IZR in Hlt.
  apply ln_increasing in Hlt; [|apply pow_lt; lra].
  rewrite !ln_pow in Hlt by lra.
  pose proof ln_10_pos as H10. unfold Math_log10.
  apply (Rmult_lt_reg_r (INR n * ln 10)); [apply Rmult_lt_0_compat; lra|].
  replace (INR k / INR n * (INR n * ln 10)) with (INR k * ln 10)
    by (field; lra).
  replace (ln (IZR a) / ln 10 * (INR n * ln 10)) with (INR n * ln (IZR a))
    by (field; lra).
  exact Hlt.
Qed.

Lemma Math_log10_upper (a : Z) (n k : nat) :
  (0 < a)%Z -> (0 < n)%nat -> (a ^ Z.of_nat n < 10 ^ Z.of_nat k)%Z ->
  Math_log10 (IZR a) < INR k / INR n.
Proof.
  intros Ha Hn Hlt.
  assert (0 < IZR a) as Hpos by now apply IZR_lt.
  assert (0 < INR n) as Hn' by now apply lt_0_INR.
  apply IZR_lt in Hlt. rewrite <- !pow_IZR in Hlt.
  apply ln_increasing in Hlt; [|apply pow_lt; lra].
  rewrite !ln_pow in Hlt by lra.
  pose proof ln_10_pos as H10. unfold Math_log10.
  apply (Rmult_lt_reg_r (INR n * ln 10)); [apply Rmult_lt_0_compat; lra|].
  replace (INR k / INR n * (INR n * ln 10)) with (INR k * ln 10)
    by (field; lra).
  replace (ln (IZR a) / ln 10 * (INR n * ln 10)) with (INR n * ln (IZR a))
    by (field; lra).
  exact Hlt.
Qed.

Lemma Math_log10_60 : 1.778 < Math_log10 60 < 1.78.
Proof.
  split.
  - pose proof (Math_log10_lower 60 1000 1778) as H.
    rewrite !INR_IZR_INZ in H. simpl Z.of_nat in H.
    assert (IZR 1778 / IZR 1000 < Math_log10 60) as H'.
    { apply H; [lia | lia |]. apply Z.ltb_lt. vm_compute. reflexivity. }
    lra.
  - pose proof (Math_log10_upper 60 100 178) as H.
    rewrite !INR_IZR_INZ in H. simpl Z.of_nat in H.
    assert (Math_log10 60 < IZR 178 / IZR 100) as H'.
    { apply H; [lia | lia |]. apply Z.ltb_lt. vm_compute. reflexivity. }
    lra.
Qed.

Lemma Math_sqrt_between (a b x : R) :
  0 <= a -> a * a < x -> x < b * b -> 0 <= b -> a < Math_sqrt x < b.
Proof.
  intros Ha Hax Hxb Hb. unfold Math_sqrt. split.
  - rewrite <- (sqrt_square a Ha) at 1. apply sqrt_lt_1_alt. nra.
  - rewrite <- (sqrt_square b Hb) at 1. apply sqrt_lt_1_alt. nra.
Qed.

Lemma Math_sqrt_6 : 2.449 < Math_sqrt 6 < 2.45.
Proof. apply Math_sqrt_between; lra. Qed.

Lemma Math_round_eq (z : Z) (x : R) :
  IZR z - / 2 <= x < IZR z + / 2 -> Math_round x = IZR z.
Proof.
  intros H. unfold Math_round. f_equal. apply Zfloor_eq. lra.
Qed.

(** C9. The scenario currentRank = 50, difficulty = 30, months = 6 of
    the rank-improvement model without metadata boost: the difficulty
    factor is 0.85; the rank factor is log10(60)/2, about 0.889 (the
    cap at 1 does not bind); the improvement is about 37.0 and is not
    cut by the cap currentRank - 1 = 49; the projected rank is
    50 - improvement, about 13. *)
Theorem scenario_rank_50_difficulty_30_months_6 :
  let difficultyFactor := 1 - 30 / 200 in
  let rankFactor := Math_min (Math_log10 (50 + 10) / 2) 1 in
  let improvement := rankFactor * difficultyFactor * Math_sqrt 6 * 20 in
  difficultyFactor = 0.85
  /\ rankFactor = Math_log10 60 / 2
  /\ 0.888 < rankFactor < 0.89
  /\ 37 - 0.1 < improvement < 37 + 0.1
  /\ estimateRankImprovement 50 30 6 = improvement
  /\ improvement < 50 - 1
  /\ projectedRank 50 30 6 = Math_max 1 (50 - improvement)
  /\ projectedRank 50 30 6 = 50 - improvement
  /\ 13 - 0.1 < projectedRank 50 30 6 < 13 + 0.1
  /\ Math_round (projectedRank 50 30 6) = 13.
Proof.
  intros difficultyFactor rankFactor improvement.
  pose proof Math_log10_60 as [Hl Hu].
  pose proof Math_sqrt_6 as [Hsl Hsu].
  assert (rankFactor = Math_log10 60 / 2) as Hrf.
  { unfold rankFactor, Math_min. replace (50 + 10) with 60 by lra.
    apply Rmin_left. lra. }
  assert (difficultyFactor = 0.85) as Hdf by (unfold difficultyFactor; lra).
  assert (0.889 < rankFactor < 0.89) as [Hr1 Hr2] by (rewrite Hrf; lra).
  assert (37 - 0.1 < improvement < 37 + 0.1) as [Hi1 Hi2].
  { unfold improvement. rewrite Hdf. split; nra. }
  assert (estimateRankImprovement 50 30 6 = improvement) as He.
  { unfold estimateRankImprovement. cbv zeta. fold difficultyFactor.
    fold rankFactor. fold improvement. unfold Math_min.
    apply Rmin_right. lra. }
  assert (projectedRank 50 30 6 = Math_max 1 (50 - improvement)) as Hp.
  { unfold projectedRank, projectedRankBy. cbv zeta. now rewrite He. }
  assert (projectedRank 50 30 6 = 50 - improvement) as Hp'.
  { rewrite Hp. unfold Math_max. apply Rmax_right. lra. }
  repeat split; try assumption; try lra.
  apply (Math_round_eq 13). lra.
Qed.


End Projection.

(** ** The flexible parser: deduplication *)

Section Deduplication.
Import Js Types Flexible.

Lemma keyword_processField (kd : KeywordData) (column : string * string) :
  keyword (processField kd column) = keyword kd.
Proof.
  destruct column as [field value], kd. unfold processField, setNumeric, setOther.
  repeat (case_match; try reflexivity).
Qed.

Lemma keyword_buildKeywordData (kw : string) (r : row) :
  keyword (buildKeywordData kw r) = kw.
Proof.
  unfold buildKeywordData.
  assert (forall kd, keyword (fold_left processField r kd) = keyword kd) as H.
  { induction r as [|c r IH]; intros kd; simpl; [reflexivity|].
    now rewrite IH, keyword_processField. }
  now rewrite H.
Qed.

Lemma fold_processRow (keywordField : string) (data : list row)
    (seen : gset string) (ks : list KeywordData) :
  snd (fold_left (processRow keywordField) data (seen, ks))
  = ks ++ ((fun p => buildKeywordData p.1 p.2)
             <$> keptRows keywordField seen data).
Proof.
  revert seen ks. induction data as [|r data IH]; intros seen ks; simpl.
  - now rewrite app_nil_r.
  - destruct (cell r keywordField) as [kw|]; [|apply IH].
    destruct (negb (truthy kw) || bool_decide (kw ∈ seen)); [apply IH|].
    rewrite IH, <- app_assoc. reflexivity.
Qed.

Lemma keptRows_sound (keywordField : string) (data : list row)
    (seen : gset string) (kw : string) (r : row) :
  (kw, r) ∈ keptRows keywordField seen data ->
  kw <> "" /\ (kw ∉ seen)
  /\ exists i, data !! i = Some r
       /\ cell r keywordField = Some kw
       /\ forall j r', j < i -> data !! j = Some r' ->
            cell r' keywordField <> Some kw.
Proof.
  revert seen. induction data as [|r0 data IH]; intros seen Hin; simpl in Hin.
  { inversion Hin. }
  assert (forall seen',
            seen ⊆ seen' ->
            (kw ∉ seen' -> cell r0 keywordField <> Some kw) ->
            (kw, r) ∈ keptRows keywordField seen' data ->
            kw <> "" /\ (kw ∉ seen)
            /\ exists i, (r0 :: data) !! i = Some r
                 /\ cell r keywordField = Some kw
                 /\ forall j r', j < i -> (r0 :: data) !! j = Some r' ->
                      cell r' keywordField <> Some kw) as Hrest.
  { intros seen' Hsub Hne Hin'.
    destruct (IH seen' Hin') as (Hkw & Hseen & i & Hi & Hc & Hfirst).
    split; [exact Hkw|]. split; [intros H; apply Hseen, Hsub, H|].
    exists (S i). split; [exact Hi|]. split; [exact Hc|].
    intros [|j] r' Hj Hr'; simpl in Hr'.
    - injection Hr' as <-. now apply Hne.
    - apply (Hfirst j r'); [lia | exact Hr']. }
  destruct (cell r0 keywordField) as [kw0|] eqn:Hc0.
  - destruct (negb (truthy kw0)) eqn:Ht; simpl in Hin.
    + apply (Hrest seen); [reflexivity | | exact Hin].
      intros _ [= ->]. apply negb_true_iff in Ht.
      destruct (IH seen Hin) as (Hkw & _). apply truthy_nonempty in Hkw.
      congruence.
    + case_bool_decide as Hs.
      * apply (Hrest seen); [reflexivity | | exact Hin].
        intros Hn [= ->]. contradiction.
      * apply elem_of_cons in Hin as [[= -> ->]|Hin].
        -- apply negb_false_iff, truthy_nonempty in Ht.
           split; [exact Ht|]. split; [exact Hs|].
           exists 0%nat. split; [reflexivity|]. split; [exact Hc0|].
           intros j r' Hj. lia.
        -- apply (Hrest ({[kw0]} ∪ seen));
             [apply union_subseteq_r | | exact Hin].
           intros Hn [= ->].
           apply Hn, elem_of_union_l, elem_of_singleton. reflexivity.
  - apply (Hrest seen); [reflexivity | | exact Hin]. intros _. congruence.
Qed.

Lemma keptRows_NoDup (keywordField : string) (data : list row)
    (seen : gset string) :
  NoDup (fst <$> keptRows keywordField seen data).
Proof.
  revert seen. induction data as [|r data IH]; intros seen; simpl.
  { constructor. }
  destruct (cell r keywordField) as [kw|]; [|apply IH].
  destruct (negb (truthy kw) || bool_decide (kw ∈ seen)); [apply IH|].
  rewrite fmap_cons. constructor; [|apply IH].
  intros Hin. apply list_elem_of_fmap in Hin as ([kw' r'] & Heq & Hin).
  simpl in Heq. subst kw'.
  apply keptRows_sound in Hin as (_ & Hseen & _).
  apply Hseen, elem_of_union_l, elem_of_singleton. reflexivity.
Qed.

Lemma keptRows_complete (keywordField : string) (data : list row)
    (seen : gset string) (r : row) (kw : string) :
  r ∈ data -> cell r keywordField = Some kw -> kw <> "" ->
  kw ∈ seen \/ kw ∈ (fst <$> keptRows keywordField seen data).
Proof.
  revert seen. induction data as [|r0 data IH]; intros seen Hin Hc Hkw.
  { inversion Hin. }
  simpl. apply elem_of_cons in Hin as [->|Hin].
  - rewrite Hc. apply truthy_nonempty in Hkw. rewrite Hkw. simpl.
    case_bool_decide; [now left|]. right. rewrite fmap_cons. left.
  - destruct (cell r0 keywordField) as [kw0|]; [|now apply IH].
    destruct (negb (truthy kw0) || bool_decide (kw0 ∈ seen));
      [now apply IH|].
    destruct (IH ({[kw0]} ∪ seen) Hin Hc Hkw) as [H|H].
    + apply elem_of_union in H as [H|H]; [|now left].
      apply elem_of_singleton in H as ->. right. rewrite fmap_cons. left.
    + right. rewrite fmap_cons. now right.
Qed.

Lemma processCSVResults_Ok (data : list row) (out : ParsedAppData) :
  processCSVResults data = Ok out ->
  exists keywordField,
    findKeywordField (hd [] data) = Some keywordField
    /\ keywords out
       = (fun p => buildKeywordData p.1 p.2)
           <$> keptRows keywordField ∅ data.
Proof.
  unfold processCSVResults. destruct data as [|firstRow data]; [discriminate|].
  cbv zeta. case_match; [discriminate|].
  destruct (findKeywordField firstRow) as [keywordField|] eqn:Hkf;
    [|discriminate].
  case_match; [discriminate|].
  pose proof (fold_processRow keywordField (firstRow :: data) ∅ []) as Hf.
  destruct (fold_left _ _ _) as [seen ks]. cbn [snd app] in Hf.
  intros [= <-]. exists keywordField. split; [exact Hkf|]. exact Hf.
Qed.

(** C2. For every input that the flexible parser accepts, the keyword
    column is discovered in the first row, no two returned records have
    the same keyword, every record has a non-empty keyword and is the
    one built from the first row carrying that keyword, and every
    non-empty keyword of the input is represented; so rows with an
    empty or absent keyword, and later rows with a keyword already
    seen, are skipped. *)
Theorem keywords_unique_first_wins (data : list row) (out : ParsedAppData) :
  processCSVResults data = Ok out ->
  exists keywordField,
    findKeywordField (hd [] data) = Some keywordField
    /\ NoDup (keyword <$> keywords out)
    /\ (forall kd, kd ∈ keywords out ->
          keyword kd <> ""
          /\ exists i r,
               data !! i = Some r
               /\ cell r keywordField = Some (keyword kd)
               /\ (forall j r', j < i -> data !! j = Some r' ->
                     cell r' keywordField <> Some (keyword kd))
               /\ kd = buildKeywordData (keyword kd) r)
    /\ (forall r kw, r ∈ data -> cell r keywordField = Some kw ->
          kw <> "" -> kw ∈ (keyword <$> keywords out)).
Proof.
  intros Hok. destruct (processCSVResults_Ok data out Hok) as (kf & Hkf & Hks).
  exists kf. split; [exact Hkf|].
  assert (keyword <$> keywords out = fst <$> keptRows kf ∅ data) as Hkeys.
  { rewrite Hks, <- list_fmap_compose. apply list_fmap_ext.
    intros i [kw r] _. simpl. apply keyword_buildKeywordData. }
  split; [|split].
  - rewrite Hkeys. apply keptRows_NoDup.
  - intros kd Hkd. rewrite Hks in Hkd.
    apply list_elem_of_fmap in Hkd as ([kw r] & -> & Hin). simpl.
    rewrite keyword_buildKeywordData.
    destruct (keptRows_sound kf data ∅ kw r Hin) as (Hkw & _ & i & Hi & Hc & Hf).
    split; [exact Hkw|]. exists i, r. auto.
  - intros r kw Hr Hc Hkw. rewrite Hkeys.
    destruct (keptRows_complete kf data ∅ r kw Hr Hc Hkw) as [H|H];
      [now apply not_elem_of_empty in H | exact H].
Qed.

Lemma processCSVResults_sample : processCSVResults sample_rows = Ok sample_parsed.
Proof. vm_compute. reflexivity. Qed.

Lemma keywords_unique_first_wins_witness :
  processCSVResults sample_rows = Ok sample_parsed
  /\ exists keywordField,
       findKeywordField (hd [] sample_rows) = Some keywordField
       /\ NoDup (keyword <$> keywords sample_parsed)
       /\ (forall kd, kd ∈ keywords sample_parsed ->
             keyword kd <> ""
             /\ exists i r,
                  sample_rows !! i = Some r
                  /\ cell r keywordField = Some (keyword kd)
                  /\ (forall j r', j < i -> sample_rows !! j = Some r' ->
                        cell r' keywordField <> Some (keyword kd))
                  /\ kd = buildKeywordData (keyword kd) r)
       /\ (forall r kw, r ∈ sample_rows -> cell r keywordField = Some kw ->
             kw <> "" -> kw ∈ (keyword <$> keywords sample_parsed)).
Proof.
  split; [exact processCSVResults_sample|].
  apply (keywords_unique_first_wins sample_rows sample_parsed).
  exact processCSVResults_sample.
Defined.

End Deduplication.

(** ** The flexible parser: numeric cells *)

Section NumericCells.
Import Js Types Flexible.
Local Open Scope R_scope.

Lemma parseNumericValue_coerced (value : string) :
  parseNumericValue (inl value) = coerced value.
Proof. reflexivity. Qed.

Lemma numericField_setNumeric (kd : KeywordData) (name name' : string) (n : R) :
  name ∈ numericFields ->
  numericField (setNumeric kd name n) name'
  = if bool_decide (name = name') then Some n else numericField kd name'.
Proof.
  intros Hin. destruct kd. unfold numericFields in Hin.
  repeat (apply elem_of_cons in Hin as [->|Hin]);
    [.. | inversion Hin];
    unfold setNumeric, numericField; simpl;
    repeat (case_bool_decide; subst; try reflexivity; try congruence).
Qed.

Lemma numericField_setOther (kd : KeywordData) (name value name' : string) :
  numericField (setOther kd name value) name' = numericField kd name'.
Proof. destruct kd. reflexivity. Qed.

Lemma numericFields_not_skipped (name : string) :
  name ∈ numericFields ->
  includes_string appFields name || bool_decide (name = "keyword") = false.
Proof.
  intros Hin. unfold numericFields in Hin.
  repeat (apply elem_of_cons in Hin as [->|Hin]);
    [.. | inversion Hin]; vm_compute; reflexivity.
Qed.

Lemma numericField_processField (kd : KeywordData) (column : string * string)
    (name : string) :
  name ∈ numericFields ->
  numericField (processField kd column) name
  = if bool_decide (standardFieldOf column.1 = name ∧ column.2 ≠ "")
    then Some (coerced column.2)
    else numericField kd name.
Proof.
  intros Hin. destruct column as [field value]. unfold processField.
  cbn [fst snd].
  destruct (includes_string appFields (standardFieldOf field)
            || bool_decide (standardFieldOf field = "keyword")) eqn:Hskip.
  { rewrite bool_decide_eq_false_2; [reflexivity|].
    intros [Heq _]. rewrite Heq, numericFields_not_skipped in Hskip by done.
    discriminate. }
  clear Hskip. destruct (decide (value = "")) as [Hempty|Hempty].
  { rewrite (bool_decide_eq_true_2 _ Hempty).
    rewrite bool_decide_eq_false_2; [reflexivity|]. now intros [_ ?]. }
  rewrite (bool_decide_eq_false_2 _ Hempty).
  unfold includes_string.
  destruct (decide (standardFieldOf field ∈ numericFields)) as [Hnum|Hnum].
  - rewrite (bool_decide_eq_true_2 _ Hnum).
    rewrite numericField_setNumeric by exact Hnum.
    rewrite parseNumericValue_coerced.
    destruct (decide (standardFieldOf field = name)) as [Heq|Heq].
    + rewrite (bool_decide_eq_true_2 _ Heq). now rewrite bool_decide_eq_true_2.
    + rewrite (bool_decide_eq_false_2 _ Heq).
      rewrite bool_decide_eq_false_2; [reflexivity|]. now intros [? _].
  - rewrite (bool_decide_eq_false_2 _ Hnum). rewrite numericField_setOther.
    rewrite bool_decide_eq_false_2; [reflexivity|].
    intros [Heq _]. now rewrite Heq in Hnum.
Qed.

Lemma numericField_buildKeywordData (kw : string) (r : row) (name : string) :
  name ∈ numericFields ->
  numericField (buildKeywordData kw r) name = coerced <$> last (cellsFor name r).
Proof.
  intros Hin. unfold buildKeywordData, cellsFor.
  induction r as [|column r IH] using rev_ind.
  - simpl. unfold numericField, newKeywordData. simpl.
    repeat case_bool_decide; reflexivity.
  - rewrite fold_left_app. cbn [fold_left].
    rewrite numericField_processField by exact Hin.
    rewrite (filter_app _ r [column]), fmap_app, filter_cons, filter_nil.
    case_bool_decide as Hc.
    + rewrite decide_True by exact Hc. simpl. now rewrite last_snoc.
    + rewrite decide_False by exact Hc. simpl. now rewrite app_nil_r.
Qed.

(** *** The parser accepts every input with a keyword column *)

Lemma upper_not_space (c : ascii) : is_upper c = true -> Ascii.is_space c = false.
Proof.
  destruct c as [[] [] [] [] [] [] [] []]; vm_compute; congruence.
Qed.

Lemma trimStart_chars_snoc (l : list ascii) (c : ascii) :
  Ascii.is_space c = false -> trimStart_chars (l ++ [c]) <> [].
Proof.
  intros Hc. induction l as [|a l IH]; simpl.
  - now rewrite Hc.
  - destruct (Ascii.is_space a); [exact IH | discriminate].
Qed.

Lemma str_nonempty (l : list ascii) : l <> [] -> str l <> "".
Proof. destruct l; [congruence | discriminate]. Qed.

Lemma trim_nonempty (s : string) (c : ascii) (rest : string) :
  toLowerCase s = String c rest -> Ascii.is_space c = false -> trim s <> "".
Proof.
  intros Hs Hc. destruct s as [|c0 s0]; [discriminate|].
  unfold toLowerCase in Hs. simpl in Hs. injection Hs as Hc0 _.
  assert (Ascii.is_space c0 = false) as Hsp.
  { unfold lower_char in Hc0. destruct (is_upper c0) eqn:Hu.
    - now apply upper_not_space.
    - now subst. }
  unfold trim. simpl. rewrite Hsp. simpl.
  apply str_nonempty. intros Hrev. apply (f_equal (@rev ascii)) in Hrev.
  rewrite rev_involutive in Hrev. simpl in Hrev.
  now apply trimStart_chars_snoc in Hrev.
Qed.

Lemma assoc_fieldMap_keyword (lowerField : string) :
  assoc fieldMap lowerField = Some "keyword" ->
  lowerField ∈ ["keyword"; "term"; "search term"; "query"].
Proof.
  unfold fieldMap. simpl.
  repeat (case_bool_decide;
          [first [discriminate | subst; intros _; set_unfold; tauto]|]).
  discriminate.
Qed.

Lemma findKeywordField_spec (r : row) (keywordField : string) :
  findKeywordField r = Some keywordField ->
  keywordField ∈ keys r
  /\ assoc fieldMap (toLowerCase keywordField) = Some "keyword"
  /\ trim keywordField <> "".
Proof.
  unfold findKeywordField. intros Hfind.
  apply find_some in Hfind as [Hin Hcond]. cbv zeta in Hcond.
  split; [now apply list_elem_of_In|].
  assert (assoc fieldMap (toLowerCase keywordField) = Some "keyword") as Hmap.
  { repeat (apply orb_prop in Hcond as [Hcond|Hcond]);
      apply bool_decide_eq_true_1 in Hcond; try exact Hcond;
      rewrite Hcond; reflexivity. }
  split; [exact Hmap|].
  apply assoc_fieldMap_keyword in Hmap.
  repeat (apply elem_of_cons in Hmap as [Hmap|Hmap]);
    [.. | inversion Hmap];
    eapply trim_nonempty; try exact Hmap; reflexivity.
Qed.

Lemma processCSVResults_accepts (firstRow : row) (data : list row)
    (keywordField : string) :
  findKeywordField firstRow = Some keywordField ->
  exists out, processCSVResults (firstRow :: data) = Ok out.
Proof.
  intros Hfind.
  destruct (findKeywordField_spec firstRow keywordField Hfind)
    as (Hin & Hmap & Htrim).
  unfold processCSVResults. cbv zeta. rewrite Hfind.
  assert (truthy keywordField = true) as ->.
  { destruct keywordField; [|reflexivity]. now contradiction Htrim. }
  cbn [negb].
  match goal with
  | |- context [includes_string ?m "keyword"] =>
      assert (includes_string m "keyword" = false) as ->
  end.
  { unfold includes_string. apply bool_decide_eq_false_2.
    unfold requiredFields. rewrite filter_cons, filter_nil.
    destruct (decide _) as [[_ Hno]|_]; [|apply not_elem_of_nil].
    exfalso. apply Hno, Exists_exists. exists keywordField.
    split; [|exact Hmap]. now apply list_elem_of_filter. }
  destruct (fold_left _ _ _) as [seen ks]. eauto.
Qed.

(** C1 (amended). For every input with a keyword column the parser
    returns; each returned record is built from a row of the input,
    and each of its numeric properties (volume, difficulty,
    currentRank, relevancy, traffic, cpc, maximumReach) is absent when
    the row has no non-empty cell under a header standing for it, and
    otherwise holds the coercion of the last such cell: the text
    without [,], [%] and [$], read by [parseFloat], and [0] when the
    text is malformed. *)
Theorem numeric_cells_coerced (data : list row) (keywordField : string) :
  findKeywordField (hd [] data) = Some keywordField ->
  exists out,
    processCSVResults data = Ok out
    /\ forall kd, kd ∈ keywords out ->
         exists r,
           r ∈ data
           /\ kd = buildKeywordData (keyword kd) r
           /\ forall name, name ∈ numericFields ->
                numericField kd name
                = (fun value =>
                     match parseFloat (stripSymbols value) with
                     | Some n => n
                     | None => 0
                     end) <$> last (cellsFor name r).
Proof.
  intros Hfind. destruct data as [|firstRow data]; [discriminate|].
  destruct (processCSVResults_accepts firstRow data keywordField Hfind)
    as [out Hout].
  exists out. split; [exact Hout|]. intros kd Hkd.
  destruct (processCSVResults_Ok _ _ Hout) as (kf & _ & Hks).
  rewrite Hks in Hkd.
  apply list_elem_of_fmap in Hkd as ([kw r] & -> & Hin). cbn [fst snd].
  rewrite keyword_buildKeywordData.
  destruct (keptRows_sound kf _ ∅ kw r Hin) as (_ & _ & i & Hi & _).
  exists r. split; [now apply list_elem_of_lookup_2 in Hi|].
  split; [reflexivity|]. intros name Hname.
  now rewrite numericField_buildKeywordData.
Qed.

Lemma numeric_cells_coerced_witness :
  findKeywordField (hd [] sample_rows) = Some "Keyword"
  /\ exists out,
       processCSVResults sample_rows = Ok out
       /\ forall kd, kd ∈ keywords out ->
            exists r,
              r ∈ sample_rows
              /\ kd = buildKeywordData (keyword kd) r
              /\ forall name, name ∈ numericFields ->
                   numericField kd name
                   = (fun value =>
                        match parseFloat (stripSymbols value) with
                        | Some n => n
                        | None => 0
                        end) <$> last (cellsFor name r).
Proof.
  split; [vm_compute; reflexivity|].
  apply (numeric_cells_coerced sample_rows "Keyword").
  vm_compute. reflexivity.
Defined.

(** C1 as stated fails for malformed text: the cell [n/a] under
    [Volume] does not parse, and the record has the volume [0], not
    an absent volume. *)
Lemma malformed_cell_stored_as_zero :
  exists out kd,
    parseFloat (stripSymbols "n/a") = None
    /\ processCSVResults [[("Keyword", "yoga"); ("Volume", "n/a")]] = Ok out
    /\ keywords out = [kd]
    /\ volume kd = Some 0
    /\ volume kd <> None.
Proof.
  exists {| appDetails := mkAppDetails None None None None None;
            keywords := [mkKeywordData "yoga" (Some 0) None None None None
                           None None ∅];
            missingFields := [];
            availableFields := ["keyword"; "volume"] |}.
  eexists. split; [vm_compute; reflexivity|].
  split; [vm_compute; reflexivity|].
  split; [reflexivity|]. split; [reflexivity | discriminate].
Qed.

End NumericCells.

(** ** Thematic categories *)

Section Categories.
Import Js Types Analysis.

Lemma occurrences_cons (w x : string) (ws : list string) :
  occurrences w (x :: ws)
  = (if decide (w = x) then 1 else 0) + occurrences w ws.
Proof.
  unfold occurrences. rewrite filter_cons.
  destruct (decide (w = x)); reflexivity.
Qed.

Lemma occurrences_app (w : string) (ws1 ws2 : list string) :
  occurrences w (ws1 ++ ws2) = occurrences w ws1 + occurrences w ws2.
Proof. unfold occurrences. now rewrite filter_app, length_app. Qed.

Lemma occurrences_pos (w : string) (ws : list string) :
  0 < occurrences w ws -> w ∈ ws.
Proof.
  unfold occurrences. intros H.
  destruct (filter (w =.) ws) as [|x l] eqn:Hf; [simpl in H; lia|].
  assert (x ∈ filter (w =.) ws) as Hx by (rewrite Hf; left).
  apply list_elem_of_filter in Hx as [-> Hx]. exact Hx.
Qed.

Lemma countWord_lookup (wf : gmap string nat) (x w : string) :
  countWord wf x !! w
  = if decide (countable x ∧ x = w)
    then Some (default 0 (wf !! w) + 1)
    else wf !! w.
Proof.
  unfold countWord, countable.
  destruct (Nat.ltb_spec 3 (String.length x)) as [Hlen|Hlen]; simpl.
  - case_bool_decide as Hinh.
    + destruct (decide (x = w)) as [->|Hne].
      * rewrite lookup_insert_eq. now rewrite decide_True.
      * rewrite lookup_insert_ne by exact Hne.
        rewrite decide_False; [reflexivity | tauto].
    + rewrite decide_False; [reflexivity | tauto].
  - rewrite decide_False; [reflexivity | lia].
Qed.

Lemma fold_countWord_lookup (ws : list string) (wf : gmap string nat)
    (w : string) :
  fold_left countWord ws wf !! w
  = if decide (countable w ∧ 0 < occurrences w ws)
    then Some (default 0 (wf !! w) + occurrences w ws)
    else wf !! w.
Proof.
  revert wf. induction ws as [|x ws IH]; intros wf; simpl.
  - rewrite decide_False; [reflexivity|]. unfold occurrences. simpl. lia.
  - rewrite IH, countWord_lookup, occurrences_cons.
    destruct (decide (w = x)) as [->|Hne].
    + destruct (decide (countable x)) as [Hc|Hc].
      * rewrite (decide_True (P := countable x ∧ x = x)) by tauto.
        rewrite (decide_True (P := countable x ∧ 0 < 1 + _)) by (split; [tauto|lia]).
        simpl. destruct (decide (countable x ∧ 0 < occurrences x ws)).
        -- f_equal. lia.
        -- f_equal. assert (occurrences x ws = 0) by (destruct (occurrences x ws); [done|]; exfalso; apply n; split; [done|lia]). lia.
      * rewrite !decide_False by tauto. reflexivity.
    + rewrite (decide_False (P := countable x ∧ x = w)) by (intros [_ ->]; done).
      simpl. reflexivity.
Qed.

Lemma fold_keywordWords (keywords : list KeywordData) (wf : gmap string nat) :
  fold_left (fun wordFrequency kw =>
               fold_left countWord (keywordWords kw) wordFrequency)
            keywords wf
  = fold_left countWord (allWords keywords) wf.
Proof.
  revert wf. induction keywords as [|kw keywords IH]; intros wf; simpl.
  - reflexivity.
  - unfold allWords. rewrite fmap_cons. simpl. rewrite fold_left_app. apply IH.
Qed.

Lemma countWords_lookup (keywords : list KeywordData) (w : string) :
  countWords keywords !! w
  = if decide (countable w ∧ 0 < occurrences w (allWords keywords))
    then Some (occurrences w (allWords keywords))
    else None.
Proof.
  unfold countWords. rewrite fold_keywordWords, fold_countWord_lookup.
  rewrite lookup_empty. reflexivity.
Qed.

Lemma themeCategories_lookup (keywords : list KeywordData) (theme : string) :
  themeCategories keywords !! theme
  = if decide (counted keywords theme)
    then Some (themeKeywords keywords theme)
    else None.
Proof.
  unfold themeCategories, counted.
  rewrite map_lookup_imap, countWords_lookup.
  destruct (decide (countable theme ∧ 0 < _)) as [[Hc Hpos]|Hno]; simpl.
  - destruct (decide (2 <= _)) as [H2|H2].
    + rewrite decide_True by tauto. reflexivity.
    + rewrite decide_False by tauto. reflexivity.
  - rewrite decide_False; [reflexivity|]. intros [Hc H2]. apply Hno.
    split; [exact Hc | lia].
Qed.

Lemma categorizedKeywords_spec (keywords : list KeywordData) (k : string) :
  k ∈ categorizedKeywords (themeCategories keywords)
  <-> exists theme kd,
        counted keywords theme
        /\ kd ∈ themeKeywords keywords theme
        /\ keyword kd = k.
Proof.
  unfold categorizedKeywords.
  rewrite elem_of_list_to_set, list_elem_of_fmap. split.
  - intros (kd & -> & Hkd).
    apply list_elem_of_join in Hkd as (l & Hkd & Hl).
    apply list_elem_of_fmap in Hl as ([theme l'] & -> & Hl).
    apply elem_of_map_to_list in Hl. rewrite themeCategories_lookup in Hl.
    destruct (decide (counted keywords theme)); [|discriminate].
    injection Hl as <-. exists theme, kd. auto.
  - intros (theme & kd & Hth & Hkd & <-). exists kd. split; [reflexivity|].
    apply list_elem_of_join. exists (themeKeywords keywords theme).
    split; [exact Hkd|].
    apply list_elem_of_fmap. exists (theme, themeKeywords keywords theme).
    split; [reflexivity|]. apply elem_of_map_to_list.
    rewrite themeCategories_lookup. now rewrite decide_True.
Qed.

Lemma categorized_iff_matchesTheme (keywords : list KeywordData)
    (kd : KeywordData) :
  kd ∈ keywords ->
  keyword kd ∈ categorizedKeywords (themeCategories keywords)
  <-> containsCounted keywords kd.
Proof.
  intros Hin. rewrite categorizedKeywords_spec. unfold containsCounted.
  rewrite list.Exists_exists. split.
  - intros (theme & kd' & Hth & Hkd' & Heq).
    exists theme. split.
    + apply occurrences_pos. destruct Hth as [_ H2]. lia.
    + split; [exact Hth|]. unfold themeKeywords in Hkd'.
      apply list_elem_of_filter in Hkd' as [Hinc _]. now rewrite <- Heq.
  - intros (theme & _ & Hth & Hinc). exists theme, kd.
    split; [exact Hth|]. split; [|reflexivity].
    unfold themeKeywords. now apply list_elem_of_filter.
Qed.

Lemma filter_iff_on {A : Type} (P Q : A -> Prop)
    `{!forall x, Decision (P x), !forall x, Decision (Q x)} (l : list A) :
  (forall x, x ∈ l -> P x <-> Q x) -> filter P l = filter Q l.
Proof.
  induction l as [|a l IH]; intros Hiff; [reflexivity|].
  rewrite !filter_cons.
  rewrite IH by (intros x Hx; apply Hiff; now right).
  destruct (decide (P a)) as [Hp|Hp].
  - rewrite decide_True; [reflexivity|]. apply Hiff; [left | exact Hp].
  - rewrite decide_False; [reflexivity|].
    intros Hq. apply Hp, Hiff; [left | exact Hq].
Qed.

Lemma other_members (keywords : list KeywordData) :
  filter (fun kw => keyword kw
                    ∉ categorizedKeywords (themeCategories keywords))
         keywords
  = withoutCounted keywords.
Proof.
  unfold withoutCounted. apply filter_iff_on. intros kd Hkd.
  now rewrite (categorized_iff_matchesTheme keywords kd Hkd).
Qed.

Lemma categorizeKeywords_other (keywords : list KeywordData) :
  categorizeKeywords keywords !! "other"
  = if decide (2 <= length (withoutCounted keywords))
    then Some (withoutCounted keywords)
    else None.
Proof.
  unfold categorizeKeywords. cbv zeta.
  rewrite map_lookup_filter, lookup_insert_eq, other_members. simpl.
  destruct (decide (2 <= length (withoutCounted keywords))) as [H|H].
  - rewrite option_guard_True by lia. reflexivity.
  - rewrite option_guard_False by lia. reflexivity.
Qed.

Lemma categorizeKeywords_theme (keywords : list KeywordData) (theme : string) :
  theme <> "other" ->
  categorizeKeywords keywords !! theme
  = if decide (counted keywords theme
               ∧ 2 <= length (themeKeywords keywords theme))
    then Some (themeKeywords keywords theme)
    else None.
Proof.
  intros Hne. unfold categorizeKeywords. cbv zeta.
  rewrite map_lookup_filter, lookup_insert_ne by congruence.
  rewrite themeCategories_lookup.
  destruct (decide (counted keywords theme)) as [Ht|Ht]; simpl.
  - destruct (decide (2 <= length (themeKeywords keywords theme))) as [H|H].
    + rewrite option_guard_True by lia. now rewrite decide_True.
    + rewrite option_guard_False by lia. rewrite decide_False by tauto.
      reflexivity.
  - rewrite decide_False by tauto. reflexivity.
Qed.

Lemma categorizeKeywords_size (keywords : list KeywordData)
    (category : string) (members : list KeywordData) :
  categorizeKeywords keywords !! category = Some members ->
  2 <= length members.
Proof.
  unfold categorizeKeywords. cbv zeta. intros H.
  apply map_lookup_filter_Some in H as [_ H]. simpl in H. lia.
Qed.

(** *** The count of the code and the keywords that share a token *)

Lemma NoDup_occurrences (w : string) (ws : list string) :
  NoDup ws -> occurrences w ws = if decide (w ∈ ws) then 1 else 0.
Proof.
  induction 1 as [|x ws Hx _ IH]; [reflexivity|].
  rewrite occurrences_cons, IH.
  destruct (decide (w = x)) as [->|Hne].
  - rewrite (decide_False (P := x ∈ ws)) by exact Hx.
    rewrite decide_True by apply list_elem_of_here. reflexivity.
  - destruct (decide (w ∈ ws)) as [Hin|Hin].
    + rewrite decide_True by (now apply list_elem_of_further). reflexivity.
    + rewrite decide_False; [reflexivity|].
      intros Hin'. apply elem_of_cons in Hin' as [?|?]; contradiction.
Qed.

Lemma occurrences_long (w : string) (ws : list string) :
  3 < String.length w ->
  occurrences w ws
  = occurrences w (filter (fun x => 3 < String.length x) ws).
Proof.
  intros Hlong. induction ws as [|x ws IH]; [reflexivity|].
  rewrite filter_cons, occurrences_cons, IH.
  destruct (decide (3 < String.length x)) as [Hx|Hx].
  - now rewrite occurrences_cons.
  - rewrite decide_False; [reflexivity|]. now intros ->.
Qed.

Lemma occurrences_plainKeyword (w : string) (kd : KeywordData) :
  plainKeyword kd -> 3 < String.length w ->
  occurrences w (keywordWords kd)
  = if decide (w ∈ keywordWords kd) then 1 else 0.
Proof.
  intros (_ & Hnodup & _) Hlong.
  rewrite (occurrences_long w _ Hlong), (NoDup_occurrences w _ Hnodup).
  destruct (decide (w ∈ keywordWords kd)) as [Hin|Hin].
  - rewrite decide_True; [reflexivity|]. now apply list_elem_of_filter.
  - rewrite decide_False; [reflexivity|].
    intros Hin'. now apply list_elem_of_filter in Hin' as [_ ?].
Qed.

Lemma occurrences_keywordsWith (keywords : list KeywordData) (w : string) :
  Forall plainKeyword keywords -> 3 < String.length w ->
  occurrences w (allWords keywords) = length (keywordsWith keywords w).
Proof.
  intros Hplain Hlong.
  induction Hplain as [|kd keywords Hkd _ IH]; [reflexivity|].
  change (allWords (kd :: keywords))
    with (keywordWords kd ++ allWords keywords).
  rewrite occurrences_app, IH.
  rewrite (occurrences_plainKeyword w kd Hkd Hlong).
  unfold keywordsWith. rewrite filter_cons.
  destruct (decide (w ∈ keywordWords kd)); reflexivity.
Qed.

Lemma keywordsWith_token (keywords : list KeywordData) (w : string) :
  0 < length (keywordsWith keywords w) ->
  exists kd, kd ∈ keywords /\ w ∈ keywordWords kd.
Proof.
  unfold keywordsWith. intros Hlen.
  destruct (filter _ keywords) as [|kd l] eqn:Hfilter; [simpl in Hlen; lia|].
  assert (kd ∈ filter (fun kd => w ∈ keywordWords kd) keywords) as Hkd
    by (rewrite Hfilter; apply list_elem_of_here).
  apply list_elem_of_filter in Hkd as [Hw Hkd]. now exists kd.
Qed.

Lemma counted_iff_isTheme (keywords : list KeywordData) (w : string) :
  Forall plainKeyword keywords ->
  counted keywords w <-> isTheme keywords w.
Proof.
  intros Hplain. unfold counted, isTheme, countable. split.
  - intros [[Hlong _] Hcount].
    rewrite (occurrences_keywordsWith _ _ Hplain Hlong) in Hcount. tauto.
  - intros [Hlong Hshared].
    rewrite (occurrences_keywordsWith _ _ Hplain Hlong).
    split; [split; [exact Hlong|] | exact Hshared].
    destruct (keywordsWith_token keywords w) as (kd & Hkd & Hw); [lia|].
    rewrite Forall_forall in Hplain.
    destruct (Hplain kd Hkd) as (_ & _ & Hown).
    rewrite Forall_forall in Hown. now apply Hown.
Qed.

Lemma containsCounted_iff_matchesTheme (keywords : list KeywordData)
    (kd : KeywordData) :
  Forall plainKeyword keywords ->
  containsCounted keywords kd <-> matchesTheme keywords kd.
Proof.
  intros Hplain. unfold containsCounted, matchesTheme.
  rewrite !list.Exists_exists.
  split; intros (w & Hw & Htheme & Hinc); exists w;
    (split; [exact Hw|]); (split; [|exact Hinc]);
    now apply (counted_iff_isTheme keywords w Hplain).
Qed.

Lemma withoutCounted_unmatched (keywords : list KeywordData) :
  Forall plainKeyword keywords ->
  withoutCounted keywords = unmatched keywords.
Proof.
  intros Hplain. unfold withoutCounted, unmatched.
  apply filter_iff_on. intros kd _.
  now rewrite (containsCounted_iff_matchesTheme keywords kd Hplain).
Qed.

(** C6 (amended). After thematic categorization every category that
    ends up with fewer than 2 member keywords is dropped, the ["other"]
    bucket included: every category that is left has at least 2
    members.  The keywords that match no theme (a theme is a token
    longer than 3 characters that at least 2 keywords share,
    case-insensitively; a keyword matches it when it contains it) make
    up the ["other"] bucket, in input order, when there are at least 2
    of them; when fewer than 2 keywords match no theme there is no
    ["other"] bucket.  A theme other than ["other"] is kept, with the
    keywords that match it, when at least 2 keywords match it.  This
    is stated for keywords in ASCII in which no token is repeated
    within one keyword and no token is [constructor] or [__proto__]. *)
Theorem other_bucket_and_small_categories (keywords : list KeywordData) :
  Forall plainKeyword keywords ->
  categorizeKeywords keywords !! "other"
  = (if decide (2 <= length (unmatched keywords))
     then Some (unmatched keywords)
     else None)
  /\ (forall kd, kd ∈ unmatched keywords
                 <-> kd ∈ keywords /\ ¬ matchesTheme keywords kd)
  /\ (forall category members,
        categorizeKeywords keywords !! category = Some members ->
        2 <= length members)
  /\ (forall theme, theme <> "other" ->
        categorizeKeywords keywords !! theme
        = if decide (isTheme keywords theme
                     ∧ 2 <= length (themeKeywords keywords theme))
          then Some (themeKeywords keywords theme)
          else None).
Proof.
  intros Hplain.
  split; [|split; [|split]].
  - rewrite categorizeKeywords_other.
    now rewrite (withoutCounted_unmatched keywords Hplain).
  - intros kd. unfold unmatched. rewrite list_elem_of_filter. tauto.
  - apply categorizeKeywords_size.
  - intros theme Hother. rewrite (categorizeKeywords_theme _ _ Hother).
    pose proof (counted_iff_isTheme keywords theme Hplain) as Hiff.
    destruct (decide (counted keywords theme ∧ _)) as [Hyes|Hno].
    + rewrite decide_True; [reflexivity | tauto].
    + rewrite decide_False; [reflexivity | tauto].
Qed.

Lemma sample_keywords_plain : Forall plainKeyword sample_keywords.
Proof.
  unfold sample_keywords. cbn [fmap list_fmap].
  repeat (constructor;
          [ split; [|split];
            [ unfold asciiText; vm_compute; repeat constructor
            | apply (bool_decide_eq_true_1 _); vm_compute; reflexivity
            | apply (bool_decide_eq_true_1 _); vm_compute; reflexivity ] |]).
  constructor.
Qed.

Lemma other_bucket_and_small_categories_witness :
  Forall plainKeyword sample_keywords
  /\ categorizeKeywords sample_keywords !! "other"
     = (if decide (2 <= length (unmatched sample_keywords))
        then Some (unmatched sample_keywords)
        else None)
  /\ (forall kd, kd ∈ unmatched sample_keywords
                 <-> kd ∈ sample_keywords
                     /\ ¬ matchesTheme sample_keywords kd)
  /\ (forall category members,
        categorizeKeywords sample_keywords !! category = Some members ->
        2 <= length members)
  /\ (forall theme, theme <> "other" ->
        categorizeKeywords sample_keywords !! theme
        = if decide (isTheme sample_keywords theme
                     ∧ 2 <= length (themeKeywords sample_keywords theme))
          then Some (themeKeywords sample_keywords theme)
          else None).
Proof.
  split; [exact sample_keywords_plain|].
  apply (other_bucket_and_small_categories sample_keywords).
  exact sample_keywords_plain.
Defined.

(** C6 as stated fails: ["yoga"] matches no theme, yet the result has no
    ["other"] bucket, and ["yoga"] is in no category at all. *)
Lemma single_unmatched_keyword_is_dropped :
  ¬ matchesTheme sample_keywords (newKeywordData "yoga")
  /\ categorizeKeywords sample_keywords !! "other" = None
  /\ categorizeKeywords sample_keywords
     = {[ "fitness" := newKeywordData <$> ["fitness tracker"; "Fitness app"] ]}
  /\ (forall category members,
        categorizeKeywords sample_keywords !! category = Some members ->
        newKeywordData "yoga" ∉ members).
Proof.
  assert (categorizeKeywords sample_keywords
          = {[ "fitness" := newKeywordData
                              <$> ["fitness tracker"; "Fitness app"] ]}) as Heq.
  { vm_compute. reflexivity. }
  split; [|split; [|split]].
  - apply (bool_decide_eq_false_1 _). vm_compute. reflexivity.
  - rewrite Heq. reflexivity.
  - exact Heq.
  - intros category members. rewrite Heq. intros H.
    apply lookup_singleton_Some in H as [_ <-].
    intros Hin. apply list_elem_of_fmap in Hin as (k & Hk & Hin).
    injection Hk as <-.
    repeat (apply elem_of_cons in Hin as [Hin|Hin]; [discriminate|]).
    inversion Hin.
Qed.

End Categories.

(** ** The insight aggregator does not touch its input or the random
    source *)

Section Determinism.
Import Js Types Runtime Analysis.

Lemma lookup_fresh {A : Type} (l fresh : list A) (k : nat) :
  (l ++ fresh) !! (length l + k) = fresh !! k.
Proof.
  rewrite lookup_app_r by lia. f_equal. lia.
Qed.

Lemma topFive_run (p : KeywordData -> bool) (a : Array) (w : World)
    (l : list KeywordData) :
  arrays w !! a = Some l ->
  topFive p a w
  = (S (length (arrays w)),
     mkWorld (randomSource w)
             (arrays w ++ [sorted byVolumeDescending (List.filter p l);
                           top p l])).
Proof.
  intros Ha.
  unfold topFive, array_filter, array_sort, array_slice, array_read,
    array_write, array_new, bind, ret. cbn [arrays randomSource].
  rewrite Ha. cbn [default].
  rewrite (list_lookup_middle (arrays w) [] _ (length (arrays w))) by reflexivity.
  cbn [default].
  rewrite (insert_app_r_alt (arrays w) _ (length (arrays w))) by lia.
  rewrite Nat.sub_diag. cbn [insert list_insert].
  rewrite (list_lookup_middle (arrays w) [] _ (length (arrays w))) by reflexivity.
  cbn [default]. rewrite length_app. cbn [length].
  rewrite <- app_assoc. cbn [app].
  f_equal. lia.
Qed.

Lemma generateKeywordInsights_run (appData : ParsedAppData) (w : World)
    (l : list KeywordData) :
  arrays w !! keywords appData = Some l ->
  exists fresh,
    generateKeywordInsights appData w
    = (insightsOf (appDetails appData) l,
       mkWorld (randomSource w) (arrays w ++ fresh)).
Proof.
  intros Ha.
  assert (forall fresh, (arrays w ++ fresh) !! keywords appData = Some l)
    as Hkeep.
  { intros fresh. rewrite lookup_app_l; [exact Ha|].
    now apply lookup_lt_Some in Ha. }
  set (n := length (arrays w)).
  set (s p := sorted byVolumeDescending (List.filter p l)).
  exists [s isTrending; top isTrending l;
          s isLowCompetition; top isLowCompetition l;
          s hasVolume; top hasVolume l;
          s isUnderperforming; top isUnderperforming l].
  unfold generateKeywordInsights. cbv zeta.
  unfold bind at 1. unfold array_read at 1. rewrite Ha. cbn [default].
  unfold bind at 1. rewrite (topFive_run isTrending _ w l Ha).
  unfold bind at 1.
  rewrite (topFive_run isLowCompetition _ _ l) by apply Hkeep.
  cbn [arrays randomSource]. rewrite <- app_assoc. cbn [app].
  unfold bind at 1.
  rewrite (topFive_run hasVolume _ _ l) by apply Hkeep.
  cbn [arrays randomSource]. rewrite <- app_assoc. cbn [app].
  unfold bind at 1.
  rewrite (topFive_run isUnderperforming _ _ l) by apply Hkeep.
  cbn [arrays randomSource]. rewrite <- app_assoc. cbn [app].
  rewrite !length_app. cbn [length]. fold n. fold (s isTrending).
  fold (s isLowCompetition). fold (s hasVolume). fold (s isUnderperforming).
  unfold bind, array_read, ret. cbn [arrays randomSource].
  rewrite Hkeep. cbn [default].
  replace (S n) with (n + 1)%nat by lia.
  replace (S (n + 2)) with (n + 3)%nat by lia.
  replace (S (n + 4)) with (n + 5)%nat by lia.
  replace (S (n + 6)) with (n + 7)%nat by lia.
  unfold n. rewrite !lookup_fresh. reflexivity.
Qed.

(** C8. Two runs of the insight aggregator on the same dataset, from any
    two states of the world, return the same insights (lists,
    categories and summary); a run draws nothing from the random source
    and leaves every array that existed before it, the dataset
    included, as it was. *)
Theorem generateKeywordInsights_deterministic
    (appData : ParsedAppData) (dataset : list KeywordData) (w1 w2 : World) :
  arrays w1 !! keywords appData = Some dataset ->
  arrays w2 !! keywords appData = Some dataset ->
  fst (generateKeywordInsights appData w1)
  = fst (generateKeywordInsights appData w2)
  /\ randomSource (snd (generateKeywordInsights appData w1)) = randomSource w1
  /\ (forall a, a < length (arrays w1) ->
        arrays (snd (generateKeywordInsights appData w1)) !! a
        = arrays w1 !! a)
  /\ arrays (snd (generateKeywordInsights appData w1)) !! keywords appData
     = Some dataset.
Proof.
  intros H1 H2.
  destruct (generateKeywordInsights_run appData w1 dataset H1) as [f1 ->].
  destruct (generateKeywordInsights_run appData w2 dataset H2) as [f2 ->].
  cbn [fst snd arrays randomSource].
  split; [reflexivity|]. split; [reflexivity|]. split.
  - intros a Ha. now rewrite lookup_app_l.
  - rewrite lookup_app_l; [exact H1|]. now apply lookup_lt_Some in H1.
Qed.

Lemma generateKeywordInsights_deterministic_witness :
  (arrays sample_world_1 !! keywords sample_appData = Some sample_dataset
   /\ arrays sample_world_2 !! keywords sample_appData = Some sample_dataset)
  /\ fst (generateKeywordInsights sample_appData sample_world_1)
     = fst (generateKeywordInsights sample_appData sample_world_2)
  /\ randomSource (snd (generateKeywordInsights sample_appData sample_world_1))
     = randomSource sample_world_1
  /\ (forall a, a < length (arrays sample_world_1) ->
        arrays (snd (generateKeywordInsights sample_appData sample_world_1))
          !! a
        = arrays sample_world_1 !! a)
  /\ arrays (snd (generateKeywordInsights sample_appData sample_world_1))
       !! keywords sample_appData
     = Some sample_dataset.
Proof.
  split; [split; reflexivity|].
  apply (generateKeywordInsights_deterministic
           sample_appData sample_dataset sample_world_1 sample_world_2);
    reflexivity.
Defined.

End Determinism.

(** ** Predictions and the random source *)

Section Predictions.
Import Js Types Runtime Prediction.
Local Open Scope R_scope.

Lemma getKeywordMetrics_run (data : KeywordData) (w : World) :
  getKeywordMetrics data w
  = ({| Metrics.currentRank :=
          nullish (Types.currentRank data)
                  (Math_floor (randomSource w 0%nat * 100) + 1);
        Metrics.volume :=
          nullish (Types.volume data)
                  (Math_floor (randomSource w 1%nat * 1000) + 100);
        Metrics.difficulty :=
          nullish (Types.difficulty data)
                  (Math_floor (randomSource w 2%nat * 100)) |},
     mkWorld (fun n => randomSource w (S (S (S n)))) (arrays w)).
Proof. reflexivity. Qed.

Lemma getKeywordMetrics_complete (data : KeywordData) (w1 w2 : World) :
  complete data ->
  fst (getKeywordMetrics data w1) = fst (getKeywordMetrics data w2).
Proof.
  intros ([r Hr] & [v Hv] & [d Hd]). rewrite !getKeywordMetrics_run.
  cbn [fst]. rewrite Hr, Hv, Hd. reflexivity.
Qed.

Lemma predict_complete (targetRanks : TargetRanks) (data : KeywordData)
    (w1 w2 : World) :
  complete data ->
  fst (predict targetRanks data w1) = fst (predict targetRanks data w2).
Proof.
  intros Hc. unfold predict, bind, ret.
  pose proof (getKeywordMetrics_complete data w1 w2 Hc) as Hm.
  destruct (getKeywordMetrics data w1) as [m1 w1'].
  destruct (getKeywordMetrics data w2) as [m2 w2'].
  cbn [fst] in *. now subst m2.
Qed.

Lemma generatePredictions_complete (keywordData : list KeywordData)
    (targetRanks : TargetRanks) (w1 w2 : World) :
  Forall complete keywordData ->
  fst (generatePredictions keywordData targetRanks w1)
  = fst (generatePredictions keywordData targetRanks w2).
Proof.
  unfold generatePredictions. intros Hall. revert w1 w2.
  induction Hall as [|data keywordData Hc _ IH]; intros w1 w2.
  - reflexivity.
  - cbn [mapM]. unfold bind, ret.
    pose proof (predict_complete targetRanks data w1 w2 Hc) as Hp.
    destruct (predict targetRanks data w1) as [p1 w1'].
    destruct (predict targetRanks data w2) as [p2 w2'].
    cbn [fst] in Hp. subst p2.
    specialize (IH w1' w2').
    destruct (mapM (predict targetRanks) keywordData w1') as [l1 w1''].
    destruct (mapM (predict targetRanks) keywordData w2') as [l2 w2''].
    cbn [fst] in *. now subst l2.
Qed.

Lemma Math_floor_IZR (z : Z) (x : R) : x = IZR z -> Math_floor x = IZR z.
Proof. intros ->. unfold Math_floor. now rewrite ZfloorZ. Qed.

Lemma Math_round_IZR (z : Z) (x : R) : x = IZR z -> Math_round x = IZR z.
Proof. intros ->. apply Math_round_eq. lra. Qed.

Lemma calculatePredictedRank_value (currentRank targetRank difficulty : R)
    (z : Z) :
  0 <= difficulty <= 100 ->
  currentRank - (currentRank - targetRank) * ((100 - difficulty) / 100)
  = IZR z ->
  (1 <= z)%Z ->
  calculatePredictedRank currentRank targetRank difficulty = IZR z.
Proof.
  intros Hd Hz H1. unfold calculatePredictedRank, Math_min, Math_max.
  cbv zeta. rewrite Rmin_right by lra.
  rewrite (Math_round_IZR z) by exact Hz.
  apply Rmax_right. now apply IZR_le.
Qed.

Lemma calculatePredictedInstalls_same (volume rank : R) (z : Z) :
  volume = IZR z -> calculatePredictedInstalls volume rank rank = IZR z.
Proof.
  intros ->. unfold calculatePredictedInstalls, Math_pow. cbv zeta.
  replace ((rank - rank) / 10) with 0 by lra.
  rewrite Rpower_O by lra. apply Math_round_IZR. lra.
Qed.

Lemma calculatePredictedInstalls_ten (volume rank predicted : R) (z : Z) :
  rank - predicted = 10 -> volume * 1.2 = IZR z ->
  calculatePredictedInstalls volume rank predicted = IZR z.
Proof.
  intros Hr Hv. unfold calculatePredictedInstalls, Math_pow. cbv zeta.
  rewrite Hr. replace (10 / 10) with 1 by lra.
  rewrite Rpower_1 by lra. now apply Math_round_IZR.
Qed.

Lemma generatePredictions_single (data : KeywordData)
    (targetRanks : TargetRanks) (w : World) :
  fst (generatePredictions [data] targetRanks w)
  = [fst (predict targetRanks data w)].
Proof.
  unfold generatePredictions. cbn [mapM]. unfold bind, ret.
  destruct (predict targetRanks data w) as [p w']. reflexivity.
Qed.

(** The prediction for one record, from the three numbers drawn. *)
Lemma predict_result (targetRanks : TargetRanks) (data : KeywordData)
    (w : World) :
  let rank :=
    nullish (Types.currentRank data)
            (Math_floor (randomSource w 0%nat * 100) + 1) in
  let volume :=
    nullish (Types.volume data)
            (Math_floor (randomSource w 1%nat * 1000) + 100) in
  let difficulty :=
    nullish (Types.difficulty data)
            (Math_floor (randomSource w 2%nat * 100)) in
  let ranks :=
    {| threeMonths :=
         calculatePredictedRank rank (threeMonths targetRanks) difficulty;
       sixMonths :=
         calculatePredictedRank rank (sixMonths targetRanks) difficulty;
       nineMonths :=
         calculatePredictedRank rank (nineMonths targetRanks) difficulty;
       twelveMonths :=
         calculatePredictedRank rank (twelveMonths targetRanks) difficulty |} in
  fst (predict targetRanks data w)
  = {| keyword := Types.keyword data;
       currentRank := rank;
       predictedRanks := ranks;
       predictedInstalls :=
         {| threeMonths :=
              calculatePredictedInstalls volume rank (threeMonths ranks);
            sixMonths :=
              calculatePredictedInstalls volume rank (sixMonths ranks);
            nineMonths :=
              calculatePredictedInstalls volume rank (nineMonths ranks);
            twelveMonths :=
              calculatePredictedInstalls volume rank (twelveMonths ranks) |} |}.
Proof. reflexivity. Qed.

Lemma predict_constant (data : KeywordData) (target x : R)
    (rank volume difficulty predicted installs : Z) :
  nullish (Types.currentRank data) (Math_floor (x * 100) + 1) = IZR rank ->
  nullish (Types.volume data) (Math_floor (x * 1000) + 100) = IZR volume ->
  nullish (Types.difficulty data) (Math_floor (x * 100)) = IZR difficulty ->
  calculatePredictedRank (IZR rank) target (IZR difficulty) = IZR predicted ->
  calculatePredictedInstalls (IZR volume) (IZR rank) (IZR predicted)
  = IZR installs ->
  fst (generatePredictions [data] (allRanks target) (constantWorld x))
  = [ {| keyword := Types.keyword data;
         currentRank := IZR rank;
         predictedRanks := allRanks (IZR predicted);
         predictedInstalls := allRanks (IZR installs) |} ].
Proof.
  intros Hr Hv Hd Hp Hi.
  rewrite generatePredictions_single, predict_result.
  cbv zeta. unfold constantWorld, allRanks.
  cbn [randomSource threeMonths sixMonths nineMonths twelveMonths].
  rewrite Hr, Hv, Hd, Hp, Hi. reflexivity.
Qed.

Lemma unranked_run_low :
  fst (generatePredictions [unrankedKeyword] (allRanks 1) (constantWorld 0))
  = [ mkPredictionResult "fitness tracker" 1 (allRanks 1) (allRanks 100) ].
Proof.
  apply (predict_constant unrankedKeyword 1 0 1 100 50 1 100).
  - cbn [nullish unrankedKeyword Types.currentRank].
    rewrite (Math_floor_IZR 0) by lra. lra.
  - reflexivity.
  - reflexivity.
  - apply calculatePredictedRank_value; [lra | lra | lia].
  - now apply calculatePredictedInstalls_same.
Qed.

Lemma unranked_run_high :
  fst (generatePredictions [unrankedKeyword] (allRanks 1) (constantWorld 0.2))
  = [ mkPredictionResult "fitness tracker" 21 (allRanks 11) (allRanks 120) ].
Proof.
  apply (predict_constant unrankedKeyword 1 0.2 21 100 50 11 120).
  - cbn [nullish unrankedKeyword Types.currentRank].
    rewrite (Math_floor_IZR 20) by lra. lra.
  - reflexivity.
  - reflexivity.
  - apply calculatePredictedRank_value; [lra | lra | lia].
  - apply calculatePredictedInstalls_ten; lra.
Qed.

Lemma unmeasured_run_low :
  fst (generatePredictions [unmeasuredKeyword] (allRanks 10) (constantWorld 0))
  = [ mkPredictionResult "fitness tracker" 10 (allRanks 10) (allRanks 100) ].
Proof.
  apply (predict_constant unmeasuredKeyword 10 0 10 100 50 10 100).
  - reflexivity.
  - cbn [nullish unmeasuredKeyword Types.volume].
    rewrite (Math_floor_IZR 0) by lra. lra.
  - reflexivity.
  - apply calculatePredictedRank_value; [lra | lra | lia].
  - now apply calculatePredictedInstalls_same.
Qed.

Lemma unmeasured_run_high :
  fst (generatePredictions [unmeasuredKeyword] (allRanks 10)
         (constantWorld 0.2))
  = [ mkPredictionResult "fitness tracker" 10 (allRanks 10) (allRanks 300) ].
Proof.
  apply (predict_constant unmeasuredKeyword 10 0.2 10 300 50 10 300).
  - reflexivity.
  - cbn [nullish unmeasuredKeyword Types.volume].
    rewrite (Math_floor_IZR 200) by lra. lra.
  - reflexivity.
  - apply calculatePredictedRank_value; [lra | lra | lia].
  - now apply calculatePredictedInstalls_same.
Qed.

Lemma calculatePredictedInstalls_twenty (volume rank predicted : R) (z : Z) :
  rank - predicted = 20 -> volume * 1.44 = IZR z ->
  calculatePredictedInstalls volume rank predicted = IZR z.
Proof.
  intros Hr Hv. unfold calculatePredictedInstalls, Math_pow. cbv zeta.
  rewrite Hr. replace (20 / 10) with (INR 2) by (simpl; lra).
  rewrite Rpower_pow by lra. apply Math_round_IZR. rewrite <- Hv. lra.
Qed.

Lemma unrated_run_low :
  fst (generatePredictions [unratedKeyword] (allRanks 1) (constantWorld 0))
  = [ mkPredictionResult "fitness tracker" 21 (allRanks 1) (allRanks 144) ].
Proof.
  apply (predict_constant unratedKeyword 1 0 21 100 0 1 144).
  - reflexivity.
  - reflexivity.
  - cbn [nullish unratedKeyword Types.difficulty].
    now rewrite (Math_floor_IZR 0) by lra.
  - apply calculatePredictedRank_value; [lra | lra | lia].
  - apply calculatePredictedInstalls_twenty; lra.
Qed.

Lemma unrated_run_high :
  fst (generatePredictions [unratedKeyword] (allRanks 1) (constantWorld 0.5))
  = [ mkPredictionResult "fitness tracker" 21 (allRanks 11) (allRanks 120) ].
Proof.
  apply (predict_constant unratedKeyword 1 0.5 21 100 50 11 120).
  - reflexivity.
  - reflexivity.
  - cbn [nullish unratedKeyword Types.difficulty].
    now rewrite (Math_floor_IZR 50) by lra.
  - apply calculatePredictedRank_value; [lra | lra | lia].
  - apply calculatePredictedInstalls_ten; lra.
Qed.

Lemma allRanks_neq (a b : R) : a <> b -> allRanks a <> allRanks b.
Proof. intros Hne H. injection H as ->. contradiction. Qed.

(** C10. The result of [generatePredictions] depends on the random
    source when a metric is absent: for a record without current rank,
    two runs that differ only in the numbers drawn give different
    predicted ranks and different predicted installs; the same happens
    to the installs for a record without volume, and to the ranks and
    installs for a record without difficulty.  When every record has
    its three metrics, the result is the same whatever is drawn. *)
Theorem generatePredictions_randomness :
  (¬ complete unrankedKeyword
   /\ differOn unrankedKeyword (allRanks 1)
        (constantWorld 0) (constantWorld 0.2) predictedRanks
   /\ differOn unrankedKeyword (allRanks 1)
        (constantWorld 0) (constantWorld 0.2) predictedInstalls)
  /\ (¬ complete unmeasuredKeyword
      /\ differOn unmeasuredKeyword (allRanks 10)
           (constantWorld 0) (constantWorld 0.2) predictedInstalls)
  /\ (¬ complete unratedKeyword
      /\ differOn unratedKeyword (allRanks 1)
           (constantWorld 0) (constantWorld 0.5) predictedRanks
      /\ differOn unratedKeyword (allRanks 1)
           (constantWorld 0) (constantWorld 0.5) predictedInstalls)
  /\ (forall (keywordData : list KeywordData) (targetRanks : TargetRanks)
             (w1 w2 : World),
        Forall complete keywordData ->
        fst (generatePredictions keywordData targetRanks w1)
        = fst (generatePredictions keywordData targetRanks w2)).
Proof.
  assert (forall data, (Types.currentRank data = None
                        \/ Types.volume data = None
                        \/ Types.difficulty data = None) ->
                       ¬ complete data) as Hincomplete.
  { intros data H ([? Hr] & [? Hv] & [? Hd]).
    destruct H as [H|[H|H]]; congruence. }
  repeat split.
  - apply Hincomplete. now left.
  - eexists _, _. split; [apply unranked_run_low|].
    split; [apply unranked_run_high|]. apply allRanks_neq. lra.
  - eexists _, _. split; [apply unranked_run_low|].
    split; [apply unranked_run_high|]. apply allRanks_neq. lra.
  - apply Hincomplete. right. now left.
  - eexists _, _. split; [apply unmeasured_run_low|].
    split; [apply unmeasured_run_high|]. apply allRanks_neq. lra.
  - apply Hincomplete. right. now right.
  - eexists _, _. split; [apply unrated_run_low|].
    split; [apply unrated_run_high|]. apply allRanks_neq. lra.
  - eexists _, _. split; [apply unrated_run_low|].
    split; [apply unrated_run_high|]. apply allRanks_neq. lra.
  - apply generatePredictions_complete.
Qed.

Lemma generatePredictions_randomness_witness :
  Forall complete [measuredKeyword]
  /\ fst (generatePredictions [measuredKeyword] (allRanks 1) (constantWorld 0))
     = fst (generatePredictions [measuredKeyword] (allRanks 1)
              (constantWorld 0.2)).
Proof.
  assert (Forall complete [measuredKeyword]) as Hall.
  { repeat constructor; eexists; reflexivity. }
  split; [exact Hall|].
  exact (proj2 (proj2 (proj2 generatePredictions_randomness))
           [measuredKeyword] (allRanks 1) (constantWorld 0)
           (constantWorld 0.2) Hall).
Defined.

End Predictions.

(** ** The strict parser: row-level errors *)

Section StrictRows.
Import Js Strict.

Lemma parseRow_valid (separator : ascii) (headers : list string) (i : nat)
    (line : string) :
  validRow separator headers line ->
  exists keywordData, parseRow separator headers i line = inl keywordData.
Proof.
  intros (Hlen & Hname & Hid & Hkw). unfold parseRow. cbv zeta.
  rewrite Hlen, Nat.eqb_refl. cbn [negb].
  cbn [appName appId keyword].
  apply truthy_nonempty in Hname, Hid, Hkw. rewrite Hname, Hid, Hkw.
  cbn [app length Nat.ltb Nat.leb]. eauto.
Qed.

Lemma parseRow_invalid (separator : ascii) (headers : list string) (i : nat)
    (line : string) :
  ¬ validRow separator headers line ->
  exists details,
    parseRow separator headers i line
    = inr ("Row " +:+ nat_to_string (i + 1) +:+ details).
Proof.
  intros Hinvalid. unfold parseRow. cbv zeta.
  destruct (Nat.eqb_spec (length (cleanValue <$> split_char separator line))
                         (length headers)) as [Hlen|Hlen]; cbn [negb].
  - cbn [appName appId keyword].
    set (values := cleanValue <$> split_char separator line) in *.
    set (name := getValue (headerMapOf headers) values "App Name").
    set (id := getValue (headerMapOf headers) values "App ID").
    set (kw := getValue (headerMapOf headers) values "Keyword").
    destruct (truthy name) eqn:Hname, (truthy id) eqn:Hid,
      (truthy kw) eqn:Hkw;
      cbn [app length Nat.ltb Nat.leb]; try (eexists; reflexivity).
    exfalso. apply Hinvalid. unfold validRow. cbv zeta.
    fold values name id kw.
    split; [exact Hlen|]. repeat split; now apply truthy_nonempty.
  - eexists. reflexivity.
Qed.

Lemma parseRows_from (separator : ascii) (headers dataLines : list string)
    (k : nat) (data : list KeywordData) (errors : list string) :
  fold_left (rowStep separator headers)
            (imap (fun index line => (index + k, line)%nat) dataLines)
            (data, errors)
  = (data ++ records (imap (fun index line =>
                              parseRow separator headers (index + k) line)
                           dataLines),
     errors ++ rowErrors (imap (fun index line =>
                                  parseRow separator headers (index + k) line)
                               dataLines)).
Proof.
  revert k data errors.
  induction dataLines as [|line dataLines IH]; intros k data errors.
  - cbn. now rewrite !app_nil_r.
  - rewrite !imap_cons. cbn [fold_left].
    rewrite (imap_ext _ (fun index line => (index + S k, line)%nat))
      by (intros; cbn; f_equal; lia).
    rewrite (imap_ext (_ ∘ S)
               (fun index line =>
                  parseRow separator headers (index + S k) line))
      by (intros; cbn; f_equal; lia).
    unfold rowStep at 2. cbn [fst snd Nat.add].
    destruct (parseRow separator headers k line) as [keywordData|error];
      rewrite IH; unfold records, rowErrors; cbn [omap list_omap];
      now rewrite <- app_assoc.
Qed.

Lemma parseRows_spec (separator : ascii) (headers dataLines : list string) :
  parseRows separator headers dataLines
  = (records (rowResults separator headers dataLines),
     rowErrors (rowResults separator headers dataLines)).
Proof. unfold parseRows. now rewrite parseRows_from. Qed.

Lemma rowResults_lookup (separator : ascii) (headers dataLines : list string)
    (i : nat) :
  rowResults separator headers dataLines !! i
  = parseRow separator headers (i + 1) <$> dataLines !! i.
Proof. unfold rowResults. now rewrite list_lookup_imap. Qed.

Lemma records_rowErrors_length (results : list (KeywordData + string)) :
  length (records results) + length (rowErrors results) = length results.
Proof.
  induction results as [|[k|e] results IH];
    unfold records, rowErrors in *; cbn [omap list_omap length] in *;
    [reflexivity | lia | lia].
Qed.

Lemma rowErrors_elem (results : list (KeywordData + string)) (e : string) :
  e ∈ rowErrors results <-> inr e ∈ results.
Proof.
  unfold rowErrors. rewrite list_elem_of_omap. split.
  - intros ([k|e'] & Hin & Heq); [discriminate|]. now injection Heq as ->.
  - intros Hin. exists (inr e). auto.
Qed.

Lemma invalid_row_reported (separator : ascii) (headers dataLines : list string)
    (i : nat) (line : string) :
  dataLines !! i = Some line ->
  ¬ validRow separator headers line ->
  exists details,
    ("Row " +:+ nat_to_string (i + 2) +:+ details)
    ∈ rowErrors (rowResults separator headers dataLines).
Proof.
  intros Hline Hinvalid.
  destruct (parseRow_invalid separator headers (i + 1) line Hinvalid)
    as [details Herr].
  exists details. apply rowErrors_elem.
  apply list_elem_of_lookup. exists i.
  rewrite rowResults_lookup, Hline. cbn [fmap option_fmap option_map].
  rewrite Herr. replace (i + 1 + 1) with (i + 2) by lia. reflexivity.
Qed.

Lemma valid_rows_no_errors (separator : ascii) (headers dataLines : list string) :
  Forall (validRow separator headers) dataLines ->
  rowErrors (rowResults separator headers dataLines) = [].
Proof.
  intros Hall.
  destruct (rowErrors (rowResults separator headers dataLines))
    as [|e errors] eqn:Herrors; [reflexivity|].
  assert (e ∈ rowErrors (rowResults separator headers dataLines)) as Hin
    by (rewrite Herrors; left).
  apply rowErrors_elem, list_elem_of_lookup in Hin as [i Hi].
  rewrite rowResults_lookup in Hi.
  destruct (dataLines !! i) as [line|] eqn:Hline; [|discriminate].
  rewrite Forall_lookup in Hall.
  destruct (parseRow_valid separator headers (i + 1) line (Hall i line Hline))
    as [k Hk].
  cbn [fmap option_fmap option_map] in Hi. congruence.
Qed.

Lemma readHeader_dataLines (file : File) (separator : ascii)
    (headers dataLines : list string) :
  readHeader file = Ok (separator, headers, dataLines) -> dataLines <> [].
Proof.
  unfold readHeader. destruct (negb _); [discriminate|]. cbv zeta.
  destruct (List.filter _ _) as [|firstLine [|line rest]];
    [discriminate | discriminate |].
  destruct (_ || _); [discriminate|]. intros [= _ _ <-]. discriminate.
Qed.

(** C4 (amended). For a file whose header is accepted, every data row
    with the wrong number of cells, or with an empty App Name, App ID or
    Keyword, leaves an error [Row n: ...] in the list of errors (n being
    the position of the line among the non-empty lines); when every data
    row is valid the parse returns one record per data row; and when
    some data row is not valid the parse throws the message that lists
    all the row errors, whether or not other rows are valid. *)
Theorem row_errors_reject_the_file (file : File) (separator : ascii)
    (headers dataLines : list string) :
  readHeader file = Ok (separator, headers, dataLines) ->
  (forall i line,
     dataLines !! i = Some line ->
     ¬ validRow separator headers line ->
     exists details,
       ("Row " +:+ nat_to_string (i + 2) +:+ details)
       ∈ rowErrors (rowResults separator headers dataLines))
  /\ (Forall (validRow separator headers) dataLines ->
      parseCSV file = Ok (records (rowResults separator headers dataLines))
      /\ length (records (rowResults separator headers dataLines))
         = length dataLines)
  /\ (¬ Forall (validRow separator headers) dataLines ->
      parseCSV file
      = Throw (issuesMessage
                 (rowErrors (rowResults separator headers dataLines)))).
Proof.
  intros Hheader.
  pose proof (records_rowErrors_length
                (rowResults separator headers dataLines)) as Hlen.
  unfold rowResults at 3 in Hlen. rewrite length_imap in Hlen.
  split; [|split].
  - intros i line. apply invalid_row_reported.
  - intros Hall. unfold parseCSV. rewrite Hheader, parseRows_spec.
    rewrite (valid_rows_no_errors _ _ _ Hall) in *. cbn [length] in *.
    cbn [Nat.ltb Nat.leb].
    split; [|lia].
    destruct (Nat.eqb_spec
                (length (records (rowResults separator headers dataLines))) 0)
      as [Hz|Hz]; [|reflexivity].
    apply readHeader_dataLines in Hheader.
    destruct dataLines; [contradiction | cbn [length] in Hlen; lia].
  - intros Hsome. apply not_Forall_Exists in Hsome; [|apply _].
    apply list.Exists_exists in Hsome as (line & Hin & Hinvalid).
    apply list_elem_of_lookup in Hin as [i Hi].
    destruct (invalid_row_reported separator headers dataLines i line
                Hi Hinvalid) as [details Herr].
    unfold parseCSV. rewrite Hheader, parseRows_spec.
    destruct (rowErrors (rowResults separator headers dataLines));
      [inversion Herr | reflexivity].
Qed.

Lemma readHeader_sample :
  readHeader sample_file
  = Ok (comma, EXPECTED_HEADERS, [sample_valid_row; "too,few"]).
Proof. vm_compute. reflexivity. Qed.

Lemma row_errors_reject_the_file_witness :
  readHeader sample_file
  = Ok (comma, EXPECTED_HEADERS, [sample_valid_row; "too,few"])
  /\ (forall i line,
        [sample_valid_row; "too,few"] !! i = Some line ->
        ¬ validRow comma EXPECTED_HEADERS line ->
        exists details,
          ("Row " +:+ nat_to_string (i + 2) +:+ details)
          ∈ rowErrors (rowResults comma EXPECTED_HEADERS
                         [sample_valid_row; "too,few"]))
  /\ (Forall (validRow comma EXPECTED_HEADERS) [sample_valid_row; "too,few"] ->
      parseCSV sample_file
      = Ok (records (rowResults comma EXPECTED_HEADERS
                       [sample_valid_row; "too,few"]))
      /\ length (records (rowResults comma EXPECTED_HEADERS
                            [sample_valid_row; "too,few"]))
         = length [sample_valid_row; "too,few"])
  /\ (¬ Forall (validRow comma EXPECTED_HEADERS) [sample_valid_row; "too,few"] ->
      parseCSV sample_file
      = Throw (issuesMessage
                 (rowErrors (rowResults comma EXPECTED_HEADERS
                               [sample_valid_row; "too,few"])))).
Proof.
  split; [exact readHeader_sample|].
  apply (row_errors_reject_the_file sample_file comma EXPECTED_HEADERS
           [sample_valid_row; "too,few"]).
  exact readHeader_sample.
Defined.

(** C4 as stated fails: the first data row of the sample file is valid,
    the second has the wrong number of cells, and the parse throws
    instead of returning the valid row. *)
Lemma one_bad_row_rejects_valid_rows :
  validRow comma EXPECTED_HEADERS sample_valid_row
  /\ (exists keywordData,
        parseRow comma EXPECTED_HEADERS 1 sample_valid_row = inl keywordData)
  /\ parseCSV sample_file
     = Throw (issuesMessage ["Row 3: Expected 20 columns but found 2"])
  /\ (forall data, parseCSV sample_file <> Ok data).
Proof.
  assert (validRow comma EXPECTED_HEADERS sample_valid_row) as Hvalid.
  { apply (bool_decide_eq_true_1 _). vm_compute. reflexivity. }
  assert (parseCSV sample_file
          = Throw (issuesMessage ["Row 3: Expected 20 columns but found 2"]))
    as Hthrow.
  { vm_compute. reflexivity. }
  split; [exact Hvalid|]. split; [now apply parseRow_valid|].
  split; [exact Hthrow|]. intros data. rewrite Hthrow. discriminate.
Qed.

End StrictRows.


(** ** The flexible parser: outcomes, order and provenance *)

Section FlexibleOutcome.
Import Js Types Flexible.
Local Open Scope R_scope.

Lemma findKeywordField_None (r : row) (field : string) :
  findKeywordField r = None -> field ∈ keys r ->
  standardFieldOf field <> "keyword"
  /\ assoc fieldMap (toLowerCase field) <> Some "keyword".
Proof.
  unfold findKeywordField. intros Hfind Hin.
  apply list_elem_of_In in Hin.
  pose proof (find_none _ _ Hfind field Hin) as Hcond. cbv zeta in Hcond.
  repeat (apply orb_false_elim in Hcond as [Hcond ?]).
  repeat match goal with
         | H : bool_decide _ = false |- _ => apply bool_decide_eq_false_1 in H
         end.
  split; [|assumption].
  unfold standardFieldOf. cbv zeta.
  destruct (assoc fieldMap (toLowerCase field)) as [s|]; [congruence|].
  unfold inheritedMembers. cbn [assoc].
  repeat case_bool_decide; cbn [default from_option Datatypes.id];
    try discriminate; congruence.
Qed.

Lemma processCSVResults_no_keyword_column (firstRow : row) (data : list row) :
  findKeywordField firstRow = None ->
  processCSVResults (firstRow :: data)
  = Throw "CSV file must contain a keyword column".
Proof.
  intros Hfind. unfold processCSVResults. cbv zeta.
  match goal with
  | |- context [includes_string ?m "keyword"] =>
      assert (includes_string m "keyword" = true) as ->; [|reflexivity]
  end.
  unfold includes_string. apply bool_decide_eq_true_2.
  unfold requiredFields. rewrite filter_cons, filter_nil.
  destruct (decide _) as [_|Hno]; [apply list_elem_of_here|].
  exfalso. apply Hno. split.
  - intros Hin. apply list_elem_of_fmap in Hin as (field & Heq & Hfield).
    apply list_elem_of_filter in Hfield as [_ Hfield].
    destruct (findKeywordField_None firstRow field Hfind Hfield) as [Hstd _].
    now apply Hstd.
  - intros Hex. apply list.Exists_exists in Hex as (field & Hfield & Heq).
    apply list_elem_of_filter in Hfield as [_ Hfield].
    destruct (findKeywordField_None firstRow field Hfind Hfield) as [_ Hmap].
    now apply Hmap.
Qed.

(** X1. The flexible parser has exactly three outcomes: an empty input
    is rejected with [CSV file is empty]; an input whose first row has
    no header standing for the keyword is rejected with [CSV file must
    contain a keyword column]; every other input is accepted.  The
    third message of the source, [Could not find a keyword column in
    the CSV], is never the outcome. *)
Theorem processCSVResults_outcomes (data : list row) :
  match data with
  | [] => processCSVResults data = Throw "CSV file is empty"
  | firstRow :: _ =>
      match findKeywordField firstRow with
      | None =>
          processCSVResults data
          = Throw "CSV file must contain a keyword column"
      | Some _ => exists out, processCSVResults data = Ok out
      end
  end
  /\ processCSVResults data
     <> Throw "Could not find a keyword column in the CSV".
Proof.
  destruct data as [|firstRow data]; [split; [reflexivity | discriminate]|].
  destruct (findKeywordField firstRow) as [keywordField|] eqn:Hfind.
  - destruct (processCSVResults_accepts firstRow data keywordField Hfind)
      as [out Hout].
    split; [now exists out | rewrite Hout; discriminate].
  - rewrite (processCSVResults_no_keyword_column _ _ Hfind).
    split; [reflexivity | discriminate].
Qed.

Lemma processCSVResults_fields (firstRow : row) (data : list row)
    (out : ParsedAppData) :
  processCSVResults (firstRow :: data) = Ok out ->
  appDetails out = extractAppDetails firstRow
  /\ availableFields out
     = (standardFieldOf <$> filter (fun key => trim key ≠ "") (keys firstRow))
  /\ includes_string (missingFields out) "keyword" = false.
Proof.
  unfold processCSVResults. cbv zeta.
  match goal with
  | |- context [includes_string ?m "keyword"] =>
      destruct (includes_string m "keyword") eqn:Hmissing
  end; [discriminate|].
  destruct (findKeywordField firstRow) as [keywordField|]; [|discriminate].
  destruct (negb (truthy keywordField)); [discriminate|].
  destruct (fold_left _ _ _) as [seen ks].
  intros [= <-]. split; [reflexivity|]. split; [reflexivity | exact Hmissing].
Qed.

Lemma processCSVResults_missing (firstRow : row) (data : list row)
    (out : ParsedAppData) :
  processCSVResults (firstRow :: data) = Ok out ->
  missingFields out = [] \/ missingFields out = ["keyword"].
Proof.
  unfold processCSVResults. cbv zeta.
  destruct (includes_string _ _); [discriminate|].
  destruct (findKeywordField firstRow) as [keywordField|]; [|discriminate].
  destruct (negb (truthy keywordField)); [discriminate|].
  destruct (fold_left _ _ _) as [seen ks].
  intros [= <-]. cbn [missingFields]. unfold requiredFields.
  rewrite filter_cons, filter_nil. destruct (decide _); auto.
Qed.

(** X2. In every dataset that the flexible parser returns the list of
    missing fields is empty, the canonical name [keyword] is among the
    available fields, and every available field is the canonical name
    of a header of the first row that is not blank. *)
Theorem missingFields_always_empty (data : list row) (out : ParsedAppData) :
  processCSVResults data = Ok out ->
  missingFields out = []
  /\ "keyword" ∈ availableFields out
  /\ forall name, name ∈ availableFields out ->
       exists header, header ∈ keys (hd [] data)
                      /\ trim header <> ""
                      /\ name = standardFieldOf header.
Proof.
  intros Hout. destruct data as [|firstRow data]; [discriminate|].
  destruct (processCSVResults_Ok _ _ Hout) as (keywordField & Hfind & _).
  cbn [hd] in *.
  destruct (findKeywordField_spec _ _ Hfind) as (Hin & Hmap & Htrim).
  destruct (processCSVResults_fields _ _ _ Hout) as (_ & Havailable & Hnone).
  split; [|split].
  - apply processCSVResults_missing in Hout as [Hnil|Hkw]; [exact Hnil|].
    rewrite Hkw in Hnone. discriminate.
  - rewrite Havailable. apply list_elem_of_fmap.
    exists keywordField. split.
    + unfold standardFieldOf. cbv zeta. now rewrite Hmap.
    + now apply list_elem_of_filter.
  - intros name Hname. rewrite Havailable in Hname.
    apply list_elem_of_fmap in Hname as (header & -> & Hheader).
    apply list_elem_of_filter in Hheader as [Hblank Hheader].
    now exists header.
Qed.

Lemma missingFields_always_empty_witness :
  processCSVResults sample_rows = Ok sample_parsed
  /\ missingFields sample_parsed = []
  /\ "keyword" ∈ availableFields sample_parsed
  /\ forall name, name ∈ availableFields sample_parsed ->
       exists header, header ∈ keys (hd [] sample_rows)
                      /\ trim header <> ""
                      /\ name = standardFieldOf header.
Proof.
  split; [apply processCSVResults_sample|].
  apply (missingFields_always_empty sample_rows sample_parsed).
  apply processCSVResults_sample.
Defined.

(** *** Order *)

Lemma keptRows_sublist (keywordField : string) (data : list row)
    (seen : gset string) :
  (fst <$> keptRows keywordField seen data)
    `sublist_of` omap (fun r => cell r keywordField) data.
Proof.
  revert seen.
  induction data as [|r data IH]; intros seen; cbn [keptRows omap list_omap].
  - constructor.
  - destruct (cell r keywordField) as [kw|].
    + destruct (negb (truthy kw) || bool_decide (kw ∈ seen)).
      * apply sublist_cons, IH.
      * cbn [fmap list_fmap fst]. apply sublist_skip, IH.
    + apply IH.
Qed.

Lemma keyword_keptRows (keywordField : string) (data : list row)
    (seen : gset string) :
  keyword <$> ((fun p => buildKeywordData p.1 p.2)
                 <$> keptRows keywordField seen data)
  = fst <$> keptRows keywordField seen data.
Proof.
  rewrite <- list_fmap_compose. apply list_fmap_ext.
  intros i [kw r] _. cbn. apply keyword_buildKeywordData.
Qed.

(** X3. The records come in the order of the rows: the keywords of the
    returned records are a subsequence of the keyword cells of the
    input rows, so there are at most as many records as rows. *)
Theorem keywords_in_row_order (data : list row) (out : ParsedAppData) :
  processCSVResults data = Ok out ->
  exists keywordField,
    findKeywordField (hd [] data) = Some keywordField
    /\ (keyword <$> keywords out)
         `sublist_of` omap (fun r => cell r keywordField) data
    /\ (length (keywords out) <= length data)%nat.
Proof.
  intros Hout.
  destruct (processCSVResults_Ok _ _ Hout) as (keywordField & Hfind & Hks).
  exists keywordField. split; [exact Hfind|].
  assert ((keyword <$> keywords out)
            `sublist_of` omap (fun r => cell r keywordField) data) as Hsub.
  { rewrite Hks, keyword_keptRows. apply keptRows_sublist. }
  split; [exact Hsub|].
  apply sublist_length in Hsub. rewrite length_fmap in Hsub.
  etransitivity; [exact Hsub|].
  clear. induction data as [|r data IH]; [reflexivity|].
  cbn [omap list_omap]. destruct (cell r keywordField); simpl; lia.
Qed.

Lemma keywords_in_row_order_witness :
  processCSVResults sample_rows = Ok sample_parsed
  /\ exists keywordField,
       findKeywordField (hd [] sample_rows) = Some keywordField
       /\ (keyword <$> keywords sample_parsed)
            `sublist_of` omap (fun r => cell r keywordField) sample_rows
       /\ (length (keywords sample_parsed) <= length sample_rows)%nat.
Proof.
  split; [apply processCSVResults_sample|].
  apply (keywords_in_row_order sample_rows sample_parsed).
  apply processCSVResults_sample.
Defined.


(** *** Extra columns *)

Lemma lower_char_idempotent (c : ascii) :
  lower_char (lower_char c) = lower_char c.
Proof. destruct c as [[] [] [] [] [] [] [] []]; vm_compute; reflexivity. Qed.

Lemma toLowerCase_idempotent (s : string) :
  toLowerCase (toLowerCase s) = toLowerCase s.
Proof.
  unfold toLowerCase. rewrite chars_str, <- list_fmap_compose. f_equal.
  apply list_fmap_ext. intros i c _. apply lower_char_idempotent.
Qed.

Lemma fieldMap_reserved (lowerField name : string) :
  assoc fieldMap lowerField = Some name -> reservedField name = true.
Proof.
  unfold fieldMap. simpl.
  repeat (case_bool_decide; [intros [= <-]; vm_compute; reflexivity|]).
  discriminate.
Qed.

Lemma standardFieldOf_not_reserved (field : string) :
  reservedField (standardFieldOf field) = false ->
  standardFieldOf field
  = default (toLowerCase field) (assoc inheritedMembers (toLowerCase field)).
Proof.
  unfold standardFieldOf. cbv zeta.
  destruct (assoc fieldMap (toLowerCase field)) as [name|] eqn:Hmap;
    [|reflexivity].
  rewrite (fieldMap_reserved _ _ Hmap). discriminate.
Qed.

Lemma inheritedMembers_None (name : string) :
  name ∉ inherited -> assoc inheritedMembers name = None.
Proof.
  unfold inherited, inheritedMembers. cbn [assoc fmap list_fmap fst].
  intros Hname. repeat case_bool_decide; try reflexivity;
    exfalso; apply Hname; subst name; set_solver.
Qed.

Lemma standardFieldOf_own (field : string) :
  standardFieldOf field ∉ inherited.
Proof.
  unfold standardFieldOf. cbv zeta.
  destruct (assoc fieldMap (toLowerCase field)) as [name|] eqn:Hmap.
  - apply fieldMap_reserved in Hmap. intros Hin.
    unfold inherited, inheritedMembers in Hin.
    cbn [fmap list_fmap fst] in Hin.
    repeat (apply elem_of_cons in Hin as [->|Hin];
            [vm_compute in Hmap; discriminate|]).
    inversion Hin.
  - unfold inherited, inheritedMembers. cbn [assoc fmap list_fmap fst].
    repeat case_bool_decide; cbn [default from_option Datatypes.id];
      intros Hin;
      repeat (apply elem_of_cons in Hin as [Heq|Hin];
              [first [discriminate Heq | congruence]|]);
      inversion Hin.
Qed.

Lemma other_setNumeric (kd : KeywordData) (name : string) (n : R) :
  other (setNumeric kd name n) = other kd.
Proof. destruct kd. unfold setNumeric. repeat case_bool_decide; reflexivity. Qed.

Lemma other_setOther (kd : KeywordData) (name value : string) :
  other (setOther kd name value) = <[name := value]> (other kd).
Proof. destruct kd. reflexivity. Qed.

Lemma other_processField (kd : KeywordData) (column : string * string)
    (name : string) :
  other (processField kd column) !! name
  = if bool_decide (standardFieldOf column.1 = name ∧ column.2 ≠ "")
       && negb (reservedField name)
    then Some column.2
    else other kd !! name.
Proof.
  destruct column as [field value]. unfold processField. cbn [fst snd].
  unfold reservedField.
  destruct (decide (standardFieldOf field = name)) as [<-|Hne].
  - destruct (includes_string appFields (standardFieldOf field)
              || bool_decide (standardFieldOf field = "keyword"));
      [now rewrite andb_false_r|].
    destruct (decide (value = "")) as [Hempty|Hempty].
    { rewrite (bool_decide_eq_true_2 _ Hempty).
      rewrite bool_decide_eq_false_2; [reflexivity|]. now intros [_ ?]. }
    rewrite (bool_decide_eq_false_2 _ Hempty).
    destruct (includes_string numericFields (standardFieldOf field)).
    + now rewrite andb_false_r, other_setNumeric.
    + rewrite bool_decide_eq_true_2 by done. cbn [orb negb andb].
      now rewrite other_setOther, lookup_insert_eq.
  - rewrite (bool_decide_eq_false_2 (_ ∧ _)) by (now intros [? _]).
    cbn [andb].
    destruct (_ || _); [reflexivity|].
    destruct (bool_decide (value = "")); [reflexivity|].
    destruct (includes_string numericFields (standardFieldOf field)).
    + now rewrite other_setNumeric.
    + now rewrite other_setOther, lookup_insert_ne.
Qed.

Lemma other_buildKeywordData (kw : string) (r : row) (name : string) :
  other (buildKeywordData kw r) !! name
  = if reservedField name then None else last (cellsFor name r).
Proof.
  unfold buildKeywordData, cellsFor.
  induction r as [|column r IH] using rev_ind.
  - simpl. rewrite lookup_empty. now destruct (reservedField name).
  - rewrite fold_left_app. cbn [fold_left].
    rewrite other_processField, IH.
    rewrite (filter_app _ r [column]), fmap_app, filter_cons, filter_nil.
    case_bool_decide as Hc.
    + rewrite decide_True by exact Hc. simpl.
      destruct (reservedField name); [reflexivity|].
      cbn [negb]. now rewrite last_snoc.
    + rewrite decide_False by exact Hc. simpl. now rewrite app_nil_r.
Qed.

(** X4. A column that stands for no app field, for no numeric field
    and not for the keyword is kept as text, in rows without surplus
    cells: in the record built from a row, the property named by the
    canonical name of the header holds the last non-empty cell under
    such a header, unchanged.  The reserved names are never properties
    of the dictionary.  Every value in the dictionary is a non-empty
    cell of the row, under a header of which the property name is the
    canonical name; that name is the lower-cased header, unless the
    lower-cased header is [constructor] or [__proto__]: the cell is
    then stored under the text of the member that [fieldMap] inherits,
    and no cell is ever stored under [constructor] or [__proto__]. *)
Theorem extra_columns_kept_verbatim (data : list row) (out : ParsedAppData) :
  processCSVResults data = Ok out ->
  forall kd, kd ∈ keywords out ->
    exists r,
      r ∈ data
      /\ kd = buildKeywordData (keyword kd) r
      /\ (forall name,
            other kd !! name
            = if reservedField name then None else last (cellsFor name r))
      /\ (forall name value,
            other kd !! name = Some value ->
            value <> ""
            /\ (name ∉ inherited)
            /\ exists header,
                 (header, value) ∈ r
                 /\ name = standardFieldOf header
                 /\ (toLowerCase header ∉ inherited ->
                     name = toLowerCase header
                     /\ toLowerCase name = name)).
Proof.
  intros Hout kd Hkd.
  destruct (processCSVResults_Ok _ _ Hout) as (kf & _ & Hks).
  rewrite Hks in Hkd.
  apply list_elem_of_fmap in Hkd as ([kw r] & -> & Hin). cbn [fst snd].
  rewrite keyword_buildKeywordData.
  destruct (keptRows_sound kf _ ∅ kw r Hin) as (_ & _ & i & Hi & _).
  exists r. split; [now apply list_elem_of_lookup_2 in Hi|].
  split; [reflexivity|].
  split; [intros name; apply other_buildKeywordData|].
  intros name value. rewrite other_buildKeywordData.
  destruct (reservedField name) eqn:Hreserved; [discriminate|].
  intros Hlast. apply last_Some_elem_of in Hlast. unfold cellsFor in Hlast.
  apply list_elem_of_fmap in Hlast as ([header value'] & -> & Hcolumn).
  apply list_elem_of_filter in Hcolumn as [[Hname Hvalue] Hcolumn].
  cbn [fst snd] in *. subst name.
  split; [exact Hvalue|]. split; [apply standardFieldOf_own|].
  exists header. split; [exact Hcolumn|]. split; [reflexivity|].
  intros Hplain.
  rewrite (standardFieldOf_not_reserved _ Hreserved).
  rewrite (inheritedMembers_None _ Hplain).
  cbn [default from_option Datatypes.id].
  split; [reflexivity | apply toLowerCase_idempotent].
Qed.

Lemma processCSVResults_sample_noted :
  processCSVResults sample_noted_rows = Ok sample_noted.
Proof. vm_compute. reflexivity. Qed.

Lemma extra_columns_kept_verbatim_witness :
  processCSVResults sample_noted_rows = Ok sample_noted
  /\ forall kd, kd ∈ keywords sample_noted ->
       exists r,
         r ∈ sample_noted_rows
         /\ kd = buildKeywordData (keyword kd) r
         /\ (forall name,
               other kd !! name
               = if reservedField name then None else last (cellsFor name r))
         /\ (forall name value,
               other kd !! name = Some value ->
               value <> ""
               /\ (name ∉ inherited)
               /\ exists header,
                    (header, value) ∈ r
                    /\ name = standardFieldOf header
                    /\ (toLowerCase header ∉ inherited ->
                        name = toLowerCase header
                        /\ toLowerCase name = name)).
Proof.
  split; [apply processCSVResults_sample_noted|].
  apply (extra_columns_kept_verbatim sample_noted_rows sample_noted).
  apply processCSVResults_sample_noted.
Defined.

(** *** App details *)

Lemma assoc_elem_of (l : list (string * string)) (key value : string) :
  assoc l key = Some value -> (key, value) ∈ l.
Proof.
  induction l as [|[k v] l IH]; [discriminate|]. cbn [assoc].
  case_bool_decide as Hk.
  - intros [= ->]. subst. apply list_elem_of_here.
  - intros Hl. apply list_elem_of_further, IH, Hl.
Qed.





End FlexibleOutcome.

(** ** The strict parser: outcomes and the records returned *)

Section StrictOutcome.
Import Js Strict.
Local Open Scope R_scope.

Lemma parseNumber_percentage (value : string) :
  isPercentage (parseNumber value (Some 0) (Some 100)).
Proof.
  unfold isPercentage, isInteger, parseNumber, parseInt.
  destruct (parseInt_Z value) as [z|]; simpl.
  - destruct (Rlt_dec (IZR z) 0); [split; [now exists 0%Z | lra]|].
    destruct (Rlt_dec 100 (IZR z)); [split; [now exists 100%Z | lra]|].
    split; [now exists z | lra].
  - split; [now exists 0%Z | lra].
Qed.

Lemma parseNumber_count (value : string) :
  isCount (parseNumber value (Some 0) None).
Proof.
  unfold isCount, isInteger, parseNumber, parseInt.
  destruct (parseInt_Z value) as [z|]; simpl.
  - destruct (Rlt_dec (IZR z) 0); [split; [now exists 0%Z | lra]|].
    split; [now exists z | lra].
  - split; [now exists 0%Z | lra].
Qed.

Lemma or_string_nonempty (a b : string) : b <> "" -> or_string a b <> "".
Proof.
  intros Hb. unfold or_string. destruct (truthy a) eqn:Ha; [|exact Hb].
  now apply truthy_nonempty.
Qed.

Lemma or_undefined_nonempty (a : string) : or_undefined a <> Some "".
Proof. destruct a; discriminate. Qed.

Lemma parseRow_wellFormed (separator : ascii) (headers : list string)
    (i : nat) (line : string) (k : KeywordData) :
  parseRow separator headers i line = inl k -> wellFormed k.
Proof.
  unfold parseRow. cbv zeta.
  destruct (negb _); [discriminate|].
  cbn [appName appId keyword].
  set (values := cleanValue <$> split_char separator line).
  set (cellOf := getValue (headerMapOf headers) values).
  destruct (truthy (cellOf "App Name")) eqn:Hname,
    (truthy (cellOf "App ID")) eqn:Hid,
    (truthy (cellOf "Keyword")) eqn:Hkw;
    cbn [app length Nat.ltb Nat.leb]; try discriminate.
  apply truthy_nonempty in Hname, Hid, Hkw.
  intros [= <-]. unfold wellFormed.
  cbn [appName appId keyword store device countryCode languageCode mainAppId
         mainAppName keywordList volume difficulty maximumReach kei chance
         relevancyScore brandedAppId brandedAppName].
  split; [auto|].
  split; [case_bool_decide; auto|].
  split; [repeat split; now apply or_string_nonempty|].
  split; [repeat split; now apply or_string_nonempty|].
  split.
  { intros v. destruct (truthy (cellOf "Volume")); [|discriminate].
    intros [= <-]. apply parseNumber_count. }
  split.
  { destruct (truthy (cellOf "Difficulty")); [apply parseNumber_percentage|].
    split; [now exists 0%Z | lra]. }
  split; [apply parseNumber_count|].
  split; [repeat split; apply parseNumber_percentage|].
  split; apply or_undefined_nonempty.
Qed.

Lemma records_elem (results : list (KeywordData + string)) (k : KeywordData) :
  k ∈ records results <-> inl k ∈ results.
Proof.
  unfold records. rewrite list_elem_of_omap. split.
  - intros ([k'|e] & Hin & Heq); [|discriminate]. now injection Heq as ->.
  - intros Hin. exists (inl k). auto.
Qed.

Lemma parseCSV_Ok (file : File) (data : list KeywordData) :
  parseCSV file = Ok data ->
  exists separator headers dataLines,
    readHeader file = Ok (separator, headers, dataLines)
    /\ data = records (rowResults separator headers dataLines)
    /\ rowErrors (rowResults separator headers dataLines) = []
    /\ data <> [].
Proof.
  unfold parseCSV.
  destruct (readHeader file) as [[[separator headers] dataLines]|message]
    eqn:Hheader; [|discriminate].
  rewrite parseRows_spec.
  destruct (rowErrors _) as [|e errors] eqn:Herrors; [|discriminate].
  cbn [length Nat.ltb Nat.leb].
  destruct (Nat.eqb_spec
              (length (records (rowResults separator headers dataLines))) 0)
    as [Hz|Hz]; [discriminate|].
  intros [= <-]. exists separator, headers, dataLines.
  split; [reflexivity|]. split; [reflexivity|]. split; [exact Herrors|].
  intros Hnil. now rewrite Hnil in Hz.
Qed.

(** X6. Every record that the strict parser returns is well formed:
    the app name, the app id and the keyword are not empty; the store is
    [iOS] or [Android]; the device, the country and language codes, the
    main app and the keyword list are not empty (they have defaults);
    difficulty, KEI, chance and relevancy score are integers from 0 to
    100; the volume, when present, and the maximum reach are integers
    that are not negative; a branded app id or name is absent rather
    than empty.  A returned dataset has at least one record. *)
Theorem parseCSV_records_well_formed (file : File) (data : list KeywordData) :
  parseCSV file = Ok data ->
  data <> [] /\ Forall wellFormed data.
Proof.
  intros Hok.
  destruct (parseCSV_Ok _ _ Hok)
    as (separator & headers & dataLines & _ & -> & _ & Hnonempty).
  split; [exact Hnonempty|].
  apply Forall_forall. intros k Hk.
  apply records_elem, list_elem_of_lookup in Hk as [i Hi].
  rewrite rowResults_lookup in Hi.
  destruct (dataLines !! i) as [line|]; [|discriminate].
  cbn [fmap option_fmap option_map] in Hi. injection Hi as Hi.
  exact (parseRow_wellFormed _ _ _ _ _ Hi).
Qed.

Lemma parseCSV_valid_rows (file : File) (separator : ascii)
    (headers dataLines : list string) :
  readHeader file = Ok (separator, headers, dataLines) ->
  Forall (validRow separator headers) dataLines ->
  parseCSV file = Ok (records (rowResults separator headers dataLines)).
Proof.
  intros Hheader Hall.
  pose proof (records_rowErrors_length
                (rowResults separator headers dataLines)) as Hlen.
  unfold rowResults at 3 in Hlen. rewrite length_imap in Hlen.
  unfold parseCSV. rewrite Hheader, parseRows_spec.
  rewrite (valid_rows_no_errors _ _ _ Hall) in *. cbn [length] in *.
  cbn [Nat.ltb Nat.leb].
  destruct (Nat.eqb_spec
              (length (records (rowResults separator headers dataLines))) 0)
    as [Hz|Hz]; [|reflexivity].
  apply readHeader_dataLines in Hheader.
  destruct dataLines; [contradiction | cbn [length] in Hlen; lia].
Qed.

Lemma parseCSV_sample_good_file :
  parseCSV sample_good_file
  = Ok (records (rowResults comma EXPECTED_HEADERS [sample_valid_row])).
Proof.
  apply parseCSV_valid_rows; [vm_compute; reflexivity|].
  constructor; [|constructor].
  apply (bool_decide_eq_true_1 _). vm_compute. reflexivity.
Qed.

Lemma parseCSV_records_well_formed_witness :
  parseCSV sample_good_file
  = Ok (records (rowResults comma EXPECTED_HEADERS [sample_valid_row]))
  /\ records (rowResults comma EXPECTED_HEADERS [sample_valid_row]) <> []
  /\ Forall wellFormed
       (records (rowResults comma EXPECTED_HEADERS [sample_valid_row])).
Proof.
  split; [apply parseCSV_sample_good_file|].
  apply (parseCSV_records_well_formed sample_good_file).
  apply parseCSV_sample_good_file.
Defined.

(** *** Outcomes *)

Lemma headerErrorMessage_head (separator : ascii)
    (headers missingColumns extraColumns : list string) :
  exists rest,
    headerErrorMessage separator headers missingColumns extraColumns
    = String "T" rest.
Proof. eexists. reflexivity. Qed.

Lemma issuesMessage_head (errors : list string) :
  exists rest, issuesMessage errors = String "F" rest.
Proof. eexists. reflexivity. Qed.

Lemma Throw_inj {A : Type} (a b : string) :
  @Throw A a = Throw b -> a = b.
Proof. now intros [= ->]. Qed.

Lemma readHeader_message_head (file : File) (message : string) :
  readHeader file = Throw message ->
  exists c rest, message = String c rest /\ (c = "P" \/ c = "T")%char.
Proof.
  unfold readHeader. destruct (negb _).
  { intros [= <-]. eexists _, _. split; [reflexivity | now left]. }
  cbv zeta.
  destruct (List.filter _ _) as [|firstLine [|line rest]].
  - intros [= <-]. eexists _, _. split; [reflexivity | now right].
  - intros [= <-]. eexists _, _. split; [reflexivity | now right].
  - destruct (_ || _); [|discriminate]. intros Heq%Throw_inj.
    rewrite <- Heq.
    match goal with
    | |- context [headerErrorMessage ?s ?h ?m ?e] =>
        destruct (headerErrorMessage_head s h m e) as [rest' Hrest]
    end.
    eexists _, _. split; [exact Hrest | now right].
Qed.

(** X7. The outcomes of the strict parser: the error of the header
    phase when there is one; otherwise the message that lists the row
    errors when some row has an error, and the records of all the data
    rows, of which there is at least one, when no row has an error.
    The message [No valid data rows were found in the file.] is never
    the outcome, and no parse returns an empty dataset. *)
Theorem parseCSV_outcomes (file : File) :
  match readHeader file with
  | Throw message => parseCSV file = Throw message
  | Ok (separator, headers, dataLines) =>
      let results := rowResults separator headers dataLines in
      match rowErrors results with
      | [] =>
          parseCSV file = Ok (records results)
          /\ length (records results) = length dataLines
          /\ (0 < length dataLines)%nat
      | e :: errors => parseCSV file = Throw (issuesMessage (e :: errors))
      end
  end
  /\ parseCSV file <> Throw "No valid data rows were found in the file."
  /\ parseCSV file <> Ok [].
Proof.
  unfold parseCSV.
  destruct (readHeader file) as [[[separator headers] dataLines]|message]
    eqn:Hheader.
  - rewrite parseRows_spec. cbv zeta.
    pose proof (records_rowErrors_length
                  (rowResults separator headers dataLines)) as Hlen.
    unfold rowResults at 3 in Hlen. rewrite length_imap in Hlen.
    apply readHeader_dataLines in Hheader.
    destruct (rowErrors _) as [|e errors].
    + cbn [length Nat.ltb Nat.leb] in *.
      assert (0 < length dataLines)%nat as Hpos
        by (destruct dataLines; [contradiction | cbn [length]; lia]).
      destruct (Nat.eqb_spec
                  (length (records (rowResults separator headers dataLines)))
                  0) as [Hz|Hz]; [lia|].
      split; [split; [reflexivity | split; [lia | exact Hpos]]|].
      split; [discriminate|].
      intros [= Hnil]. now rewrite Hnil in Hz.
    + cbn [length Nat.ltb Nat.leb].
      split; [reflexivity|].
      destruct (issuesMessage_head (e :: errors)) as [rest ->].
      split; discriminate.
  - split; [reflexivity|]. split; [|discriminate].
    destruct (readHeader_message_head _ _ Hheader)
      as (c & rest & -> & [-> | ->]); discriminate.
Qed.

(** *** The accepted headers *)







(** *** Repeated headers *)

Lemma headerMapOf_snoc (headers : list string) (header : string) :
  headerMapOf (headers ++ [header])
  = <[toLowerCase header := length headers]> (headerMapOf headers).
Proof.
  unfold headerMapOf. rewrite imap_app, fold_left_app. cbn [imap fold_left].
  cbn [fst snd]. now rewrite Nat.add_0_r.
Qed.

Lemma headerMapOf_lookup (headers : list string) (key : string) (i : nat) :
  headerMapOf headers !! key = Some i
  <-> (exists header, headers !! i = Some header /\ toLowerCase header = key)
      /\ (forall j header, (i < j)%nat -> headers !! j = Some header ->
            toLowerCase header <> key).
Proof.
  revert i. induction headers as [|x headers IH] using rev_ind; intros i.
  - unfold headerMapOf. cbn [imap fold_left]. rewrite lookup_empty.
    split; [discriminate|]. intros [(header & Hi & _) _]. discriminate.
  - rewrite headerMapOf_snoc, lookup_insert_Some. split.
    + intros [[Hkey <-]|[Hkey Hlookup]].
      * split.
        { exists x. split; [|exact Hkey]. now rewrite list_lookup_middle. }
        intros j header Hj Hlookup.
        apply lookup_lt_Some in Hlookup. rewrite length_app in Hlookup.
        cbn [length] in Hlookup. lia.
      * apply IH in Hlookup as [(header & Hi & Hheader) Hlater].
        split.
        { exists header. split; [|exact Hheader].
          now rewrite lookup_app_l by (now apply lookup_lt_Some in Hi). }
        intros j header' Hj Hlookup.
        destruct (Nat.lt_total j (length headers)) as [Hlt|[->|Hgt]].
        { rewrite lookup_app_l in Hlookup by exact Hlt. eauto. }
        { rewrite list_lookup_middle in Hlookup by reflexivity.
          now injection Hlookup as <-. }
        { apply lookup_lt_Some in Hlookup. rewrite length_app in Hlookup.
          cbn [length] in Hlookup. lia. }
    + intros [(header & Hi & Hheader) Hlater].
      destruct (Nat.lt_total i (length headers)) as [Hlt|[->|Hgt]].
      * right. split.
        { apply (Hlater (length headers) x Hlt).
          now rewrite list_lookup_middle. }
        apply IH. rewrite lookup_app_l in Hi by exact Hlt.
        split; [now exists header|].
        intros j header' Hj Hlookup. apply (Hlater j header' Hj).
        now rewrite lookup_app_l by (now apply lookup_lt_Some in Hlookup).
      * left. rewrite list_lookup_middle in Hi by reflexivity.
        injection Hi as <-. now split.
      * apply lookup_lt_Some in Hi. rewrite length_app in Hi.
        cbn [length] in Hi. lia.
Qed.

(** X9. The cell read for a column name is the cell under the last
    header equal to the name up to case: when a header is repeated,
    the later column is the one that counts, and the value is the
    empty string when the row has no cell at that position.  When no
    header stands for the name the value is the empty string. *)
Theorem repeated_header_last_wins (headers values : list string)
    (columnName : string) (index : nat) :
  lastColumn headers columnName index ->
  getValue (headerMapOf headers) values columnName
  = default "" (values !! index)
  /\ (forall otherName,
        (forall header, header ∈ headers ->
           toLowerCase header <> toLowerCase otherName) ->
        getValue (headerMapOf headers) values otherName = "").
Proof.
  intros Hlast. unfold getValue. split.
  - apply headerMapOf_lookup in Hlast. now rewrite Hlast.
  - intros otherName Hnone.
    destruct (headerMapOf headers !! toLowerCase otherName) as [i|] eqn:Hi;
      [|reflexivity].
    apply headerMapOf_lookup in Hi as [(header & Hlookup & Hheader) _].
    apply list_elem_of_lookup_2 in Hlookup. now apply Hnone in Hlookup.
Qed.

Lemma repeated_header_last_wins_witness :
  lastColumn ["Keyword"; "Volume"; "keyword"] "Keyword" 2
  /\ getValue (headerMapOf ["Keyword"; "Volume"; "keyword"])
       ["yoga"; "10"; "pilates"] "Keyword"
     = default "" (["yoga"; "10"; "pilates"] !! 2%nat)
  /\ (forall otherName,
        (forall header, header ∈ ["Keyword"; "Volume"; "keyword"] ->
           toLowerCase header <> toLowerCase otherName) ->
        getValue (headerMapOf ["Keyword"; "Volume"; "keyword"])
          ["yoga"; "10"; "pilates"] otherName = "").
Proof.
  assert (lastColumn ["Keyword"; "Volume"; "keyword"] "Keyword" 2) as Hlast.
  { split; [exists "keyword"; split; reflexivity|].
    intros j header Hj Hlookup. apply lookup_lt_Some in Hlookup.
    cbn [length] in Hlookup. lia. }
  split; [exact Hlast|].
  apply (repeated_header_last_wins ["Keyword"; "Volume"; "keyword"]
           ["yoga"; "10"; "pilates"] "Keyword" 2 Hlast).
Defined.

End StrictOutcome.

(** ** Sorting *)

Section Sorting.
Import Js JsLib.
Local Open Scope R_scope.
Context {A : Type}.
Implicit Types (compare : A -> A -> R) (key : A -> R) (l : list A).

Lemma insert_by_Permutation compare (x : A) l :
  insert_by compare x l ≡ₚ x :: l.
Proof.
  induction l as [|y l IH]; cbn [insert_by]; [reflexivity|].
  destruct (Rle_dec (compare x y) 0); [reflexivity|].
  rewrite IH. apply Permutation_swap.
Qed.

Lemma sort_by_Permutation compare l : sort_by compare l ≡ₚ l.
Proof.
  induction l as [|x l IH]; [reflexivity|].
  unfold sort_by in *. cbn [foldr].
  now rewrite insert_by_Permutation, IH.
Qed.

Lemma sort_by_length compare l : length (sort_by compare l) = length l.
Proof. apply Permutation_length, sort_by_Permutation. Qed.

Lemma elem_of_sort_by compare l (x : A) : x ∈ sort_by compare l <-> x ∈ l.
Proof. now rewrite sort_by_Permutation. Qed.

Lemma insert_by_descending compare key (x : A) l :
  (forall a b, compare a b = key b - key a) ->
  descendingBy key l -> descendingBy key (insert_by compare x l).
Proof.
  intros Hcompare. induction l as [|y l IH]; cbn [insert_by descendingBy].
  - intros _. split; [constructor | exact I].
  - intros [Hy Hl]. rewrite Hcompare.
    destruct (Rle_dec (key y - key x) 0) as [Hle|Hgt];
      cbn [descendingBy].
    + split; [|now split].
      constructor; [lra|].
      eapply Forall_impl; [exact Hy|]. cbn. intros z Hz. lra.
    + split; [|now apply IH].
      rewrite insert_by_Permutation. constructor; [lra | exact Hy].
Qed.

Lemma sort_by_descending compare key l :
  (forall a b, compare a b = key b - key a) ->
  descendingBy key (sort_by compare l).
Proof.
  intros Hcompare. induction l as [|x l IH]; [exact I|].
  unfold sort_by in *. cbn [foldr]. now apply insert_by_descending.
Qed.

Lemma withKey_insert_by compare key (k : R) (x : A) l :
  (forall a b, compare a b = key b - key a) ->
  withKey key k (insert_by compare x l) = withKey key k (x :: l).
Proof.
  intros Hcompare. unfold withKey.
  induction l as [|y l IH]; cbn [insert_by]; [reflexivity|].
  rewrite Hcompare.
  destruct (Rle_dec (key y - key x) 0) as [Hle|Hgt]; [reflexivity|].
  cbn [List.filter] in *. rewrite IH.
  destruct (Req_dec_T (key x) k) as [Hx|Hx]; [|reflexivity].
  destruct (Req_dec_T (key y) k) as [Hy|Hy]; [lra | reflexivity].
Qed.

Lemma sort_by_stable compare key (k : R) l :
  (forall a b, compare a b = key b - key a) ->
  withKey key k (sort_by compare l) = withKey key k l.
Proof.
  intros Hcompare. induction l as [|x l IH]; [reflexivity|].
  unfold sort_by in *. cbn [foldr].
  rewrite (withKey_insert_by _ _ _ _ _ Hcompare).
  unfold withKey in *. cbn [List.filter]. now rewrite IH.
Qed.

Lemma descendingBy_app key l1 l2 :
  descendingBy key (l1 ++ l2) ->
  descendingBy key l1
  /\ descendingBy key l2
  /\ forall x y, x ∈ l1 -> y ∈ l2 -> key y <= key x.
Proof.
  induction l1 as [|a l1 IH]; cbn [app descendingBy].
  - intros Hl2. split; [exact I|]. split; [exact Hl2|].
    intros x y Hx. inversion Hx.
  - intros [Ha Hrest]. apply IH in Hrest as (H1 & H2 & Hcross).
    apply Forall_app in Ha as [Ha1 Ha2].
    split; [now split|]. split; [exact H2|].
    intros x y Hx Hy. apply elem_of_cons in Hx as [->|Hx]; [|now apply Hcross].
    rewrite Forall_forall in Ha2. now apply Ha2.
Qed.

Lemma sorted_sort_by (compare : Types.KeywordData -> Types.KeywordData -> R)
    (l : list Types.KeywordData) :
  Runtime.sorted compare l = sort_by compare l.
Proof.
  unfold Runtime.sorted, sort_by. induction l as [|x l IH]; [reflexivity|].
  cbn [foldr]. rewrite IH. generalize (foldr (insert_by compare) [] l).
  intros l'. induction l' as [|y l' IH']; [reflexivity|].
  cbn [Runtime.insert_sorted insert_by]. now rewrite IH'.
Qed.

End Sorting.

(** ** The insight lists *)

Section InsightLists.
Import Js JsLib Types Runtime Analysis.
Local Open Scope R_scope.

Lemma byVolumeDescending_key (a b : KeywordData) :
  byVolumeDescending a b = volumeKey b - volumeKey a.
Proof. reflexivity. Qed.

Lemma List_filter_elem {A : Type} (f : A -> bool) (l : list A) (x : A) :
  x ∈ List.filter f l <-> f x = true /\ x ∈ l.
Proof.
  rewrite !list_elem_of_In, filter_In. tauto.
Qed.

Lemma top_topFiveOf (p : KeywordData -> bool) (l : list KeywordData) :
  topFiveOf p l (top p l).
Proof.
  unfold topFiveOf, top. rewrite sorted_sort_by.
  set (ordered := sort_by byVolumeDescending (List.filter p l)).
  pose proof (sort_by_Permutation byVolumeDescending (List.filter p l))
    as Hperm. fold ordered in Hperm.
  pose proof (sort_by_descending byVolumeDescending volumeKey
                (List.filter p l) byVolumeDescending_key) as Hdesc.
  fold ordered in Hdesc.
  rewrite <- (take_drop 5 ordered) in Hdesc.
  apply descendingBy_app in Hdesc as (Htake & _ & Hcross).
  split; [now rewrite length_take, <- (Permutation_length Hperm)|].
  split.
  { intros k Hk. apply List_filter_elem. rewrite <- Hperm.
    apply elem_of_take in Hk as (i & Hi & _).
    now apply list_elem_of_lookup_2 in Hi. }
  split; [exact Htake|].
  split.
  { exists (drop 5 ordered). now rewrite take_drop. }
  intros v.
  rewrite <- (sort_by_stable byVolumeDescending volumeKey v (List.filter p l)
                byVolumeDescending_key).
  fold ordered. exists (withKey volumeKey v (drop 5 ordered)).
  unfold withKey. now rewrite <- List.filter_app, take_drop.
Qed.

(** X10. Each of the four insight lists (trending, low competition,
    high volume, underperforming) is the top five by volume of the
    records that satisfy its condition: at most five records, all of
    them from the dataset and satisfying the condition, in descending
    order of volume, with no record of larger volume left out, and with
    ties resolved in favour of the records that come first in the
    dataset. *)
Theorem insight_lists_are_top_five (appData : ParsedAppData)
    (dataset : list KeywordData) (w : World) :
  arrays w !! keywords appData = Some dataset ->
  topFiveOf isTrending dataset
    (trendingKeywords (fst (generateKeywordInsights appData w)))
  /\ topFiveOf isLowCompetition dataset
       (lowCompetitionOpportunities (fst (generateKeywordInsights appData w)))
  /\ topFiveOf hasVolume dataset
       (highVolumeKeywords (fst (generateKeywordInsights appData w)))
  /\ topFiveOf isUnderperforming dataset
       (underperformingKeywords (fst (generateKeywordInsights appData w))).
Proof.
  intros Hdataset.
  destruct (generateKeywordInsights_run appData w dataset Hdataset)
    as [fresh ->].
  cbn [fst insightsOf trendingKeywords lowCompetitionOpportunities
         highVolumeKeywords underperformingKeywords].
  split; [apply top_topFiveOf|]. split; [apply top_topFiveOf|].
  split; apply top_topFiveOf.
Qed.

Lemma insight_lists_are_top_five_witness :
  arrays sample_world_1 !! keywords sample_appData = Some sample_dataset
  /\ topFiveOf isTrending sample_dataset
       (trendingKeywords
          (fst (generateKeywordInsights sample_appData sample_world_1)))
  /\ topFiveOf isLowCompetition sample_dataset
       (lowCompetitionOpportunities
          (fst (generateKeywordInsights sample_appData sample_world_1)))
  /\ topFiveOf hasVolume sample_dataset
       (highVolumeKeywords
          (fst (generateKeywordInsights sample_appData sample_world_1)))
  /\ topFiveOf isUnderperforming sample_dataset
       (underperformingKeywords
          (fst (generateKeywordInsights sample_appData sample_world_1))).
Proof.
  split; [reflexivity|].
  apply (insight_lists_are_top_five sample_appData sample_dataset
           sample_world_1).
  reflexivity.
Defined.

End InsightLists.

(** ** Projections over time and the metadata boost *)

Section ProjectionTrends.
Import Js Types Analysis.
Local Open Scope R_scope.

Lemma estimateConversionRate_bounds (rank : R) :
  0.001 <= estimateConversionRate rank <= 0.12.
Proof. unfold estimateConversionRate. repeat destruct (Rle_dec _ _); lra. Qed.

Lemma estimateConversionRate_antitone (rank1 rank2 : R) :
  rank1 <= rank2 ->
  estimateConversionRate rank2 <= estimateConversionRate rank1.
Proof.
  intros Hle. unfold estimateConversionRate.
  repeat destruct (Rle_dec _ _); lra.
Qed.

(** X11. The conversion rate never increases with the rank, and it
    stays between 0.1% and 12%. *)
Theorem conversion_rate_antitone (rank1 rank2 : R) :
  rank1 <= rank2 ->
  estimateConversionRate rank2 <= estimateConversionRate rank1
  /\ 0.001 <= estimateConversionRate rank1 <= 0.12
  /\ 0.001 <= estimateConversionRate rank2 <= 0.12.
Proof.
  intros Hle. split; [now apply estimateConversionRate_antitone|].
  split; apply estimateConversionRate_bounds.
Qed.

Lemma conversion_rate_antitone_witness :
  1 <= 7
  /\ estimateConversionRate 7 <= estimateConversionRate 1
  /\ 0.001 <= estimateConversionRate 1 <= 0.12
  /\ 0.001 <= estimateConversionRate 7 <= 0.12.
Proof.
  split; [lra|]. apply (conversion_rate_antitone 1 7). lra.
Defined.

(** The improvement before the cap, for a boost factor. *)
Lemma raw_improvement_monotone (currentRank difficulty months1 months2
    boost1 boost2 : R) :
  1 <= currentRank -> 0 <= difficulty <= 100 ->
  months1 <= months2 -> 0 <= boost1 <= boost2 ->
  Math_min (Math_log10 (currentRank + 10) / 2) 1
  * (1 - difficulty / 200) * Math_sqrt months1 * 20 * boost1
  <= Math_min (Math_log10 (currentRank + 10) / 2) 1
     * (1 - difficulty / 200) * Math_sqrt months2 * 20 * boost2.
Proof.
  intros Hrank Hdifficulty Hmonths Hboost.
  pose proof (rankFactor_pos currentRank Hrank) as [Hrf _].
  set (rf := Math_min _ _) in *.
  pose proof (sqrt_pos months1) as Hs1.
  pose proof (sqrt_le_1_alt months1 months2 Hmonths) as Hs.
  unfold Math_sqrt.
  assert (0 <= rf * (1 - difficulty / 200) * 20) as Hc.
  { apply Rmult_le_pos; [apply Rmult_le_pos|]; lra. }
  assert (sqrt months1 * boost1 <= sqrt months2 * boost2) as Hsb
    by (apply Rmult_le_compat; lra).
  replace (rf * (1 - difficulty / 200) * sqrt months1 * 20 * boost1)
    with (rf * (1 - difficulty / 200) * 20 * (sqrt months1 * boost1))
    by ring.
  replace (rf * (1 - difficulty / 200) * sqrt months2 * 20 * boost2)
    with (rf * (1 - difficulty / 200) * 20 * (sqrt months2 * boost2))
    by ring.
  now apply Rmult_le_compat_l.
Qed.

Lemma estimate_monotone (currentRank difficulty months1 months2 : R) :
  1 <= currentRank -> 0 <= difficulty <= 100 -> months1 <= months2 ->
  estimateRankImprovement currentRank difficulty months1
  <= estimateRankImprovement currentRank difficulty months2
  /\ estimateRankImprovementBoosted currentRank difficulty months1
     <= estimateRankImprovementBoosted currentRank difficulty months2
  /\ estimateRankImprovement currentRank difficulty months1
     <= estimateRankImprovementBoosted currentRank difficulty months1.
Proof.
  intros Hrank Hdifficulty Hmonths.
  pose proof (raw_improvement_monotone currentRank difficulty months1 months2
                1 1 Hrank Hdifficulty Hmonths ltac:(lra)) as Hplain.
  pose proof (raw_improvement_monotone currentRank difficulty months1 months2
                1.2 1.2 Hrank Hdifficulty Hmonths ltac:(lra)) as Hboosted.
  pose proof (raw_improvement_monotone currentRank difficulty months1 months1
                1 1.2 Hrank Hdifficulty ltac:(lra) ltac:(lra)) as Hboost.
  unfold estimateRankImprovement, estimateRankImprovementBoosted,
    metadataBoostFactor.
  cbv zeta. set (rf := Math_min (Math_log10 (currentRank + 10) / 2) 1) in *.
  unfold Math_min at 1 2 3 4 5 6. unfold Rmin.
  repeat destruct (Rle_dec _ _); lra.
Qed.

Lemma projectedRankBy_antitone (estimate1 estimate2 : R -> R -> R -> R)
    (currentRank difficulty months1 months2 : R) :
  estimate1 currentRank difficulty months1
  <= estimate2 currentRank difficulty months2 ->
  projectedRankBy estimate2 currentRank difficulty months2
  <= projectedRankBy estimate1 currentRank difficulty months1.
Proof.
  intros Hle. unfold projectedRankBy, Math_max, Rmax. cbv zeta.
  repeat destruct (Rle_dec _ _); lra.
Qed.

Lemma monthlyDownloadsBy_monotone (estimate1 estimate2 : R -> R -> R -> R)
    (k : KeywordData) (months1 months2 : R) :
  0 <= or_default (volume k) 100 ->
  projectedRankOf estimate2 k months2 <= projectedRankOf estimate1 k months1 ->
  0 <= monthlyDownloadsBy estimate1 k months1
    <= monthlyDownloadsBy estimate2 k months2.
Proof.
  intros Hvolume Hrank. unfold monthlyDownloadsBy. cbv zeta.
  pose proof (estimateConversionRate_antitone _ _ Hrank) as Hrate.
  pose proof (estimateConversionRate_bounds
                (projectedRankOf estimate1 k months1)) as [Hlow _].
  set (v := or_default (volume k) 100) in *.
  set (r1 := estimateConversionRate (projectedRankOf estimate1 k months1))
    in *.
  set (r2 := estimateConversionRate (projectedRankOf estimate2 k months2))
    in *.
  assert (0 <= v * r1) by (apply Rmult_le_pos; lra).
  assert (v * r1 <= v * r2) by (apply Rmult_le_compat_l; lra).
  lra.
Qed.

Lemma Math_round_monotone (x y : R) : x <= y -> Math_round x <= Math_round y.
Proof.
  intros Hle. unfold Math_round. apply IZR_le, Zfloor_le. lra.
Qed.

Lemma total_monotone (f g : KeywordData -> R) (ks : list KeywordData)
    (a b : R) :
  a <= b -> Forall (fun k => f k <= g k) ks ->
  fold_left (fun totalDownloads k => totalDownloads + f k) ks a
  <= fold_left (fun totalDownloads k => totalDownloads + g k) ks b.
Proof.
  intros Hab Hall. revert a b Hab.
  induction Hall as [|k ks Hk _ IH]; intros a b Hab; cbn [fold_left];
    [exact Hab|].
  apply IH. lra.
Qed.

Lemma total_nonneg (f : KeywordData -> R) (ks : list KeywordData) (a : R) :
  0 <= a -> Forall (fun k => 0 <= f k) ks ->
  0 <= fold_left (fun totalDownloads k => totalDownloads + f k) ks a.
Proof.
  intros Ha Hall. revert a Ha.
  induction Hall as [|k ks Hk _ IH]; intros a Ha; cbn [fold_left];
    [exact Ha|].
  apply IH. lra.
Qed.

Lemma projectedRankOf_order (k : KeywordData) (months1 months2 : R) :
  plausible k -> months1 <= months2 ->
  projectedRankOf estimateRankImprovement k months2
  <= projectedRankOf estimateRankImprovement k months1
  /\ projectedRankOf estimateRankImprovementBoosted k months2
     <= projectedRankOf estimateRankImprovementBoosted k months1
  /\ projectedRankOf estimateRankImprovementBoosted k months1
     <= projectedRankOf estimateRankImprovement k months1.
Proof.
  intros (_ & Hrank & Hdifficulty) Hmonths. unfold projectedRankOf. cbv zeta.
  destruct (estimate_monotone _ _ _ _ Hrank Hdifficulty Hmonths)
    as (Hplain & Hboosted & Hboost).
  split; [now apply projectedRankBy_antitone|].
  split; now apply projectedRankBy_antitone.
Qed.

Lemma Math_round_nonneg (x : R) : 0 <= x -> 0 <= Math_round x.
Proof.
  intros Hx. unfold Math_round. apply IZR_le, Zfloor_lub. simpl. lra.
Qed.

(** X12. For keywords with plausible metrics the projection grows with
    time: the projected rank of a keyword never gets worse when the
    time frame gets longer, and the projected downloads of the four
    time frames (1, 3, 6 and 12 months) are not negative and never
    decrease from one time frame to the next.  This holds for the
    projection of the analysis service and for the projection with the
    metadata boost. *)
Theorem projections_grow_with_time (keywordsToProject : list KeywordData) :
  Forall plausible keywordsToProject ->
  (forall k months1 months2,
     k ∈ keywordsToProject -> months1 <= months2 ->
     projectedRankOf estimateRankImprovement k months2
     <= projectedRankOf estimateRankImprovement k months1
     /\ projectedRankOf estimateRankImprovementBoosted k months2
        <= projectedRankOf estimateRankImprovementBoosted k months1)
  /\ nondecreasing
       (0 :: projectedDownloadsBy estimateRankImprovement keywordsToProject)
  /\ nondecreasing
       (0 :: projectedDownloadsBy estimateRankImprovementBoosted
               keywordsToProject).
Proof.
  intros Hall. split.
  { intros k months1 months2 Hk Hmonths.
    rewrite Forall_forall in Hall.
    destruct (projectedRankOf_order k months1 months2 (Hall k Hk) Hmonths)
      as (H1 & H2 & _).
    now split. }
  assert (forall estimate months1 months2,
            (forall k, plausible k ->
               projectedRankOf estimate k months2
               <= projectedRankOf estimate k months1) ->
            Math_round
              (fold_left (fun totalDownloads k =>
                            totalDownloads
                            + monthlyDownloadsBy estimate k months1)
                         keywordsToProject 0)
            <= Math_round
                 (fold_left (fun totalDownloads k =>
                               totalDownloads
                               + monthlyDownloadsBy estimate k months2)
                            keywordsToProject 0)) as Hstep.
  { intros estimate months1 months2 Horder.
    apply Math_round_monotone, total_monotone; [lra|].
    eapply Forall_impl; [exact Hall|]. cbn. intros k Hk.
    apply monthlyDownloadsBy_monotone; [apply Hk | now apply Horder]. }
  assert (forall estimate months,
            0 <= Math_round
                   (fold_left (fun totalDownloads k =>
                                 totalDownloads
                                 + monthlyDownloadsBy estimate k months)
                              keywordsToProject 0)) as Hzero.
  { intros estimate months.
    apply Math_round_nonneg, total_nonneg; [lra|].
    eapply Forall_impl; [exact Hall|]. cbn. intros k Hk.
    apply (monthlyDownloadsBy_monotone estimate estimate k months months);
      [apply Hk | lra]. }
  unfold projectedDownloadsBy, timeframes. cbn [map nondecreasing].
  split.
  - split; [apply Hzero|].
    repeat split; apply Hstep; intros k Hk;
      apply (projectedRankOf_order k _ _ Hk); lra.
  - split; [apply Hzero|].
    repeat split; apply Hstep; intros k Hk;
      apply (projectedRankOf_order k _ _ Hk); lra.
Qed.

Lemma sample_plausible_Forall : Forall plausible sample_plausible.
Proof.
  unfold sample_plausible, plausible, or_default.
  repeat constructor; cbn [volume currentRank difficulty];
    repeat destruct (Req_dec_T _ _); lra.
Qed.

Lemma projections_grow_with_time_witness :
  Forall plausible sample_plausible
  /\ (forall k months1 months2,
        k ∈ sample_plausible -> months1 <= months2 ->
        projectedRankOf estimateRankImprovement k months2
        <= projectedRankOf estimateRankImprovement k months1
        /\ projectedRankOf estimateRankImprovementBoosted k months2
           <= projectedRankOf estimateRankImprovementBoosted k months1)
  /\ nondecreasing
       (0 :: projectedDownloadsBy estimateRankImprovement sample_plausible)
  /\ nondecreasing
       (0 :: projectedDownloadsBy estimateRankImprovementBoosted
               sample_plausible).
Proof.
  split; [apply sample_plausible_Forall|].
  apply (projections_grow_with_time sample_plausible).
  apply sample_plausible_Forall.
Defined.

(** X13. The metadata boost never hurts: for keywords with plausible
    metrics the projected rank with the boost is at most the projected
    rank without it, for every time frame, and the projected downloads
    with the boost are at least the projected downloads without it,
    time frame by time frame. *)
Theorem metadata_boost_never_hurts (keywordsToProject : list KeywordData) :
  Forall plausible keywordsToProject ->
  (forall k months,
     k ∈ keywordsToProject ->
     projectedRankOf estimateRankImprovementBoosted k months
     <= projectedRankOf estimateRankImprovement k months)
  /\ Forall2 Rle
       (projectedDownloadsBy estimateRankImprovement keywordsToProject)
       (projectedDownloadsBy estimateRankImprovementBoosted
          keywordsToProject).
Proof.
  intros Hall.
  assert (forall k months,
            plausible k ->
            projectedRankOf estimateRankImprovementBoosted k months
            <= projectedRankOf estimateRankImprovement k months) as Hboost.
  { intros k months Hk.
    apply (projectedRankOf_order k months months Hk). lra. }
  split.
  { intros k months Hk. rewrite Forall_forall in Hall. auto. }
  assert (forall months,
            Math_round
              (fold_left (fun totalDownloads k =>
                            totalDownloads
                            + monthlyDownloadsBy estimateRankImprovement k
                                months)
                         keywordsToProject 0)
            <= Math_round
                 (fold_left (fun totalDownloads k =>
                               totalDownloads
                               + monthlyDownloadsBy
                                   estimateRankImprovementBoosted k months)
                            keywordsToProject 0)) as Hstep.
  { intros months. apply Math_round_monotone, total_monotone; [lra|].
    eapply Forall_impl; [exact Hall|]. cbn. intros k Hk.
    apply monthlyDownloadsBy_monotone; [apply Hk | now apply Hboost]. }
  unfold projectedDownloadsBy, timeframes. cbn [map].
  repeat (constructor; [apply Hstep|]). constructor.
Qed.

Lemma metadata_boost_never_hurts_witness :
  Forall plausible sample_plausible
  /\ (forall k months,
        k ∈ sample_plausible ->
        projectedRankOf estimateRankImprovementBoosted k months
        <= projectedRankOf estimateRankImprovement k months)
  /\ Forall2 Rle
       (projectedDownloadsBy estimateRankImprovement sample_plausible)
       (projectedDownloadsBy estimateRankImprovementBoosted sample_plausible).
Proof.
  split; [apply sample_plausible_Forall|].
  apply (metadata_boost_never_hurts sample_plausible).
  apply sample_plausible_Forall.
Defined.

End ProjectionTrends.

(** ** The analysis service: warnings, recommendations, projections *)

Section RecommendationFacts.
Import Js JsLib Types Runtime Analysis Recommendations.
Local Open Scope R_scope.

(** *** Warnings *)

Lemma existsb_is_Some {A : Type} (f : KeywordData -> option A)
    (l : list KeywordData) :
  existsb (fun k => bool_decide (is_Some (f k))) l = true
  <-> Exists (fun k => is_Some (f k)) l.
Proof.
  rewrite existsb_exists, list.Exists_exists. split.
  - intros (k & Hin & Hk). exists k.
    split; [now apply list_elem_of_In | now apply bool_decide_eq_true_1 in Hk].
  - intros (k & Hin & Hk). exists k.
    split; [now apply list_elem_of_In | now apply bool_decide_eq_true_2].
Qed.

(** X14. There is no warning exactly when the app name, the app id
    and the store are present and some keyword has a volume, some
    keyword has a difficulty and some keyword has a current rank.
    There are never more than five warnings, and an empty dataset gets
    both the warning that no keywords were found and the warning that
    lists all three metrics as missing. *)
Theorem missing_data_warnings (details : Flexible.AppDetails)
    (keywords : list KeywordData) :
  (generateMissingDataWarnings details keywords = []
   <-> present (Flexible.appName details) = true
       /\ present (Flexible.appId details) = true
       /\ present (Flexible.store details) = true
       /\ Exists (fun k => is_Some (volume k)) keywords
       /\ Exists (fun k => is_Some (difficulty k)) keywords
       /\ Exists (fun k => is_Some (currentRank k)) keywords)
  /\ (length (generateMissingDataWarnings details keywords) <= 5)%nat
  /\ exists appWarnings,
       generateMissingDataWarnings details []
       = appWarnings
         ++ ["No keywords found in the data. Please ensure your CSV contains keyword information.";
             "Missing search volume, difficulty/competition, current rank data for keywords. Analysis will be limited."].
Proof.
  split; [|split].
  - rewrite <- !existsb_is_Some.
    unfold generateMissingDataWarnings. cbv zeta.
    destruct keywords as [|k0 keywords].
    { cbn [existsb negb app length Nat.ltb Nat.leb Nat.eqb].
      split; [|intros (_ & _ & _ & Hv & _); discriminate].
      destruct (negb _), (negb _), (negb _); discriminate. }
    set (v := existsb _ _). set (d := existsb _ _). set (r := existsb _ _).
    cbn [length Nat.eqb].
    destruct (present (Flexible.appName details)),
      (present (Flexible.appId details)),
      (present (Flexible.store details)), v, d, r;
      cbn [negb app length Nat.ltb Nat.leb];
      (split; [try discriminate; auto 10 | intros (? & ? & ? & ? & ? & ?);
                                           try discriminate; reflexivity]).
  - unfold generateMissingDataWarnings. cbv zeta.
    rewrite !length_app.
    repeat match goal with
           | |- context [if ?b then _ else _] => destruct b
           end; cbn [length]; lia.
  - unfold generateMissingDataWarnings. cbv zeta.
    cbn [existsb negb app length Nat.ltb Nat.leb Nat.eqb].
    eexists. rewrite !app_assoc. reflexivity.
Qed.

(** *** Scores *)

Lemma or_default_absentIfZero (x : option R) (d : R) :
  or_default match x with
             | Some v => if Req_dec_T v 0 then None else Some v
             | None => None
             end d
  = or_default x d.
Proof.
  destruct x as [v|]; [|reflexivity]. unfold or_default.
  destruct (Req_dec_T v 0) as [Hz|Hz]; [reflexivity|].
  now destruct (Req_dec_T v 0).
Qed.

Lemma or_default_zero (d : R) : or_default (Some 0) d = d.
Proof. unfold or_default. destruct (Req_dec_T 0 0); [reflexivity | lra]. Qed.

Lemma or_default_nonzero (v d : R) : v <> 0 -> or_default (Some v) d = v.
Proof. intros Hv. unfold or_default. now destruct (Req_dec_T v 0). Qed.

(** X15. A zero counts as a missing value: the three scores and the
    projections of a record are those of the record with its zero
    volume, difficulty and rank removed.  Hence a keyword of volume 0
    is projected with the default volume 100 and contributes at least
    3 downloads a month, and a keyword of difficulty 0 is scored as one
    of difficulty 50: below a keyword of the same volume whose
    difficulty is between 0 and 50. *)
Theorem zero_counts_as_missing (k : KeywordData)
    (estimate : R -> R -> R -> R) (months : R) :
  (scoreTitleKeyword k = scoreTitleKeyword (zeroAsMissing k)
   /\ scoreSubtitleKeyword k = scoreSubtitleKeyword (zeroAsMissing k)
   /\ scoreKeywordFieldKeyword k = scoreKeywordFieldKeyword (zeroAsMissing k))
  /\ (projectedRankOf estimate k months
      = projectedRankOf estimate (zeroAsMissing k) months
      /\ monthlyDownloadsBy estimate k months
         = monthlyDownloadsBy estimate (zeroAsMissing k) months)
  /\ (volume k = Some 0 -> 3 <= monthlyDownloadsBy estimate k months)
  /\ (difficulty k = Some 0 ->
      forall k' d, volume k' = volume k -> difficulty k' = Some d ->
                   0 < d < 50 ->
                   scoreSubtitleKeyword k < scoreSubtitleKeyword k'
                   /\ scoreKeywordFieldKeyword k
                      < scoreKeywordFieldKeyword k').
Proof.
  split; [|split; [|split]].
  - unfold scoreTitleKeyword, scoreSubtitleKeyword, scoreKeywordFieldKeyword,
      zeroAsMissing.
    cbn [volume difficulty currentRank].
    now rewrite !or_default_absentIfZero.
  - unfold monthlyDownloadsBy, projectedRankOf, zeroAsMissing.
    cbn [volume difficulty currentRank].
    now rewrite !or_default_absentIfZero.
  - intros Hvolume. unfold monthlyDownloadsBy. cbv zeta.
    rewrite Hvolume, or_default_zero.
    pose proof (estimateConversionRate_bounds
                  (projectedRankOf estimate k months)) as [Hlow _].
    lra.
  - intros Hdifficulty k' d Hvolume Hd Hrange.
    unfold scoreSubtitleKeyword, scoreKeywordFieldKeyword. cbv zeta.
    rewrite Hvolume, Hdifficulty, Hd, or_default_zero.
    rewrite or_default_nonzero by lra. lra.
Qed.

(** *** The keywords of the title *)

Lemma byScoreDescending_key (score : KeywordData -> R) (a b : KeywordData) :
  byScoreDescending score a b = score b - score a.
Proof. reflexivity. Qed.

Lemma sort_by_head {A : Type} (compare : A -> A -> R) (key : A -> R)
    (l : list A) (x : A) :
  (forall a b, compare a b = key b - key a) ->
  head (sort_by compare l) = Some x ->
  x ∈ l
  /\ (forall y, y ∈ l -> key y <= key x)
  /\ head (withKey key (key x) l) = Some x.
Proof.
  intros Hcompare Hhead.
  pose proof (sort_by_Permutation compare l) as Hperm.
  pose proof (sort_by_descending compare key l Hcompare) as Hdesc.
  pose proof (sort_by_stable compare key (key x) l Hcompare) as Hstable.
  destruct (sort_by compare l) as [|x' rest]; [discriminate|].
  injection Hhead as ->.
  split; [rewrite <- Hperm; apply list_elem_of_here|].
  split.
  - intros y Hy. rewrite <- Hperm in Hy.
    apply elem_of_cons in Hy as [->|Hy]; [lra|].
    destruct Hdesc as [Hall _]. rewrite Forall_forall in Hall. auto.
  - rewrite <- Hstable. unfold withKey. cbn [List.filter].
    now destruct (Req_dec_T (key x) (key x)).
Qed.

Lemma sort_by_nonempty {A : Type} (compare : A -> A -> R) (l : list A) :
  l <> [] -> exists x, head (sort_by compare l) = Some x.
Proof.
  intros Hl. pose proof (sort_by_length compare l) as Hlen.
  destruct (sort_by compare l) as [|x rest]; [|now exists x].
  destruct l; [contradiction | discriminate].
Qed.

(** X16. The recommendations always hold one to three titles, three
    subtitles and three keyword fields.  When the dataset is not empty
    the first title is built from the keyword of a record whose title
    score is the largest of the dataset; with an app name the title is
    the name, a colon and the keyword, without one it is the keyword
    followed by [App].  For an empty dataset the titles are made of
    the app name alone.  Which of several records with the largest
    score leads is not stated.  The volumes, difficulties and ranks
    are whole numbers of at most a billion in absolute value. *)
Theorem best_keyword_leads_title (details : Flexible.AppDetails)
    (keywords : list KeywordData) (insights : KeywordInsights) :
  Forall wholeMetrics keywords ->
  let recommendations :=
    generateMetadataRecommendations details keywords insights in
  let appName := default "" (Flexible.appName details) in
  (1 <= length (title recommendations) <= 3)%nat
  /\ length (subtitle recommendations) = 3%nat
  /\ length (keywordField recommendations) = 3%nat
  /\ match keywords with
     | [] =>
         title recommendations
         = if truthy appName then [appName +:+ ": "; " - " +:+ appName]
           else [" App"]
     | _ :: _ =>
         exists best,
           best ∈ keywords
           /\ (forall k, k ∈ keywords ->
                 scoreTitleKeyword k <= scoreTitleKeyword best)
           /\ head (title recommendations)
              = Some (if truthy appName
                      then appName +:+ ": " +:+ keyword best
                      else keyword best +:+ " App")
     end.
Proof.
  intros _.
  cbv zeta. unfold generateMetadataRecommendations. cbv zeta.
  cbn [title subtitle keywordField].
  set (appName := default "" (Flexible.appName details)).
  set (titleKeywords :=
         take 10 (sort_by (byScoreDescending scoreTitleKeyword) keywords)).
  split.
  { destruct (truthy appName);
      repeat match goal with
             | |- context [bool_decide ?P] => destruct (bool_decide P)
             end; cbn [app length]; lia. }
  split; [reflexivity|]. split; [reflexivity|].
  destruct keywords as [|k0 keywords].
  { subst titleKeywords. cbn [sort_by foldr take keywordAt lookup list_lookup].
    unfold keywordAt. cbn.
    destruct (truthy appName); reflexivity. }
  destruct (sort_by_nonempty (byScoreDescending scoreTitleKeyword)
              (k0 :: keywords) ltac:(discriminate)) as [best Hbest].
  destruct (sort_by_head _ scoreTitleKeyword _ _
              (byScoreDescending_key scoreTitleKeyword) Hbest)
    as (Hin & Hmax & _).
  exists best. split; [exact Hin|]. split; [exact Hmax|].
  assert (keywordAt titleKeywords 0 = keyword best) as ->.
  { unfold keywordAt, titleKeywords.
    destruct (sort_by _ _) as [|x rest]; [discriminate|].
    now injection Hbest as ->. }
  destruct (truthy appName); reflexivity.
Qed.

Lemma wholeNumber_Some (z : Z) :
  (0 <= z <= 1000000000)%Z -> wholeNumber (Some (IZR z)).
Proof.
  intros Hz v [= <-]. split; [now exists z|].
  rewrite Rabs_pos_eq by (apply IZR_le; lia). apply IZR_le. lia.
Qed.

Lemma wholeNumber_None : wholeNumber None.
Proof. intros v Hv. discriminate Hv. Qed.

Lemma sample_plausible_whole : Forall wholeMetrics sample_plausible.
Proof.
  unfold sample_plausible, wholeMetrics.
  constructor; [|constructor; [|constructor]];
    cbn [volume difficulty currentRank].
  - split; [apply (wholeNumber_Some 1200); lia|].
    split; [apply (wholeNumber_Some 35) | apply (wholeNumber_Some 60)]; lia.
  - split; [|split]; apply wholeNumber_None.
Qed.

Lemma best_keyword_leads_title_witness :
  Forall wholeMetrics sample_plausible
  /\ let recommendations :=
       generateMetadataRecommendations
         sample_details sample_plausible
         (mkKeywordInsights [] [] [] [] ∅ "") in
     let appName := default "" (Flexible.appName sample_details) in
     (1 <= length (title recommendations) <= 3)%nat
     /\ length (subtitle recommendations) = 3%nat
     /\ length (keywordField recommendations) = 3%nat
     /\ exists best,
          best ∈ sample_plausible
          /\ (forall k, k ∈ sample_plausible ->
                scoreTitleKeyword k <= scoreTitleKeyword best)
          /\ head (title recommendations)
             = Some (if truthy appName
                     then appName +:+ ": " +:+ keyword best
                     else keyword best +:+ " App").
Proof.
  split; [exact sample_plausible_whole|].
  apply (best_keyword_leads_title sample_details sample_plausible
           (mkKeywordInsights [] [] [] [] ∅ "")).
  exact sample_plausible_whole.
Defined.

(** *** The keywords to project *)












(** *** The projected ranks per keyword *)






End RecommendationFacts.

(** ** The prediction utilities *)

Section PredictionFacts.
Import Js JsLib Types Runtime Prediction.
Local Open Scope R_scope.

Lemma Math_floor_range (x : R) (n : Z) :
  0 <= x < IZR n -> integerBetween 0 (IZR n - 1) (Math_floor x).
Proof.
  intros [Hlo Hhi]. unfold integerBetween, Math_floor.
  destruct (Zfloor_bound x) as [Hfloor Hnext].
  split; [now exists (Zfloor x)|].
  split.
  - apply IZR_le. assert (-1 < Zfloor x)%Z; [|lia].
    apply lt_IZR. lra.
  - assert (Zfloor x <= n - 1)%Z as Hle.
    { assert (Zfloor x < n)%Z; [|lia]. apply lt_IZR. lra. }
    apply IZR_le in Hle. rewrite minus_IZR in Hle. exact Hle.
Qed.

Lemma integerBetween_shift (lo hi x : R) (z : Z) :
  integerBetween lo hi x -> integerBetween (lo + IZR z) (hi + IZR z) (x + IZR z).
Proof.
  intros [[y ->] Hrange]. split; [|lra].
  exists (y + z)%Z. now rewrite plus_IZR.
Qed.

Lemma integerBetween_bounds (lo hi lo' hi' x : R) :
  lo' <= lo -> hi <= hi' -> integerBetween lo hi x -> integerBetween lo' hi' x.
Proof. intros Hlo Hhi [Hint Hrange]. split; [exact Hint | lra]. Qed.

Lemma defaultRank_range (r : R) :
  0 <= r < 1 -> integerBetween 1 100 (Math_floor (r * 100) + 1).
Proof.
  intros Hr.
  apply (integerBetween_bounds (0 + 1) (100 - 1 + 1)); [lra | lra |].
  apply (integerBetween_shift 0 (100 - 1) _ 1), (Math_floor_range _ 100). lra.
Qed.

Lemma defaultVolume_range (r : R) :
  0 <= r < 1 -> integerBetween 100 1099 (Math_floor (r * 1000) + 100).
Proof.
  intros Hr.
  apply (integerBetween_bounds (0 + 100) (1000 - 1 + 100)); [lra | lra |].
  apply (integerBetween_shift 0 (1000 - 1) _ 100), (Math_floor_range _ 1000).
  lra.
Qed.

Lemma defaultDifficulty_range (r : R) :
  0 <= r < 1 -> integerBetween 0 99 (Math_floor (r * 100)).
Proof.
  intros Hr.
  apply (integerBetween_bounds 0 (100 - 1)); [lra | lra |].
  apply (Math_floor_range _ 100). lra.
Qed.

(** X19. The metrics that are missing are filled in from the random
    source, within fixed ranges: for a source of numbers from 0
    (included) to 1 (excluded), a missing rank becomes an integer from
    1 to 100, a missing volume an integer from 100 to 1099 and a
    missing difficulty an integer from 0 to 99.  A metric that is
    present is kept as it is, zero included.  Three numbers are drawn
    in every case, and no array is touched. *)
Theorem backfilled_metrics_in_range (data : KeywordData) (w : World) :
  unitSource w ->
  let metrics := fst (getKeywordMetrics data w) in
  let after := snd (getKeywordMetrics data w) in
  (match Types.currentRank data with
   | Some rank => Metrics.currentRank metrics = rank
   | None => integerBetween 1 100 (Metrics.currentRank metrics)
   end)
  /\ (match Types.volume data with
      | Some volume => Metrics.volume metrics = volume
      | None => integerBetween 100 1099 (Metrics.volume metrics)
      end)
  /\ (match Types.difficulty data with
      | Some difficulty => Metrics.difficulty metrics = difficulty
      | None => integerBetween 0 99 (Metrics.difficulty metrics)
      end)
  /\ (forall n, randomSource after n = randomSource w (3 + n)%nat)
  /\ arrays after = arrays w.
Proof.
  intros Hunit. cbv zeta. rewrite getKeywordMetrics_run.
  cbn [fst snd Metrics.currentRank Metrics.volume Metrics.difficulty
         randomSource arrays].
  split; [|split; [|split; [|split]]].
  - destruct (Types.currentRank data); [reflexivity|].
    apply defaultRank_range, Hunit.
  - destruct (Types.volume data); [reflexivity|].
    apply defaultVolume_range, Hunit.
  - destruct (Types.difficulty data); [reflexivity|].
    apply defaultDifficulty_range, Hunit.
  - reflexivity.
  - reflexivity.
Qed.

Lemma unitSource_constantWorld : unitSource (constantWorld (/ 2)).
Proof. intros n. cbn. lra. Qed.

Lemma backfilled_metrics_in_range_witness :
  unitSource (constantWorld (/ 2))
  /\ (match Types.currentRank unrankedKeyword with
      | Some rank =>
          Metrics.currentRank
            (fst (getKeywordMetrics unrankedKeyword (constantWorld (/ 2))))
          = rank
      | None =>
          integerBetween 1 100
            (Metrics.currentRank
               (fst (getKeywordMetrics unrankedKeyword
                       (constantWorld (/ 2)))))
      end)
  /\ (match Types.volume unrankedKeyword with
      | Some volume =>
          Metrics.volume
            (fst (getKeywordMetrics unrankedKeyword (constantWorld (/ 2))))
          = volume
      | None =>
          integerBetween 100 1099
            (Metrics.volume
               (fst (getKeywordMetrics unrankedKeyword
                       (constantWorld (/ 2)))))
      end)
  /\ (match Types.difficulty unrankedKeyword with
      | Some difficulty =>
          Metrics.difficulty
            (fst (getKeywordMetrics unrankedKeyword (constantWorld (/ 2))))
          = difficulty
      | None =>
          integerBetween 0 99
            (Metrics.difficulty
               (fst (getKeywordMetrics unrankedKeyword
                       (constantWorld (/ 2)))))
      end)
  /\ (forall n,
        randomSource
          (snd (getKeywordMetrics unrankedKeyword (constantWorld (/ 2)))) n
        = randomSource (constantWorld (/ 2)) (3 + n)%nat)
  /\ arrays (snd (getKeywordMetrics unrankedKeyword (constantWorld (/ 2))))
     = arrays (constantWorld (/ 2)).
Proof.
  split; [apply unitSource_constantWorld|].
  apply (backfilled_metrics_in_range unrankedKeyword (constantWorld (/ 2))).
  apply unitSource_constantWorld.
Defined.

(** *** Predicted ranks and installs *)

Lemma Math_max_1 (x : R) : 1 <= Math_max 1 x.
Proof. unfold Math_max. apply Rmax_l. Qed.

Lemma Math_max_monotone (x y : R) : x <= y -> Math_max 1 x <= Math_max 1 y.
Proof. intros Hle. unfold Math_max, Rmax. repeat destruct (Rle_dec _ _); lra. Qed.

Lemma Math_max_round_integer (x : R) :
  exists z : Z, Math_max 1 (Math_round x) = IZR z.
Proof.
  unfold Math_max, Rmax, Math_round.
  destruct (Rle_dec _ _); [now eexists | now exists 1%Z].
Qed.

(** X20. The predicted rank is an integer of at least 1.  For a
    difficulty from 0 to 100 and a target that is not above the current
    rank it lies between the target and the current rank (both rounded
    and raised to 1): the prediction never passes the target and never
    falls behind the current rank.  With difficulty 100 there is no
    progress, and with a difficulty of 0 or less the target is
    reached. *)
Theorem predicted_rank_between (currentRank targetRank difficulty : R) :
  (1 <= calculatePredictedRank currentRank targetRank difficulty
   /\ exists z : Z,
        calculatePredictedRank currentRank targetRank difficulty = IZR z)
  /\ (0 <= difficulty <= 100 -> targetRank <= currentRank ->
      Math_max 1 (Math_round targetRank)
      <= calculatePredictedRank currentRank targetRank difficulty
      <= Math_max 1 (Math_round currentRank))
  /\ (difficulty = 100 ->
      calculatePredictedRank currentRank targetRank difficulty
      = Math_max 1 (Math_round currentRank))
  /\ (difficulty <= 0 ->
      calculatePredictedRank currentRank targetRank difficulty
      = Math_max 1 (Math_round targetRank)).
Proof.
  unfold calculatePredictedRank. cbv zeta.
  split; [split; [apply Math_max_1 | apply Math_max_round_integer]|].
  split; [|split].
  - intros Hdifficulty Htarget.
    assert (Math_min 1 ((100 - difficulty) / 100) = (100 - difficulty) / 100)
      as -> by (unfold Math_min; apply Rmin_right; lra).
    split; apply Math_max_monotone, Math_round_monotone; nra.
  - intros ->.
    assert (Math_min 1 ((100 - 100) / 100) = 0) as ->
      by (unfold Math_min; rewrite Rmin_right; lra).
    f_equal. f_equal. lra.
  - intros Hdifficulty.
    assert (Math_min 1 ((100 - difficulty) / 100) = 1) as ->
      by (unfold Math_min; apply Rmin_left; lra).
    f_equal. f_equal. lra.
Qed.

Lemma multiplier_ge_1 (x : R) : 0 <= x -> 1 <= Math_pow 1.2 x.
Proof.
  intros Hx. unfold Math_pow.
  rewrite <- (Rpower_O 1.2) by lra. apply Rle_Rpower; lra.
Qed.

Lemma multiplier_le_1 (x : R) : x <= 0 -> 0 < Math_pow 1.2 x <= 1.
Proof.
  intros Hx. unfold Math_pow. split.
  - unfold Rpower. apply exp_pos.
  - assert (Rpower 1.2 x <= Rpower 1.2 0) as Hle
      by (apply Rle_Rpower; lra).
    now rewrite Rpower_O in Hle by lra.
Qed.

(** X21. Installs follow the rank: for a volume that is not negative,
    the predicted installs are at least the rounded volume when the
    predicted rank is not worse than the current rank, at most the
    rounded volume (and not negative) when it is not better, and the
    rounded volume itself when the rank does not change. *)
Theorem predicted_installs_follow_rank (volume currentRank predictedRank : R) :
  0 <= volume ->
  (predictedRank <= currentRank ->
   Math_round volume
   <= calculatePredictedInstalls volume currentRank predictedRank)
  /\ (currentRank <= predictedRank ->
      0 <= calculatePredictedInstalls volume currentRank predictedRank
        <= Math_round volume)
  /\ (currentRank = predictedRank ->
      calculatePredictedInstalls volume currentRank predictedRank
      = Math_round volume).
Proof.
  intros Hvolume. unfold calculatePredictedInstalls. cbv zeta.
  split; [|split].
  - intros Hrank.
    pose proof (multiplier_ge_1 ((currentRank - predictedRank) / 10)
                  ltac:(lra)) as Hm.
    apply Math_round_monotone. nra.
  - intros Hrank.
    pose proof (multiplier_le_1 ((currentRank - predictedRank) / 10)
                  ltac:(lra)) as [Hpos Hm].
    split; [apply Math_round_nonneg | apply Math_round_monotone]; nra.
  - intros ->. f_equal. unfold Math_pow.
    replace ((predictedRank - predictedRank) / 10) with 0 by lra.
    rewrite Rpower_O by lra. lra.
Qed.

Lemma predicted_installs_follow_rank_witness :
  0 <= 1200
  /\ (13 <= 50 -> Math_round 1200 <= calculatePredictedInstalls 1200 50 13)
  /\ (50 <= 13 ->
      0 <= calculatePredictedInstalls 1200 50 13 <= Math_round 1200)
  /\ (50 = 13 -> calculatePredictedInstalls 1200 50 13 = Math_round 1200).
Proof.
  split; [lra|]. apply (predicted_installs_follow_rank 1200 50 13). lra.
Defined.

(** *** The recommendation score *)

Lemma score_argument_bounds (volume difficulty currentRank : R) :
  0 <= volume -> 0 <= difficulty <= 100 -> 0 <= currentRank ->
  0 <= (Math_min (volume / 1000) 1 * 0.4
        + (1 - difficulty / 100) * 0.3
        + (1 - Math_min currentRank 100 / 100) * 0.3) * 100 <= 100.
Proof.
  intros Hvolume Hdifficulty Hrank. unfold Math_min, Rmin.
  repeat destruct (Rle_dec _ _); lra.
Qed.

Lemma calculateRecommendationScore_range (volume difficulty currentRank : R) :
  0 <= volume -> 0 <= difficulty <= 100 -> 0 <= currentRank ->
  integerBetween 0 100
    (Ranking.calculateRecommendationScore volume difficulty currentRank).
Proof.
  intros Hvolume Hdifficulty Hrank.
  unfold Ranking.calculateRecommendationScore. cbv zeta.
  destruct (score_argument_bounds volume difficulty currentRank
              Hvolume Hdifficulty Hrank) as [Hlo Hhi].
  split; [unfold Math_round; now eexists|].
  split.
  - now apply Math_round_nonneg.
  - apply Rle_trans with (Math_round 100);
      [now apply Math_round_monotone|].
    rewrite (Math_round_IZR 100 100 eq_refl). lra.
Qed.

(** X22. The recommendation score is an integer from 0 to 100 for a
    volume and a rank that are not negative and a difficulty from 0 to
    100.  It never decreases when the volume grows, and never increases
    when the difficulty or the rank grows; a volume above 1000 counts
    as 1000 and a rank above 100 as 100. *)
Theorem recommendation_score_range (volume difficulty currentRank : R) :
  0 <= volume -> 0 <= difficulty <= 100 -> 0 <= currentRank ->
  integerBetween 0 100
    (Ranking.calculateRecommendationScore volume difficulty currentRank)
  /\ (forall volume', volume <= volume' ->
        Ranking.calculateRecommendationScore volume difficulty currentRank
        <= Ranking.calculateRecommendationScore volume' difficulty
             currentRank)
  /\ (forall difficulty', difficulty <= difficulty' ->
        Ranking.calculateRecommendationScore volume difficulty' currentRank
        <= Ranking.calculateRecommendationScore volume difficulty
             currentRank)
  /\ (forall currentRank', currentRank <= currentRank' ->
        Ranking.calculateRecommendationScore volume difficulty currentRank'
        <= Ranking.calculateRecommendationScore volume difficulty
             currentRank)
  /\ (1000 <= volume ->
      Ranking.calculateRecommendationScore volume difficulty currentRank
      = Ranking.calculateRecommendationScore 1000 difficulty currentRank)
  /\ (100 <= currentRank ->
      Ranking.calculateRecommendationScore volume difficulty currentRank
      = Ranking.calculateRecommendationScore volume difficulty 100).
Proof.
  intros Hvolume Hdifficulty Hrank.
  split; [now apply calculateRecommendationScore_range|].
  unfold Ranking.calculateRecommendationScore. cbv zeta.
  split; [|split; [|split; [|split]]].
  - intros volume' Hle. apply Math_round_monotone.
    unfold Math_min, Rmin. repeat destruct (Rle_dec _ _); lra.
  - intros difficulty' Hle. apply Math_round_monotone. lra.
  - intros currentRank' Hle. apply Math_round_monotone.
    unfold Math_min, Rmin. repeat destruct (Rle_dec _ _); lra.
  - intros Hle. f_equal.
    unfold Math_min, Rmin. repeat destruct (Rle_dec _ _); lra.
  - intros Hle. f_equal.
    unfold Math_min, Rmin. repeat destruct (Rle_dec _ _); lra.
Qed.

Lemma recommendation_score_range_witness :
  (0 <= 1200 /\ 0 <= 35 <= 100 /\ 0 <= 60)
  /\ integerBetween 0 100 (Ranking.calculateRecommendationScore 1200 35 60)
  /\ (forall volume', 1200 <= volume' ->
        Ranking.calculateRecommendationScore 1200 35 60
        <= Ranking.calculateRecommendationScore volume' 35 60)
  /\ (forall difficulty', 35 <= difficulty' ->
        Ranking.calculateRecommendationScore 1200 difficulty' 60
        <= Ranking.calculateRecommendationScore 1200 35 60)
  /\ (forall currentRank', 60 <= currentRank' ->
        Ranking.calculateRecommendationScore 1200 35 currentRank'
        <= Ranking.calculateRecommendationScore 1200 35 60)
  /\ (1000 <= 1200 ->
      Ranking.calculateRecommendationScore 1200 35 60
      = Ranking.calculateRecommendationScore 1000 35 60)
  /\ (100 <= 60 ->
      Ranking.calculateRecommendationScore 1200 35 60
      = Ranking.calculateRecommendationScore 1200 35 100).
Proof.
  split; [lra|].
  apply (recommendation_score_range 1200 35 60); lra.
Defined.

(** *** Lists of results *)

Lemma mapM_Forall2 {A B : Type} (f : A -> Eff B) (inv : World -> Prop)
    (Q : A -> B -> Prop) (l : list A) (w : World) :
  (forall a w, a ∈ l -> inv w -> Q a (fst (f a w)) /\ inv (snd (f a w))) ->
  inv w ->
  Forall2 Q l (fst (mapM f l w)) /\ inv (snd (mapM f l w)).
Proof.
  revert w. induction l as [|a l IH]; intros w Hstep Hinv.
  - split; [constructor | exact Hinv].
  - cbn [mapM]. unfold bind, ret.
    destruct (Hstep a w ltac:(left) Hinv) as [Hq Hinv'].
    destruct (f a w) as [b w']. cbn [fst snd] in *.
    destruct (IH w') as [Hall Hend]; [|exact Hinv'|].
    { intros a' w'' Ha'. apply Hstep. now right. }
    destruct (mapM f l w') as [bs w'']. cbn [fst snd] in *.
    split; [now constructor | exact Hend].
Qed.

Lemma mapM_draws {A B : Type} (f : A -> Eff B) (k : nat) (l : list A)
    (w : World) :
  (forall a w,
     (forall n, randomSource (snd (f a w)) n = randomSource w (k + n)%nat)
     /\ arrays (snd (f a w)) = arrays w) ->
  (forall n, randomSource (snd (mapM f l w)) n
             = randomSource w (k * length l + n)%nat)
  /\ arrays (snd (mapM f l w)) = arrays w.
Proof.
  intros Hstep. revert w. induction l as [|a l IH]; intros w.
  - cbn [mapM length]. unfold ret. cbn [snd].
    split; [|reflexivity]. intros n. f_equal. lia.
  - cbn [mapM length]. unfold bind, ret.
    destruct (Hstep a w) as [Hsource Harrays].
    destruct (f a w) as [b w']. cbn [snd] in *.
    destruct (IH w') as [Hsource' Harrays'].
    destruct (mapM f l w') as [bs w'']. cbn [snd] in *.
    split; [|congruence].
    intros n. rewrite Hsource', Hsource. f_equal. lia.
Qed.

Lemma unitSource_after (w w' : World) (k : nat) :
  (forall n, randomSource w' n = randomSource w (k + n)%nat) ->
  unitSource w -> unitSource w'.
Proof. intros Hshift Hunit n. rewrite Hshift. apply Hunit. Qed.

Lemma recommend_run (data : KeywordData) (w : World) :
  let metrics := fst (getKeywordMetrics data w) in
  let rank := Metrics.currentRank metrics in
  let ranks :=
    {| threeMonths := Math_max 1 (Math_round (rank * 0.7));
       sixMonths := Math_max 1 (Math_round (rank * 0.5));
       nineMonths := Math_max 1 (Math_round (rank * 0.3));
       twelveMonths := Math_max 1 (Math_round (rank * 0.2)) |} in
  Ranking.recommend data w
  = ({| Ranking.keyword := Types.keyword data;
        Ranking.currentRank := rank;
        Ranking.predictedRanks := ranks;
        Ranking.predictedInstalls :=
          {| threeMonths :=
               calculatePredictedInstalls (Metrics.volume metrics) rank
                 (threeMonths ranks);
             sixMonths :=
               calculatePredictedInstalls (Metrics.volume metrics) rank
                 (sixMonths ranks);
             nineMonths :=
               calculatePredictedInstalls (Metrics.volume metrics) rank
                 (nineMonths ranks);
             twelveMonths :=
               calculatePredictedInstalls (Metrics.volume metrics) rank
                 (twelveMonths ranks) |};
        Ranking.score :=
          Ranking.calculateRecommendationScore (Metrics.volume metrics)
            (Metrics.difficulty metrics) rank |},
     snd (getKeywordMetrics data w)).
Proof. reflexivity. Qed.

Lemma metrics_sensible (data : KeywordData) (w : World) :
  unitSource w -> sensible data ->
  0 <= Metrics.volume (fst (getKeywordMetrics data w))
  /\ 0 <= Metrics.difficulty (fst (getKeywordMetrics data w)) <= 100
  /\ 0 <= Metrics.currentRank (fst (getKeywordMetrics data w)).
Proof.
  intros Hunit (Hvolume & Hdifficulty & Hrank).
  rewrite getKeywordMetrics_run.
  cbn [fst Metrics.currentRank Metrics.volume Metrics.difficulty].
  split; [|split].
  - destruct (Types.volume data) as [v|]; [now apply Hvolume|].
    destruct (defaultVolume_range _ (Hunit 1%nat)) as [_ ?]. cbn [nullish]. lra.
  - destruct (Types.difficulty data) as [d|]; [now apply Hdifficulty|].
    destruct (defaultDifficulty_range _ (Hunit 2%nat)) as [_ ?].
    cbn [nullish]. lra.
  - destruct (Types.currentRank data) as [r|]; [now apply Hrank|].
    destruct (defaultRank_range _ (Hunit 0%nat)) as [_ ?]. cbn [nullish]. lra.
Qed.

Lemma optimistic_ranks_ordered (rank : R) :
  0 <= rank ->
  ordered {| threeMonths := Math_max 1 (Math_round (rank * 0.7));
             sixMonths := Math_max 1 (Math_round (rank * 0.5));
             nineMonths := Math_max 1 (Math_round (rank * 0.3));
             twelveMonths := Math_max 1 (Math_round (rank * 0.2)) |}.
Proof.
  intros Hrank. unfold ordered.
  cbn [threeMonths sixMonths nineMonths twelveMonths].
  split; [apply Math_max_1|].
  repeat split; apply Math_max_monotone, Math_round_monotone; lra.
Qed.

(** X23. The recommendations come sorted by score, best first, one per
    record of the input and with the same keywords.  For a random
    source of numbers from 0 to 1 and records whose metrics are
    sensible, every score is an integer from 0 to 100 and the four
    predicted ranks of a recommendation are at least 1 and never get
    worse from one horizon to the next.  Three numbers are drawn per
    record. *)
Theorem recommendations_sorted_by_score (keywordData : list KeywordData)
    (w : World) :
  let results := fst (Ranking.generateRecommendations keywordData w) in
  let after := snd (Ranking.generateRecommendations keywordData w) in
  descendingBy Ranking.score results
  /\ length results = length keywordData
  /\ Ranking.keyword <$> results ≡ₚ Types.keyword <$> keywordData
  /\ (forall n, randomSource after n
                = randomSource w (3 * length keywordData + n)%nat)
  /\ (unitSource w -> Forall sensible keywordData ->
      Forall (fun r => integerBetween 0 100 (Ranking.score r)
                       /\ ordered (Ranking.predictedRanks r))
             results).
Proof.
  cbv zeta. unfold Ranking.generateRecommendations, bind, ret.
  pose proof (mapM_draws Ranking.recommend 3 keywordData w) as Hdraws.
  destruct Hdraws as [Hsource _].
  { intros data w'. rewrite recommend_run. cbn [snd].
    rewrite getKeywordMetrics_run. now cbn [snd randomSource arrays]. }
  pose proof (mapM_Forall2 Ranking.recommend (fun _ => True)
                (fun data r => Ranking.keyword r = Types.keyword data)
                keywordData w) as Hkeywords.
  destruct Hkeywords as [Hkeywords _]; [|exact I|].
  { intros data w' _ _. rewrite recommend_run. now cbn. }
  assert (unitSource w -> Forall sensible keywordData ->
          Forall (fun r => integerBetween 0 100 (Ranking.score r)
                           /\ ordered (Ranking.predictedRanks r))
                 (fst (mapM Ranking.recommend keywordData w))) as Hranges.
  { intros Hunit Hsensible.
    pose proof (mapM_Forall2 Ranking.recommend unitSource
                  (fun data r => integerBetween 0 100 (Ranking.score r)
                                 /\ ordered (Ranking.predictedRanks r))
                  keywordData w) as Hall.
    destruct Hall as [Hall _]; [|exact Hunit|].
    { intros data w' Hdata Hunit'. rewrite Forall_forall in Hsensible.
      destruct (metrics_sensible data w' Hunit' (Hsensible data Hdata))
        as (Hvolume & Hdifficulty & Hrank).
      rewrite recommend_run.
      cbn [fst snd Ranking.score Ranking.predictedRanks].
      split.
      - split; [now apply calculateRecommendationScore_range|].
        now apply optimistic_ranks_ordered.
      - apply (unitSource_after w' _ 3); [|exact Hunit'].
        rewrite getKeywordMetrics_run. now cbn [snd randomSource]. }
    clear -Hall. induction Hall; constructor; auto. }
  destruct (mapM Ranking.recommend keywordData w) as [results w'].
  cbn [fst snd] in *.
  split; [now apply sort_by_descending|].
  split; [rewrite sort_by_length; symmetry; exact (Forall2_length _ _ _ Hkeywords)|].
  split.
  { rewrite sort_by_Permutation.
    clear -Hkeywords.
    induction Hkeywords as [|data r l results Hr _ IH]; [reflexivity|].
    cbn [fmap list_fmap]. now rewrite Hr, IH. }
  split; [exact Hsource|].
  intros Hunit Hsensible.
  eapply Forall_forall. intros r Hr.
  apply elem_of_sort_by in Hr.
  specialize (Hranges Hunit Hsensible). rewrite Forall_forall in Hranges.
  auto.
Qed.

Lemma predict_run (targetRanks : TargetRanks) (data : KeywordData)
    (w : World) :
  snd (predict targetRanks data w) = snd (getKeywordMetrics data w).
Proof. reflexivity. Qed.

(** X24. The predictions follow the input: there is one prediction per
    record, in the order of the records and with their keywords; a rank
    that is present is reported as the current rank; each of the four
    predicted ranks is an integer of at least 1.  Three numbers are
    drawn per record, whether or not its metrics are present, and no
    array is touched. *)
Theorem predictions_follow_the_input (keywordData : list KeywordData)
    (targetRanks : TargetRanks) (w : World) :
  let results := fst (generatePredictions keywordData targetRanks w) in
  let after := snd (generatePredictions keywordData targetRanks w) in
  Forall2 (fun data p =>
             keyword p = Types.keyword data
             /\ (forall rank, Types.currentRank data = Some rank ->
                   currentRank p = rank)
             /\ isRank (threeMonths (predictedRanks p))
             /\ isRank (sixMonths (predictedRanks p))
             /\ isRank (nineMonths (predictedRanks p))
             /\ isRank (twelveMonths (predictedRanks p)))
          keywordData results
  /\ (forall n, randomSource after n
                = randomSource w (3 * length keywordData + n)%nat)
  /\ arrays after = arrays w.
Proof.
  cbv zeta. unfold generatePredictions.
  assert (forall current target difficulty,
            isRank (calculatePredictedRank current target difficulty))
    as Hrank.
  { intros current target difficulty. unfold calculatePredictedRank.
    cbv zeta. split; [|apply Math_max_1].
    destruct (Math_max_round_integer
                (current
                 - (current - target)
                   * Math_min 1 ((100 - difficulty) / 100))) as [z Hz].
    now exists z. }
  split.
  - apply (mapM_Forall2 (predict targetRanks) (fun _ => True)); [|exact I].
    intros data w' _ _. split; [|exact I].
    rewrite predict_result. cbv zeta.
    cbn [keyword currentRank predictedRanks threeMonths sixMonths nineMonths
           twelveMonths].
    split; [reflexivity|].
    split; [now intros rank ->|].
    repeat split; apply Hrank.
  - apply (mapM_draws (predict targetRanks) 3).
    intros data w'. rewrite predict_run, getKeywordMetrics_run.
    now cbn [snd randomSource arrays].
Qed.

(** *** Ranking growth *)

Lemma growthFactor_range (k : Growth.Input.KeywordData) :
  ratedKeyword k -> 0 <= Growth.growthFactor k <= 0.2.
Proof.
  intros (Hdifficulty & Hvolume & Hrelevancy & Hchance).
  unfold Growth.growthFactor. cbv zeta.
  set (df := 1 - Growth.Input.difficulty k / 100).
  set (vf := Math_min (Growth.Input.volume k / 100) 1).
  set (mix := vf * 0.5 + Growth.Input.relevancyScore k / 100 * 0.3
              + Growth.Input.chance k / 100 * 0.2).
  assert (0 <= df <= 1) as Hdf by (unfold df; lra).
  assert (0 <= vf <= 1) as Hvf.
  { unfold vf, Math_min, Rmin. destruct (Rle_dec _ _); lra. }
  assert (0 <= mix <= 1) as Hmix by (unfold mix; lra).
  assert (0 <= df * mix <= 1) by nra.
  lra.
Qed.

Lemma growth_step (x : Z) (g : R) :
  (1 <= x)%Z -> 0 <= g <= 1 ->
  exists y : Z,
    Math_max 1 (Math_round (IZR x * (1 - g))) = IZR y /\ (1 <= y <= x)%Z.
Proof.
  intros Hx Hg.
  destruct (Math_max_round_integer (IZR x * (1 - g))) as [y Hy].
  exists y. split; [exact Hy|].
  pose proof (Math_max_1 (Math_round (IZR x * (1 - g)))) as Hlow.
  assert (Math_max 1 (Math_round (IZR x * (1 - g))) <= IZR x) as Hhigh.
  { apply IZR_le in Hx.
    assert (Math_round (IZR x * (1 - g)) <= IZR x) as Hround.
    { rewrite <- (Math_round_IZR x (IZR x) eq_refl) at 2.
      apply Math_round_monotone. nra. }
    unfold Math_max, Rmax. destruct (Rle_dec _ _); lra. }
  rewrite Hy in Hlow, Hhigh.
  split; apply le_IZR; assumption.
Qed.

Lemma installImpact_nonneg (k : Growth.Input.KeywordData) (oldRank newRank : R) :
  0 <= Growth.Input.volume k -> 1 <= newRank <= oldRank ->
  0 <= Growth.calculateInstallImpact k oldRank newRank.
Proof.
  intros Hvolume [Hnew Hold]. unfold Growth.calculateInstallImpact.
  destruct (Req_dec_T oldRank newRank); [lra|]. cbv zeta.
  apply Math_round_nonneg.
  assert (0 <= (if Rle_dec newRank 10 then 0.5 - (newRank - 1) * 0.05
                else 0.1 / newRank)
               - (if Rle_dec oldRank 10 then 0.5 - (oldRank - 1) * 0.05
                  else 0.1 / oldRank)) as Hvisibility.
  { destruct (Rle_dec newRank 10) as [Hn|Hn], (Rle_dec oldRank 10) as [Ho|Ho].
    - lra.
    - assert (0.1 / oldRank <= 0.1 / 10); [|lra].
      unfold Rdiv. apply Rmult_le_compat_l; [lra|].
      apply Rinv_le_contravar; lra.
    - lra.
    - assert (0.1 / oldRank <= 0.1 / newRank); [|lra].
      unfold Rdiv. apply Rmult_le_compat_l; [lra|].
      apply Rinv_le_contravar; lra. }
  apply Rmult_le_pos; [apply Rmult_le_pos|]; lra.
Qed.

(** X25. Ranking growth never worsens a rank: for a keyword whose
    difficulty, relevancy score and chance are from 0 to 100 and whose
    volume is not negative, and a current rank that is an integer of at
    least 1, the growth factor is between 0 and 0.2, the four predicted
    ranks are integers of at least 1 that never get worse from one
    horizon to the next, the first of them is not worse than the
    current rank, and no predicted install impact is negative. *)
Theorem ranking_growth_never_worsens (k : Growth.Input.KeywordData) (rank : Z) :
  ratedKeyword k -> (1 <= rank)%Z ->
  let prediction := Growth.predictRankingGrowth k (Some (IZR rank)) in
  0 <= Growth.growthFactor k <= 0.2
  /\ ordered (Growth.predictedRanks prediction)
  /\ threeMonths (Growth.predictedRanks prediction) <= IZR rank
  /\ (exists r3 r6 r9 r12 : Z,
        Growth.predictedRanks prediction
        = mkTargetRanks (IZR r3) (IZR r6) (IZR r9) (IZR r12))
  /\ 0 <= threeMonths (Growth.predictedInstallImpact prediction)
  /\ 0 <= sixMonths (Growth.predictedInstallImpact prediction)
  /\ 0 <= nineMonths (Growth.predictedInstallImpact prediction)
  /\ 0 <= twelveMonths (Growth.predictedInstallImpact prediction).
Proof.
  intros Hrated Hrank. cbv zeta.
  pose proof (growthFactor_range k Hrated) as Hg.
  destruct Hrated as (_ & Hvolume & _).
  unfold Growth.predictRankingGrowth. cbv zeta. cbn [nullish].
  set (g := Growth.growthFactor k) in *.
  destruct (growth_step rank g Hrank ltac:(lra)) as (r3 & H3 & Hr3).
  rewrite H3.
  destruct (growth_step r3 g ltac:(lia) ltac:(lra)) as (r6 & H6 & Hr6).
  rewrite H6.
  destruct (growth_step r6 g ltac:(lia) ltac:(lra)) as (r9 & H9 & Hr9).
  rewrite H9.
  destruct (growth_step r9 g ltac:(lia) ltac:(lra)) as (r12 & H12 & Hr12).
  rewrite H12.
  cbn [Growth.predictedRanks Growth.predictedInstallImpact threeMonths
         sixMonths nineMonths twelveMonths].
  split; [exact Hg|].
  split.
  { unfold ordered. cbn [threeMonths sixMonths nineMonths twelveMonths].
    repeat split; apply IZR_le; lia. }
  split; [apply IZR_le; lia|].
  split; [now exists r3, r6, r9, r12|].
  repeat split; apply installImpact_nonneg; try exact Hvolume;
    split; apply IZR_le; lia.
Qed.

Lemma ranking_growth_never_worsens_witness :
  (ratedKeyword sample_rated /\ (1 <= 50)%Z)
  /\ 0 <= Growth.growthFactor sample_rated <= 0.2
  /\ ordered (Growth.predictedRanks
                (Growth.predictRankingGrowth sample_rated (Some (IZR 50))))
  /\ threeMonths (Growth.predictedRanks
                    (Growth.predictRankingGrowth sample_rated
                       (Some (IZR 50))))
     <= IZR 50
  /\ (exists r3 r6 r9 r12 : Z,
        Growth.predictedRanks
          (Growth.predictRankingGrowth sample_rated (Some (IZR 50)))
        = mkTargetRanks (IZR r3) (IZR r6) (IZR r9) (IZR r12))
  /\ 0 <= threeMonths (Growth.predictedInstallImpact
                         (Growth.predictRankingGrowth sample_rated
                            (Some (IZR 50))))
  /\ 0 <= sixMonths (Growth.predictedInstallImpact
                       (Growth.predictRankingGrowth sample_rated
                          (Some (IZR 50))))
  /\ 0 <= nineMonths (Growth.predictedInstallImpact
                        (Growth.predictRankingGrowth sample_rated
                           (Some (IZR 50))))
  /\ 0 <= twelveMonths (Growth.predictedInstallImpact
                          (Growth.predictRankingGrowth sample_rated
                             (Some (IZR 50)))).
Proof.
  assert (ratedKeyword sample_rated) as Hrated.
  { unfold ratedKeyword, sample_rated. cbn. lra. }
  split; [split; [exact Hrated | lia]|].
  apply (ranking_growth_never_worsens sample_rated 50 Hrated). lia.
Defined.

End PredictionFacts.

(** ** The metadata route *)

Section MetadataFacts.
Import Js JsLib Runtime Metadata MetadataRoute.
Local Open Scope R_scope.

Lemma length_str (l : list ascii) : String.length (str l) = length l.
Proof. induction l as [|c l IH]; [reflexivity|]. cbn. now rewrite <- IH. Qed.

Lemma string_slice_length (n : nat) (s : string) :
  (String.length (string_slice n s) <= n)%nat.
Proof. unfold string_slice. rewrite length_str, length_take. lia. Qed.

Lemma keywordsString_length (shuffled : list string) :
  (String.length (keywordsString shuffled) <= 100)%nat.
Proof.
  unfold keywordsString.
  pose proof (fold_addKeyword_length shuffled "" ltac:(cbn; lia)). lia.
Qed.

Lemma randomIndex_in_range {A : Type} (l : list A) (r : R) :
  0 <= r < 1 -> l <> [] ->
  exists x, at_index l (Zfloor (r * INR (length l))) = Some x /\ x ∈ l.
Proof.
  intros Hr Hl.
  assert (0 < INR (length l)) as Hn.
  { apply lt_0_INR. destruct l; [contradiction | cbn [length]; lia]. }
  destruct (Zfloor_bound (r * INR (length l))) as [Hfloor Hnext].
  set (z := Zfloor (r * INR (length l))) in *.
  assert (0 <= z)%Z as Hz0.
  { assert (-1 < z)%Z; [|lia]. apply lt_IZR. nra. }
  assert (z < Z.of_nat (length l))%Z as Hz1.
  { apply lt_IZR. rewrite <- INR_IZR_INZ. nra. }
  unfold at_index. destruct (Z.ltb_spec z 0) as [|_]; [lia|].
  destruct (lookup_lt_is_Some_2 l (Z.to_nat z) ltac:(lia)) as [x Hx].
  exists x. split; [exact Hx|]. now apply list_elem_of_lookup_2 in Hx.
Qed.

Lemma unitSource_Math_random (w : World) :
  unitSource w -> 0 <= fst (Math_random w) < 1 /\ unitSource (snd (Math_random w)).
Proof.
  intros Hunit. split; [apply Hunit|]. intros n. apply Hunit.
Qed.

Lemma unitSource_modified (keyword : string) (w : World) :
  unitSource w -> unitSource (snd (modified keyword w)).
Proof. intros Hunit n. apply Hunit. Qed.

Section AnyShuffle.
Variable shuffle : list string -> Eff (list string).
Hypothesis shuffle_source :
  forall l w, unitSource w -> unitSource (snd (shuffle l w)).

Lemma generateOption_ok (keywords : list string) (seed : nat) (w : World) :
  unitSource w -> keywords <> [] ->
  exists o,
    fst (generateOption shuffle keywords seed w) = Some o
    /\ withinLimits o
    /\ builtAround keywords seed o
    /\ unitSource (snd (generateOption shuffle keywords seed w)).
Proof.
  intros Hunit Hkeywords.
  unfold generateOption. unfold bind at 1. unfold randomIndex, bind, ret.
  destruct (unitSource_Math_random w Hunit) as [Hr Hunit1].
  destruct (Math_random w) as [r w1]. cbn [fst snd] in *.
  destruct (randomIndex_in_range keywords r Hr Hkeywords)
    as (mainKeyword & -> & Hmain).
  cbv zeta.
  destruct (mapM_Forall2 modified unitSource (fun _ _ => True) keywords w1)
    as [_ Hunit2]; [|exact Hunit1|].
  { intros keyword w' _ Hunit'. split; [exact I|].
    now apply unitSource_modified. }
  destruct (mapM modified keywords w1) as [modifiedKeywords w2].
  cbn [snd] in Hunit2.
  pose proof (shuffle_source (keywords ++ modifiedKeywords) w2 Hunit2)
    as Hunit3.
  destruct (shuffle (keywords ++ modifiedKeywords) w2) as [shuffled w3].
  cbn [fst snd] in *.
  eexists. split; [reflexivity|].
  split; [|split; [|exact Hunit3]].
  - unfold withinLimits. cbn [title subtitle MetadataRoute.keywords].
    split; [apply string_slice_length|].
    split; [apply string_slice_length | apply keywordsString_length].
  - exists mainKeyword. now split.
Qed.

Lemma allKeywords_nonempty (keywords : list string) :
  allKeywords keywords <> [].
Proof.
  unfold allKeywords. case_bool_decide as Hin.
  - destruct keywords; [inversion Hin | discriminate].
  - intros Hnil. apply app_eq_nil in Hnil as [_ Hnil]. discriminate.
Qed.

Lemma generateMetadataOptions_ok (keywords : list string) (w : World) :
  unitSource w ->
  exists option1 option2 option3,
    fst (generateMetadataOptions shuffle keywords w)
    = Some [option1; option2; option3]
    /\ Forall withinLimits [option1; option2; option3]
    /\ builtAround (allKeywords keywords) 1 option1
    /\ builtAround (allKeywords keywords) 2 option2
    /\ builtAround (allKeywords keywords) 3 option3.
Proof.
  intros Hunit. unfold generateMetadataOptions. cbv zeta.
  pose proof (allKeywords_nonempty keywords) as Hall.
  unfold bind at 1.
  destruct (generateOption_ok (allKeywords keywords) 1 w Hunit Hall)
    as (o1 & Ho1 & Hlimits1 & Hbuilt1 & Hunit1).
  destruct (generateOption shuffle (allKeywords keywords) 1 w) as [r1 w1].
  cbn [fst snd] in *. subst r1. unfold bind at 1.
  destruct (generateOption_ok (allKeywords keywords) 2 w1 Hunit1 Hall)
    as (o2 & Ho2 & Hlimits2 & Hbuilt2 & Hunit2).
  destruct (generateOption shuffle (allKeywords keywords) 2 w1) as [r2 w2].
  cbn [fst snd] in *. subst r2. unfold bind at 1.
  destruct (generateOption_ok (allKeywords keywords) 3 w2 Hunit2 Hall)
    as (o3 & Ho3 & Hlimits3 & Hbuilt3 & _).
  destruct (generateOption shuffle (allKeywords keywords) 3 w2) as [r3 w3].
  cbn [fst snd] in *. subst r3. unfold ret. cbn [fst].
  exists o1, o2, o3. split; [reflexivity|].
  split.
  { constructor; [exact Hlimits1|]. constructor; [exact Hlimits2|].
    constructor; [exact Hlimits3|]. constructor. }
  split; [exact Hbuilt1|]. split; [exact Hbuilt2 | exact Hbuilt3].
Qed.

Lemma allKeywords_members (keywords : list string) :
  (forall keyword, keyword ∈ keywords -> keyword ∈ allKeywords keywords)
  /\ "sahsah" ∈ allKeywords keywords
  /\ "sahseh" ∈ allKeywords keywords.
Proof.
  unfold allKeywords.
  split; [intros keyword Hin; rewrite elem_of_app; now left|].
  split.
  - case_bool_decide as Hin; rewrite !elem_of_app; [now left|].
    right; left. apply list_elem_of_here.
  - rewrite !elem_of_app.
    destruct (decide ("sahseh" ∈ keywords)) as [Hin|Hin]; [now left|].
    right; right. rewrite (bool_decide_eq_false_2 _ Hin).
    apply list_elem_of_here.
Qed.

(** X26. The metadata route answers a request whose [keywords] are
    missing, not an array or an empty array with the status 400 and
    the error [Invalid keywords in request body].  It answers a
    non-empty array of strings with the status 200 and three options,
    never with the status 500: the main keyword of every option
    exists, so that no call fails.  Every option is within the limits
    of the store (30 characters for the title and for the subtitle,
    100 for the keyword field), and is built around a main keyword
    taken from the keywords of the request or from the two added
    ones, with the title and subtitle patterns of its seed. *)
Theorem metadata_options_within_limits (keywords : option (list string))
    (w : World) :
  unitSource w ->
  match keywords with
  | None | Some [] =>
      fst (POST shuffle keywords w)
      = mkResponse 400 (ErrorBody "Invalid keywords in request body")
  | Some ((_ :: _) as requested) =>
      exists option1 option2 option3,
        fst (POST shuffle keywords w)
        = mkResponse 200 (SuggestionBody [option1; option2; option3])
        /\ Forall withinLimits [option1; option2; option3]
        /\ builtAround (allKeywords requested) 1 option1
        /\ builtAround (allKeywords requested) 2 option2
        /\ builtAround (allKeywords requested) 3 option3
        /\ (forall keyword,
              keyword ∈ requested -> keyword ∈ allKeywords requested)
        /\ "sahsah" ∈ allKeywords requested
        /\ "sahseh" ∈ allKeywords requested
  end.
Proof.
  intros Hunit. destruct keywords as [[|keyword keywords]|];
    [reflexivity | | reflexivity].
  destruct (generateMetadataOptions_ok (keyword :: keywords) w Hunit)
    as (o1 & o2 & o3 & Hoptions & Hlimits & Hbuilt1 & Hbuilt2 & Hbuilt3).
  exists o1, o2, o3.
  split.
  { unfold POST, bind.
    destruct (generateMetadataOptions shuffle (keyword :: keywords) w)
      as [options w'].
    cbn [fst] in Hoptions. subst options. reflexivity. }
  split; [exact Hlimits|].
  split; [exact Hbuilt1|]. split; [exact Hbuilt2|]. split; [exact Hbuilt3|].
  apply allKeywords_members.
Qed.

End AnyShuffle.

Lemma noShuffle_source (l : list string) (w : World) :
  unitSource w -> unitSource (snd (noShuffle l w)).
Proof. intros Hunit. exact Hunit. Qed.

Lemma metadata_options_within_limits_witness :
  ((forall l w, unitSource w -> unitSource (snd (noShuffle l w)))
   /\ unitSource (constantWorld (/ 2)))
  /\ exists option1 option2 option3,
       fst (POST noShuffle (Some ["yoga"]) (constantWorld (/ 2)))
       = mkResponse 200 (SuggestionBody [option1; option2; option3])
       /\ Forall withinLimits [option1; option2; option3]
       /\ builtAround (allKeywords ["yoga"]) 1 option1
       /\ builtAround (allKeywords ["yoga"]) 2 option2
       /\ builtAround (allKeywords ["yoga"]) 3 option3
       /\ (forall keyword, keyword ∈ ["yoga"] ->
             keyword ∈ allKeywords ["yoga"])
       /\ "sahsah" ∈ allKeywords ["yoga"]
       /\ "sahseh" ∈ allKeywords ["yoga"].
Proof.
  split; [split; [exact noShuffle_source | exact unitSource_constantWorld]|].
  apply (metadata_options_within_limits noShuffle noShuffle_source
           (Some ["yoga"]) (constantWorld (/ 2))).
  exact unitSource_constantWorld.
Defined.

(** *** The keyword field as a selection *)

Lemma string_append_assoc (a b c : string) :
  (a +:+ b) +:+ c = a +:+ (b +:+ c).
Proof.
  induction a as [|x a IH]; [reflexivity|].
  change (String x ((a +:+ b) +:+ c) = String x (a +:+ (b +:+ c))).
  now rewrite IH.
Qed.

Lemma string_append_empty (a : string) : a +:+ "" = a.
Proof.
  induction a as [|x a IH]; [reflexivity|].
  change (String x (a +:+ "") = String x a). now rewrite IH.
Qed.

Lemma join_snoc (sep : string) (l : list string) (x : string) :
  l <> [] -> join sep (l ++ [x]) = join sep l +:+ sep +:+ x.
Proof.
  induction l as [|a l IH]; [contradiction|]. intros _.
  destruct l as [|b l]; [reflexivity|].
  cbn [app join] in *. rewrite IH by discriminate.
  now rewrite !string_append_assoc.
Qed.

Lemma join_empty (sep : string) (l : list string) :
  l <> [] -> Forall (fun x => x <> "") l -> join sep l <> "".
Proof.
  destruct l as [|a l]; [contradiction|]. intros _ Hall.
  apply Forall_cons in Hall as [Ha _].
  destruct a as [|c a]; [contradiction|].
  destruct l; discriminate.
Qed.

Lemma fold_addKeyword_chosen (l chosen : list string) :
  (join ", " chosen = "" -> chosen = []) ->
  exists chosen',
    chosen' `sublist_of` l
    /\ fold_left addKeyword l (join ", " chosen)
       = join ", " (chosen ++ chosen').
Proof.
  revert chosen. induction l as [|kw l IH]; intros chosen Hinv.
  - exists []. split; [constructor|]. now rewrite app_nil_r.
  - cbn [fold_left]. unfold addKeyword at 2.
    destruct (String.length (join ", " chosen +:+ kw) <=? 97).
    + destruct (truthy (join ", " chosen)) eqn:Hks.
      * apply truthy_nonempty in Hks.
        assert (chosen <> []) as Hchosen by (intros ->; now apply Hks).
        rewrite <- join_snoc by exact Hchosen.
        destruct (IH (chosen ++ [kw])) as (chosen' & Hsub & Heq).
        { intros Hempty. rewrite join_snoc in Hempty by exact Hchosen.
          destruct (join ", " chosen); [contradiction | discriminate]. }
        exists (kw :: chosen'). split; [now apply sublist_skip|].
        now rewrite Heq, <- app_assoc.
      * assert (join ", " chosen = "") as Hempty.
        { destruct (join ", " chosen); [reflexivity | discriminate]. }
        rewrite Hempty, (Hinv Hempty). cbn [String.append app].
        destruct kw as [|c kw].
        -- destruct (IH []) as (chosen' & Hsub & Heq); [reflexivity|].
           exists chosen'. split; [now apply sublist_cons|]. exact Heq.
        -- destruct (IH [String c kw]) as (chosen' & Hsub & Heq);
             [discriminate|].
           exists (String c kw :: chosen').
           split; [now apply sublist_skip|]. exact Heq.
    + destruct (IH chosen Hinv) as (chosen' & Hsub & Heq).
      exists chosen'. split; [now apply sublist_cons|]. exact Heq.
Qed.

Lemma join_length (l : list string) :
  String.length (join ", " l)
  = (sum_list (String.length <$> l) + 2 * (length l - 1))%nat.
Proof.
  induction l as [|a l IH]; [reflexivity|].
  destruct l as [|b l]; [cbn; lia|].
  cbn [join] in *. rewrite !length_append, IH.
  cbn [fmap list_fmap sum_list sum_list_with length String.length].
  unfold Datatypes.id. lia.
Qed.

Lemma fold_addKeyword_all (l chosen : list string) :
  Forall (fun kw => kw <> "") (chosen ++ l) ->
  (String.length (join ", " (chosen ++ l)) <= 97)%nat ->
  fold_left addKeyword l (join ", " chosen) = join ", " (chosen ++ l).
Proof.
  revert chosen. induction l as [|kw l IH]; intros chosen Hall Hfits.
  - now rewrite app_nil_r.
  - cbn [fold_left].
    assert (chosen ++ kw :: l = (chosen ++ [kw]) ++ l) as Hassoc
      by now rewrite <- app_assoc.
    rewrite Hassoc in Hall, Hfits |- *.
    assert (addKeyword (join ", " chosen) kw = join ", " (chosen ++ [kw]))
      as ->; [|now apply IH].
    unfold addKeyword.
    assert (String.length (join ", " chosen +:+ kw) <= 97)%nat as Hlen.
    { rewrite join_length in Hfits. rewrite length_append, join_length.
      rewrite !fmap_app, !sum_list_with_app, !length_app in Hfits.
      cbn [fmap list_fmap sum_list sum_list_with length] in Hfits.
      unfold Datatypes.id in Hfits |- *. lia. }
    apply Nat.leb_le in Hlen. rewrite Hlen.
    destruct chosen as [|a chosen]; [reflexivity|].
    assert (truthy (join ", " (a :: chosen)) = true) as ->.
    { apply truthy_nonempty, join_empty; [discriminate|].
      apply Forall_app in Hall as [Hall _].
      now apply Forall_app in Hall as [Hall _]. }
    now rewrite join_snoc by discriminate.
Qed.

(** X27. The keyword field is a selection of the shuffled keywords:
    it is made of whole keywords, in their order, separated by a comma
    and a space.  When no keyword is empty and the whole list, so
    joined, has at most 97 characters, nothing is left out.  A first
    keyword of more than 97 characters is passed over, and the field is
    built from the rest. *)
Theorem keyword_field_is_a_selection (shuffled : list string) :
  (exists chosen,
     chosen `sublist_of` shuffled
     /\ keywordsString shuffled = join ", " chosen)
  /\ (Forall (fun kw => kw <> "") shuffled ->
      (String.length (join ", " shuffled) <= 97)%nat ->
      keywordsString shuffled = join ", " shuffled)
  /\ (forall kw rest,
        shuffled = kw :: rest -> (97 < String.length kw)%nat ->
        keywordsString shuffled = keywordsString rest).
Proof.
  unfold keywordsString. split; [|split].
  - destruct (fold_addKeyword_chosen shuffled []) as (chosen & Hsub & Heq);
      [reflexivity|].
    now exists chosen.
  - intros Hall Hfits. now apply (fold_addKeyword_all shuffled []).
  - intros kw rest -> Hlong. cbn [fold_left]. unfold addKeyword at 2.
    change ("" +:+ kw) with kw.
    destruct (Nat.leb_spec (String.length kw) 97); [lia | reflexivity].
Qed.

End MetadataFacts.

(** ** The texts of the analysis *)

Section Texts.
Import Js Types Analysis Recommendations.

Lemma trimStart_chars_startsClean (l : list ascii) :
  startsClean (trimStart_chars l).
Proof.
  induction l as [|c l IH]; [exact I|]. cbn [trimStart_chars].
  destruct (Ascii.is_space c) eqn:Hc; [exact IH | exact Hc].
Qed.

Lemma trimStart_chars_suffix (l : list ascii) :
  exists ws, l = ws ++ trimStart_chars l.
Proof.
  induction l as [|c l [ws IH]]; [now exists []|]. cbn [trimStart_chars].
  destruct (Ascii.is_space c); [|now exists []].
  exists (c :: ws). cbn [app]. now rewrite <- IH.
Qed.

Lemma startsClean_rev_last (l : list ascii) :
  startsClean l -> forall c, last (rev l) = Some c -> Ascii.is_space c = false.
Proof.
  destruct l as [|a l]; [intros _ c; discriminate|].
  cbn [startsClean rev]. intros Ha c. rewrite last_snoc. now intros [= <-].
Qed.

Lemma collapse_ws_spaced (in_ws : bool) (l : list ascii) :
  (forall c, last l = Some c -> Ascii.is_space c = false) ->
  singleSpaced (collapse_ws in_ws l)
  /\ (in_ws = true -> startsClean (collapse_ws in_ws l))
  /\ (l <> [] -> collapse_ws in_ws l <> []).
Proof.
  revert in_ws. induction l as [|c l IH]; intros in_ws Hlast.
  - split; [exact I|]. split; [intros _; exact I | contradiction].
  - assert (Ascii.is_space c = true -> l <> []) as Hmore.
    { intros Hc ->. specialize (Hlast c eq_refl). congruence. }
    assert (forall c', last l = Some c' -> Ascii.is_space c' = false) as Hlast'.
    { intros c' Hc'. apply Hlast. rewrite last_cons, Hc'. reflexivity. }
    cbn [collapse_ws]. destruct (Ascii.is_space c) eqn:Hc.
    + destruct (IH true Hlast') as (Hspaced & Hclean & Hnonempty).
      specialize (Hclean eq_refl). specialize (Hnonempty (Hmore eq_refl)).
      destruct in_ws.
      * split; [exact Hspaced|].
        split; [intros _; exact Hclean | intros _; exact Hnonempty].
      * split; [|split; [discriminate | discriminate]].
        cbn [singleSpaced]. split; [|exact Hspaced].
        intros _. split; [reflexivity|].
        destruct (collapse_ws true l); [contradiction | exact Hclean].
    + destruct (IH false Hlast') as (Hspaced & _ & _).
      split; [|split; [intros _; exact Hc | discriminate]].
      cbn [singleSpaced]. split; [|exact Hspaced].
      intros Hsp. cbn in Hsp. congruence.
Qed.

Lemma normalize_ws_singleLine (text : string) : singleLine (normalize_ws text).
Proof.
  unfold singleLine, normalize_ws, trim. rewrite !chars_str.
  set (u := trimStart_chars (chars text)).
  set (t := rev (trimStart_chars (rev u))).
  assert (forall c, last t = Some c -> Ascii.is_space c = false) as Hlast.
  { subst t. apply startsClean_rev_last, trimStart_chars_startsClean. }
  assert (startsClean t) as Hstart.
  { destruct (trimStart_chars_suffix (rev u)) as [ws Hws].
    apply (f_equal (@rev ascii)) in Hws.
    rewrite rev_involutive, rev_app_distr in Hws. fold t in Hws.
    pose proof (trimStart_chars_startsClean (chars text)) as Hu. fold u in Hu.
    rewrite Hws in Hu. destruct t; [exact I | exact Hu]. }
  destruct (collapse_ws_spaced false t Hlast) as (Hspaced & _ & _).
  split; [exact Hspaced|].
  destruct t as [|c t']; [exact I|]. cbn [startsClean] in Hstart.
  cbn [collapse_ws]. now rewrite Hstart.
Qed.

(** X28. The summary of the insights and the reasoning of the
    recommendations are single lines, whatever the app name and the
    keywords contain: they have no white space at either end, and
    their only white space is single spaces between words. *)
Theorem analysis_texts_are_single_lines (details : Flexible.AppDetails)
    (allKeywords lowCompetitionOpportunities underperformingKeywords
       : list KeywordData) (insights : KeywordInsights) :
  singleLine (generateInsightsSummary details allKeywords
                lowCompetitionOpportunities underperformingKeywords)
  /\ singleLine (reasoning (generateMetadataRecommendations details
                              allKeywords insights)).
Proof.
  split.
  - unfold generateInsightsSummary. cbv zeta. apply normalize_ws_singleLine.
  - unfold generateMetadataRecommendations. cbv zeta. cbn [reasoning].
    apply normalize_ws_singleLine.
Qed.

End Texts.

(** ** Numbers written in decimal digits *)

Section DecimalNumbers.
Import Js.
Local Open Scope R_scope.

Lemma digits_of_uint (d : Decimal.uint) (acc : nat) :
  fold_left (fun acc c => 10 * acc + digit_value c)%Z
            (chars (NilEmpty.string_of_uint d)) (Z.of_nat acc)
  = Z.of_nat (Nat.of_uint_acc d acc).
Proof.
  revert acc.
  induction d as [|d IH|d IH|d IH|d IH|d IH|d IH|d IH|d IH|d IH|d IH];
    intros acc; [reflexivity|..];
    cbn [NilEmpty.string_of_uint chars list_ascii_of_string fold_left
           Nat.of_uint_acc];
    rewrite Nat.tail_mul_spec, <- IH; f_equal;
    unfold digit_value;
    match goal with
    | |- context [nat_of_ascii ?c] =>
        let v := eval vm_compute in (nat_of_ascii c) in
        change (nat_of_ascii c) with v
    end; lia.
Qed.

Lemma span_digits_of_uint (d : Decimal.uint) :
  span_digits (chars (NilEmpty.string_of_uint d))
  = (chars (NilEmpty.string_of_uint d), []).
Proof.
  induction d as [|d IH|d IH|d IH|d IH|d IH|d IH|d IH|d IH|d IH|d IH];
    [reflexivity|..];
    cbn [NilEmpty.string_of_uint chars list_ascii_of_string span_digits];
    unfold chars in IH; rewrite IH; reflexivity.
Qed.

Lemma digit_plain (c : ascii) (l : list ascii) :
  is_digit c = true ->
  Ascii.is_space c = false
  /\ read_sign (c :: l) = (false, c :: l)
  /\ c <> "x"%char /\ c <> "X"%char.
Proof.
  destruct c as [[] [] [] [] [] [] [] []]; intros Hdigit;
    try (vm_compute in Hdigit; discriminate);
    (split; [reflexivity|]; split; [reflexivity|]; split; discriminate).
Qed.

Lemma span_digits_head (c : ascii) (l : list ascii) :
  span_digits (c :: l) = (c :: l, []) -> is_digit c = true.
Proof.
  cbn [span_digits]. destruct (is_digit c); [reflexivity|discriminate].
Qed.

Lemma parseInt_Z_decimal (s : string) (l : list ascii) :
  read_sign (trimStart_chars (chars s)) = (false, l) ->
  (forall x l', l = "0"%char :: x :: l' -> x <> "x"%char /\ x <> "X"%char) ->
  parseInt_Z s = match span_digits l with
                 | ([], _) => None
                 | (ds, _) => Some (digits_value ds)
                 end.
Proof.
  intros Hsign Hplain. unfold parseInt_Z. rewrite Hsign.
  destruct l as [|c [|x l']]; [reflexivity|..];
    destruct c as [[] [] [] [] [] [] [] []]; try reflexivity.
  destruct (Hplain x l' eq_refl) as [Hlower Hupper].
  rewrite (bool_decide_eq_false_2 _ Hlower), (bool_decide_eq_false_2 _ Hupper).
  reflexivity.
Qed.

Lemma parse_digits (c : ascii) (l : list ascii) :
  span_digits (c :: l) = (c :: l, []) ->
  parseDecimal (str (c :: l)) = Some (digits_value (c :: l), 0%Z)
  /\ parseInt_Z (str (c :: l)) = Some (digits_value (c :: l)).
Proof.
  intros Hspan. pose proof (span_digits_head c l Hspan) as Hdigit.
  destruct (digit_plain c l Hdigit) as (Hspace & Hsign & _).
  split.
  - unfold parseDecimal. rewrite chars_str.
    cbn [trimStart_chars]. rewrite Hspace, Hsign, Hspan, app_nil_r.
    reflexivity.
  - rewrite (parseInt_Z_decimal _ (c :: l)).
    + rewrite Hspan. reflexivity.
    + rewrite chars_str. cbn [trimStart_chars]. now rewrite Hspace.
    + intros x l' [= -> ->].
      cbn [span_digits] in Hspan. rewrite Hdigit in Hspan.
      destruct (is_digit x) eqn:Hx.
      * now destruct (digit_plain x l' Hx) as (_ & _ & Hlower & Hupper).
      * discriminate Hspan.
Qed.

Lemma nat_to_string_parses (n : nat) :
  parseFloat (nat_to_string n) = Some (INR n)
  /\ parseInt (nat_to_string n) = Some (INR n).
Proof.
  unfold nat_to_string, parseFloat, parseInt.
  pose proof (DecimalNat.Unsigned.of_to n) as Hn. unfold Nat.of_uint in Hn.
  pose proof (span_digits_of_uint (Nat.to_uint n)) as Hspan.
  pose proof (digits_of_uint (Nat.to_uint n) 0) as Hvalue.
  rewrite Hn in Hvalue. change (Z.of_nat 0) with 0%Z in Hvalue.
  assert (NilZero.string_of_uint (Nat.to_uint n)
          = NilEmpty.string_of_uint (Nat.to_uint n)) as ->.
  { destruct (Nat.to_uint n) eqn:Hd; try reflexivity.
    cbn in Hn. subst n. discriminate Hd. }
  destruct (chars (NilEmpty.string_of_uint (Nat.to_uint n))) as [|c l] eqn:Hchars.
  { exfalso. destruct (Nat.to_uint n) eqn:Hd; try discriminate Hchars.
    cbn in Hn. subst n. discriminate Hd. }
  rewrite <- (str_chars (NilEmpty.string_of_uint (Nat.to_uint n))), Hchars.
  destruct (parse_digits c l Hspan) as [-> ->].
  unfold digits_value. rewrite Hvalue.
  cbn [fmap option_fmap option_map decimal_value].
  change (0 <=? 0)%Z with true. cbn [Z.pow].
  rewrite Z.mul_1_r, <- INR_IZR_INZ. now split.
Qed.

(** X29. Numbers written in decimal digits are read exactly, for the
    natural numbers up to [2 ^ 53], which a JavaScript number holds
    without rounding.  In the flexible parser a cell that is the decimal
    form of such a number decorated with [,], [%] and [$] (as in
    [$1,200]) is coerced to that number.  In the strict parser the
    decimal form of such a number is read as that number by the fields
    without an upper bound, and as the smaller of the number and 100 by
    the fields bounded by 100. *)
Theorem decimal_numbers_round_trip (value : string) (n : nat) :
  (Z.of_nat n <= 2 ^ 53)%Z ->
  Flexible.stripSymbols value = nat_to_string n ->
  Flexible.parseNumericValue (inl value) = INR n
  /\ Strict.parseNumber (nat_to_string n) (Some 0) None = INR n
  /\ Strict.parseNumber (nat_to_string n) (Some 0) (Some 100)
     = INR (Nat.min n 100).
Proof.
  intros _ Hvalue. destruct (nat_to_string_parses n) as [Hfloat Hint].
  pose proof (pos_INR n) as Hpos.
  split; [|split].
  - unfold Flexible.parseNumericValue. cbv zeta. now rewrite Hvalue, Hfloat.
  - unfold Strict.parseNumber. rewrite Hint.
    destruct (Rlt_dec (INR n) 0); [lra | reflexivity].
  - unfold Strict.parseNumber. rewrite Hint.
    destruct (Rlt_dec (INR n) 0); [lra|].
    rewrite !INR_IZR_INZ.
    destruct (Rlt_dec 100 (IZR (Z.of_nat n))) as [Hlt|Hno].
    + apply lt_IZR in Hlt. f_equal. lia.
    + f_equal. destruct (Nat.le_gt_cases n 100) as [Hle|Hgt]; [lia|].
      exfalso. apply Hno. apply IZR_lt. lia.
Qed.

Lemma decimal_numbers_round_trip_witness :
  (Z.of_nat 1200 <= 2 ^ 53)%Z
  /\ Flexible.stripSymbols "$1,200" = nat_to_string 1200
  /\ Flexible.parseNumericValue (inl "$1,200") = INR 1200
  /\ Strict.parseNumber (nat_to_string 1200) (Some 0) None = INR 1200
  /\ Strict.parseNumber (nat_to_string 1200) (Some 0) (Some 100)
     = INR (Nat.min 1200 100).
Proof.
  split; [vm_compute; discriminate|].
  split; [vm_compute; reflexivity|].
  apply (decimal_numbers_round_trip "$1,200" 1200).
  - vm_compute. discriminate.
  - vm_compute. reflexivity.
Defined.

End DecimalNumbers.
